(** * geometry.hpp: vectors, lines, planes, triangles and objects in R3

    A shallow embedding of [src/geometry.hpp].  Every function of the header
    is written once, over an interface [Arith] holding the arithmetic the
    C++ code applies to its [double] values.  The interface has two
    instances:

    - [binary64]: IEEE 754 double precision as specified by [SpecFloat],
      with round-to-nearest-even, signed zeros, infinities and NaN.  Every
      operation of the source, [sqrt] included, rounds once to a double;
      no wider intermediate precision and no fused multiply-add is
      assumed.  This is the arithmetic of the compiled program.
    - [exact]: the real numbers, the arithmetic in which the geometric
      identities of the library are read.

    A statement proved for every instance, or for [binary64], holds for the
    program as it runs; a statement proved for [exact] only is an algebraic
    fact about the formulas. *)

From Stdlib Require Import ZArith NArith List String Ascii Bool Lia.
From Stdlib Require Import DecimalString DecimalFacts DecimalPos DecimalN.
From Stdlib Require Import Floats.SpecFloat.
From Stdlib Require Import Reals Lra Psatz.

Import ListNotations.

(** ** The arithmetic of [double] *)

Class Arith (num : Type) : Type := {
  of_Z  : Z -> num;              (* an integer or float literal with an integral value *)
  fadd  : num -> num -> num;     (* a + b  *)
  fsub  : num -> num -> num;     (* a - b  *)
  fmul  : num -> num -> num;     (* a * b  *)
  fdiv  : num -> num -> num;     (* a / b  *)
  fneg  : num -> num;            (* -a     *)
  fsqrt : num -> num;            (* sqrt(a) *)
  flt   : num -> num -> bool;    (* a < b  *)
  feq   : num -> num -> bool     (* a == b *)
}.

Declare Scope arith_scope.
Delimit Scope arith_scope with ar.
Infix "+" := fadd : arith_scope.
Infix "-" := fsub : arith_scope.
Infix "*" := fmul : arith_scope.
Infix "/" := fdiv : arith_scope.
Notation "- a" := (fneg a) : arith_scope.
Infix "<?" := flt : arith_scope.
Infix "==" := feq (at level 70, no associativity) : arith_scope.

(** [a > b] of C++ is [b < a]. *)
Definition fgt {num} `{Arith num} (a b : num) : bool := flt b a.
Infix ">?" := fgt : arith_scope.

(** *** IEEE 754 binary64 *)

Definition prec : Z := 53.
Definition emax : Z := 1024.

#[export] Instance binary64 : Arith spec_float := {
  of_Z n := binary_normalize prec emax n 0 false;
  fadd  := SFadd prec emax;
  fsub  := SFsub prec emax;
  fmul  := SFmul prec emax;
  fdiv  := SFdiv prec emax;
  fneg  := SFopp;
  fsqrt := SFsqrt prec emax;
  flt   := SFltb;
  feq   := SFeqb
}.

(** *** Exact real arithmetic *)

Definition Rltb (a b : R) : bool := if Rlt_dec a b then true else false.
Definition Reqb (a b : R) : bool := if Req_dec_T a b then true else false.

#[export] Instance exact : Arith R := {
  of_Z  := IZR;
  fadd  := Rplus;
  fsub  := Rminus;
  fmul  := Rmult;
  fdiv  := Rdiv;
  fneg  := Ropp;
  fsqrt := sqrt;
  flt   := Rltb;
  feq   := Reqb
}.

(** ** class Vector3 *)

Module Vector3.
Section WithArith.
Context {num : Type} `{Arith num}.
Local Open Scope arith_scope.

Record t : Type := mk { x : num; y : num; z : num }.

(** [Vector3()] : the members are set to [0.0f]. *)
Definition default : t := mk (of_Z 0) (of_Z 0) (of_Z 0).

(** [operator+(v1, v2)] *)
Definition op_add (v1 v2 : t) : t :=
  let x' := x v1 + x v2 in
  let y' := y v1 + y v2 in
  let z' := z v1 + z v2 in
  mk x' y' z'.

(** [operator*(scalar, v1)] *)
Definition op_scale (scalar : num) (v1 : t) : t :=
  let x' := scalar * x v1 in
  let y' := scalar * y v1 in
  let z' := scalar * z v1 in
  mk x' y' z'.

(** [operator-(v1, v2)] : [v1 + (-1 * v2)]. *)
Definition op_sub (v1 v2 : t) : t :=
  op_add v1 (op_scale (of_Z (-1)) v2).

(** [operator*(v1, v2)] : the dot product. *)
Definition op_dot (v1 v2 : t) : num :=
  x v1 * x v2 + y v1 * y v2 + z v1 * z v2.

(** [static double epsilon = 0.005]: the literal denotes the [double]
    nearest to 5/1000, which is the correctly rounded quotient of the two
    integers. *)
Definition epsilon : num := of_Z 5 / of_Z 1000.

(** [operator==(v1, v2)] *)
Definition op_eq (v1 v2 : t) : bool :=
  let diff := op_sub v1 v2 in
  let bx := (x diff <? epsilon) && (x diff >? - epsilon) in
  let by_ := (y diff <? epsilon) && (y diff >? - epsilon) in
  let bz := (z diff <? epsilon) && (z diff >? - epsilon) in
  bx && by_ && bz.

(** [operator std::string()], over the conversion [std::to_string]. *)
Definition to_std_string (to_string : num -> string) (v : t) : string :=
  ("(" ++ to_string (x v) ++ ", " ++ to_string (y v) ++ ", "
       ++ to_string (z v) ++ ")")%string.

(** [Vector3::cross(v1, v2)] *)
Definition cross (v1 v2 : t) : t :=
  let x' := y v1 * z v2 - z v1 * y v2 in
  let y' := z v1 * x v2 - x v1 * z v2 in
  let z' := x v1 * y v2 - y v1 * x v2 in
  mk x' y' z'.

(** [norm()] *)
Definition norm (v : t) : num :=
  fsqrt (x v * x v + y v * y v + z v * z v).

(** [normalize()] mutates the receiver; the embedding returns the
    receiver's new value. *)
Definition normalize (v : t) : t :=
  let n := norm v in
  if n == of_Z 0 then v
  else
    let x' := x v / n in
    let y' := y v / n in
    let z' := z v / n in
    mk x' y' z'.

End WithArith.
Arguments t num : clear implicits.
Arguments mk {num} x y z.
End Vector3.

(** ** class Line *)

Module Line.
Section WithArith.
Context {num : Type} `{Arith num}.

(** [Line(d, p)] *)
Record t : Type := mk { d : Vector3.t num; p : Vector3.t num }.

(** [Line::getLine(p1, p2)] *)
Definition getLine (p1 p2 : Vector3.t num) : t :=
  mk (Vector3.op_sub p2 p1) p1.

End WithArith.
Arguments t num : clear implicits.
Arguments mk {num} d p.
End Line.

(** ** class Plane *)

Module Plane.
Section WithArith.
Context {num : Type} `{Arith num}.
Local Open Scope arith_scope.

(** [Plane(d1, d2, p)] *)
Record t : Type := mk { d1 : Vector3.t num; d2 : Vector3.t num; p : Vector3.t num }.

(** [Plane()] *)
Definition default : t :=
  mk (Vector3.mk (of_Z 1) (of_Z 0) (of_Z 0))
     (Vector3.mk (of_Z 0) (of_Z 1) (of_Z 0))
     (Vector3.mk (of_Z 0) (of_Z 0) (of_Z 0)).

(** The first spanning vector [a] that [getTangentPlane] settles on
    before it computes [b]. *)
Definition tangentSeed (line : Line.t num) : Vector3.t num :=
  let a := Vector3.mk (of_Z 0) (of_Z 1) (of_Z 0) in
  if Vector3.z (Line.d line) == of_Z 0
  then Vector3.mk (of_Z 0) (of_Z 0) (of_Z 1)
  else Vector3.mk (Vector3.x a) (Vector3.y a)
                  (- Vector3.y (Line.d line) / Vector3.z (Line.d line)).

(** [Plane::getTangentPlane(line)] *)
Definition getTangentPlane (line : Line.t num) : t :=
  let a := tangentSeed line in
  let b := Vector3.cross a (Line.d line) in
  mk a b (Line.p line).

(** [norm()] : a normal vector of the plane. *)
Definition norm (pl : t) : Vector3.t num :=
  Vector3.cross (d1 pl) (d2 pl).

(** The two scalars of [lineIntersection]. *)
Definition numerator (pl : t) (line : Line.t num) : num :=
  let n := norm pl in
  Vector3.op_dot n (Line.p line)
    - Vector3.x n * Vector3.x (Line.p line)
    - Vector3.y n * Vector3.y (Line.p line)
    - Vector3.z n * Vector3.z (Line.p line).

Definition denominator (pl : t) (line : Line.t num) : num :=
  let n := norm pl in
  Vector3.x n * Vector3.x (Line.d line)
    + Vector3.y n * Vector3.y (Line.d line)
    + Vector3.z n * Vector3.z (Line.d line).

(** [lineIntersection(line)] *)
Definition lineIntersection (pl : t) (line : Line.t num) : Vector3.t num :=
  if denominator pl line == of_Z 0 then Vector3.default
  else
    let t := numerator pl line / denominator pl line in
    Vector3.op_add (Line.p line) (Vector3.op_scale t (Line.d line)).

End WithArith.
Arguments t num : clear implicits.
Arguments mk {num} d1 d2 p.
End Plane.

(** ** class Tri *)

Module Tri.
Section WithArith.
Context {num : Type} `{Arith num}.

(** [Vector3 p[3]], filled by [Tri(p1, p2, p3)]. *)
Record t : Type := mk { p0 : Vector3.t num; p1 : Vector3.t num; p2 : Vector3.t num }.

(** [norm()] : the surface normal. *)
Definition norm (tri : t) : Vector3.t num :=
  let d1 := Vector3.op_sub (p1 tri) (p0 tri) in
  let d2 := Vector3.op_sub (p2 tri) (p0 tri) in
  let norm := Vector3.cross d1 d2 in
  Vector3.normalize norm.

End WithArith.
Arguments t num : clear implicits.
Arguments mk {num} p0 p1 p2.
End Tri.

(** ** class Object *)

Module Object.
Section WithArith.
Context {num : Type} `{Arith num}.

Record t : Type :=
  mk { position : Vector3.t num; rotation : Vector3.t num; tris : list (Tri.t num) }.

(** [Object()] : the members are default-constructed. *)
Definition default : t := mk Vector3.default Vector3.default [].

(** [Object(tris)] : the members are default-constructed, then [tris] is
    assigned. *)
Definition of_tris (ts : list (Tri.t num)) : t :=
  let o := default in
  mk (position o) (rotation o) ts.

End WithArith.
Arguments t num : clear implicits.
Arguments mk {num} position rotation tris.
End Object.

(** ** [std::to_string(double)]

    The conversion is not part of the header; it is the one of the C++
    standard library ([string.conversions], C++11 to C++23): the characters
    [sprintf] produces with the format ["%f"], that is fixed notation with
    six digits after the decimal point, the exact value being rounded to the
    nearest such decimal, ties to even.  An infinity is written ["inf"] and
    a NaN ["nan"], each after a minus sign when the sign bit is set; for a
    NaN the standard leaves the style to the C library, and this is the
    one of the GNU library.  [spec_float] keeps no sign for a NaN, so the
    conversion takes the sign bit of a NaN as a separate argument. *)

(** [n / d] rounded to the nearest integer, ties to even. *)
Definition round_half_even (n d : N) : N :=
  let q := N.div n d in
  let r := N.modulo n d in
  match N.compare (2 * r) d with
  | Lt => q
  | Gt => q + 1
  | Eq => if N.even q then q else q + 1
  end%N.

(** The magnitude [m * 2^e] in units of [10^-6], rounded. *)
Definition micro (m : positive) (e : Z) : N :=
  match e with
  | Zneg k => round_half_even (Npos m * 10 ^ 6) (2 ^ Npos k)
  | _ => Npos m * 10 ^ 6 * 2 ^ Z.to_N e
  end%N.

Definition digit (n : N) : ascii := ascii_of_N (48 + n mod 10).

(** The six digits after the point. *)
Definition fraction6 (n : N) : string :=
  String (digit (n / 100000)) (String (digit (n / 10000))
  (String (digit (n / 1000)) (String (digit (n / 100))
  (String (digit (n / 10)) (String (digit n) EmptyString))))).

Definition integer_part (n : N) : string :=
  NilZero.string_of_uint (N.to_uint (n / 10 ^ 6)).

Definition fixed6 (n : N) : string :=
  (integer_part n ++ "." ++ fraction6 n)%string.

Definition sign_string (s : bool) : string :=
  if s then "-"%string else EmptyString.

(** [nan_sign] is the sign bit of [v] when [v] is a NaN; it is not read
    otherwise. *)
Definition std_to_string (nan_sign : bool) (v : spec_float) : string :=
  match v with
  | S754_zero s => sign_string s ++ fixed6 0
  | S754_infinity s => sign_string s ++ "inf"
  | S754_nan => sign_string nan_sign ++ "nan"
  | S754_finite s m e => sign_string s ++ fixed6 (micro m e)
  end%string.

(** [operator std::string()] of a vector of doubles; [nan_sign] holds the
    sign bits of the components that are NaN. *)
Definition toString (nan_sign : Vector3.t bool) (v : Vector3.t spec_float) : string :=
  Vector3.to_std_string
    (fun c : bool * spec_float => std_to_string (fst c) (snd c))
    (Vector3.mk (Vector3.x nan_sign, Vector3.x v) (Vector3.y nan_sign, Vector3.y v)
                (Vector3.z nan_sign, Vector3.z v)).

(** ** [std::ostream]

    What the insertion of a string reads and changes in an output stream:
    whether the stream is good, the field width, the fill character,
    whether the adjustment is to the left, and the characters handed to
    the stream buffer so far.  The stream buffer is taken to accept every
    character, and the exception mask of the stream to be empty, as it is
    by default. *)

Module Ostream.

Record t : Type := mk {
  good : bool;
  width : Z;
  fill : ascii;
  left : bool;
  written : string
}.

Fixpoint padding (n : nat) (c : ascii) : string :=
  match n with
  | O => EmptyString
  | S n' => String c (padding n' c)
  end.

(** [out << s] for a [std::string], a formatted output function
    ([string.io], [ostream.formatted.reqmts]): a stream that is not good
    receives nothing; otherwise the characters of [s] are inserted, with
    fill characters up to the field width after them if the adjustment is
    to the left and before them otherwise, and the width is set to 0. *)
Definition insert (out : t) (s : string) : t :=
  if good out then
    let pad := padding (Z.to_nat (width out - Z.of_nat (String.length s))) (fill out) in
    let seq := if left out then (s ++ pad)%string else (pad ++ s)%string in
    mk true 0 (fill out) (left out) (written out ++ seq)%string
  else out.

End Ostream.

(** [operator<<(out, v)] *)
Definition op_shl (out : Ostream.t) (nan_sign : Vector3.t bool)
    (v : Vector3.t spec_float) : Ostream.t :=
  Ostream.insert out
    ("(" ++ std_to_string (Vector3.x nan_sign) (Vector3.x v) ++ ", "
         ++ std_to_string (Vector3.y nan_sign) (Vector3.y v) ++ ", "
         ++ std_to_string (Vector3.z nan_sign) (Vector3.z v) ++ ")")%string.

(** The shape of a number in fixed notation with six decimals: an optional
    minus sign, at least one digit, a point, six digits. *)
Definition is_digit (c : ascii) : bool :=
  (48 <=? N_of_ascii c)%N && (N_of_ascii c <=? 57)%N.

Fixpoint all_digits (s : string) : bool :=
  match s with
  | EmptyString => true
  | String c s' => is_digit c && all_digits s'
  end.

Definition six_decimals (s : string) : Prop :=
  exists (sgn int frac : string),
    s = (sgn ++ int ++ "." ++ frac)%string /\
    (sgn = EmptyString \/ sgn = "-"%string) /\
    int <> EmptyString /\ all_digits int = true /\
    String.length frac = 6%nat /\ all_digits frac = true.

(** ** Doubles and their values *)

(** The [spec_float] values that are bit patterns of a [double]. *)
Definition is_double (v : spec_float) : Prop := valid_binary prec emax v = true.

Definition is_double3 (v : Vector3.t spec_float) : Prop :=
  is_double (Vector3.x v) /\ is_double (Vector3.y v) /\ is_double (Vector3.z v).

(** Zero or a finite nonzero number: neither an infinity nor a NaN. *)
Definition is_finite (v : spec_float) : bool :=
  match v with
  | S754_zero _ | S754_finite _ _ _ => true
  | _ => false
  end.

Definition is_finite3 (v : Vector3.t spec_float) : Prop :=
  is_finite (Vector3.x v) = true /\ is_finite (Vector3.y v) = true /\
  is_finite (Vector3.z v) = true.

Definition is_nan (v : spec_float) : bool :=
  match v with S754_nan => true | _ => false end.

Definition is_zero (v : spec_float) : bool :=
  match v with S754_zero _ => true | _ => false end.

(** A vector of zeros, of any signs. *)
Definition is_zero3 (v : Vector3.t spec_float) : Prop :=
  is_zero (Vector3.x v) = true /\ is_zero (Vector3.y v) = true /\
  is_zero (Vector3.z v) = true.

(** Equal bit patterns, or two zeros of any sign. *)
Definition same_number (a b : spec_float) : Prop :=
  a = b \/ (is_zero a = true /\ is_zero b = true).

(** The real number a finite double stands for: [m * 2^e], signed. *)
Definition SF2R (v : spec_float) : R :=
  match v with
  | S754_finite s m e =>
      match e with
      | Zneg k => IZR (cond_Zopp s (Zpos m)) / IZR (2 ^ Zpos k)
      | _ => IZR (cond_Zopp s (Zpos m) * 2 ^ e)
      end
  | _ => 0
  end%R.

Definition value3 (v : Vector3.t spec_float) : Vector3.t R :=
  Vector3.mk (SF2R (Vector3.x v)) (SF2R (Vector3.y v)) (SF2R (Vector3.z v)).

(** A double written as a decimal fraction [a / b], both integers being
    doubles themselves: the quotient is correctly rounded, as a literal
    is. *)
Definition decimal (a b : Z) : spec_float := fdiv (of_Z a) (of_Z b).

Definition vec (a b c : Z) : Vector3.t spec_float :=
  Vector3.mk (of_Z a) (of_Z b) (of_Z c).

Definition vecR (a b c : R) : Vector3.t R := Vector3.mk a b c.

(** ** Rounding errors of binary64

    The vocabulary of the error analysis of [norm] and [normalize] on
    doubles: powers of two, doubles in the normal range, relative
    approximation. *)

Section ErrorVocabulary.
Local Open Scope R_scope.

Definition pow2 (e : Z) : R := powerRZ 2 e.

(** A finite nonzero double in the normal range: 53 significant bits and an
    exponent within bounds. *)
Definition normal64 (x : spec_float) : Prop :=
  match x with
  | S754_finite _ m e => Zpos (digits2_pos m) = 53%Z /\ (-1074 <= e <= 971)%Z
  | _ => False
  end.

Definition sign_of (x : spec_float) : bool :=
  match x with
  | S754_zero s | S754_infinity s | S754_finite s _ _ => s
  | S754_nan => false
  end.

(** The relative error bound of one rounding that the analysis uses,
    [2^-52], and a decimal bound above it. *)
Definition unit_roundoff : R := pow2 (-52).

Definition round_err : R := 1 / 1000000000000000.

(** [a] approximates [A] with relative error at most [k]. *)
Definition near (k a A : R) : Prop := (1 - k) * A <= a <= (1 + k) * A.

(** A signed zero, or a normal double of magnitude between [2^lo] and
    [2^hi]. *)
Definition zero_or_normal (lo hi : Z) (c : spec_float) : Prop :=
  is_zero c = true \/ (normal64 c /\ pow2 lo <= Rabs (SF2R c) <= pow2 hi).

(** [+0], or a positive normal double. *)
Definition nonneg_normal (a : spec_float) : Prop :=
  a = S754_zero false \/ (normal64 a /\ sign_of a = false).

(** A double that is zero or of magnitude between [2^-200] and [2^200]. *)
Definition moderate (c : spec_float) : Prop :=
  is_double c /\ is_finite c = true /\
  (SF2R c = 0 \/ pow2 (-200) <= Rabs (SF2R c) <= pow2 200).

End ErrorVocabulary.

(** ** The box test, in the words of the specification

    The differences of two vectors along the three axes, each required to
    lie strictly between [-epsilon] and [epsilon]. *)

Section BoxTest.
Context {num : Type} `{Arith num}.
Local Open Scope arith_scope.

Definition axis_differences (a b : Vector3.t num) : list num :=
  [Vector3.x a - Vector3.x b; Vector3.y a - Vector3.y b; Vector3.z a - Vector3.z b].

Definition strictly_inside (c : num) : Prop :=
  (- Vector3.epsilon <? c) = true /\ (c <? Vector3.epsilon) = true.

Definition in_box (a b : Vector3.t num) : Prop :=
  Forall strictly_inside (axis_differences a b).

Definition some_axis_differs_by (e : num) (a b : Vector3.t num) : Prop :=
  Exists (fun c => c = e \/ c = - e) (axis_differences a b).

Definition every_axis_differs_by (e : num) (a b : Vector3.t num) : Prop :=
  Forall (fun c => c = e \/ c = - e) (axis_differences a b).

(** Half of the tolerance, the literal [0.0025]. *)
Definition half_epsilon : num := of_Z 25 / of_Z 10000.

End BoxTest.

(** ** Collinear vertices, in the words of the specification

    Three points of real space are collinear when the second and the third
    lie on one line through the first. *)
Definition collinear (p0 p1 p2 : Vector3.t R) : Prop :=
  exists (u : Vector3.t R) (s t : R),
    p1 = Vector3.op_add p0 (Vector3.op_scale s u) /\
    p2 = Vector3.op_add p0 (Vector3.op_scale t u).

(** ** Inputs used below *)

(** A plane with normal [(0, -1, 1)] and a line through
    [(0, -1, 2^53)] along the z axis. *)
Definition plane_skew : Plane.t spec_float :=
  Plane.mk (vec 1 0 0) (vec 0 1 1) (vec 0 0 0).

Definition line_big_anchor : Line.t spec_float :=
  Line.mk (vec 0 0 1) (vec 0 (-1) (2 ^ 53)).

(** A line along the x axis through [(0, 0, 5)]. *)
Definition line_along_x : Line.t spec_float :=
  Line.mk (vec 1 0 0) (vec 0 0 5).

(** A vector whose first component is the double nearest to [10^200]. *)
Definition v_huge : Vector3.t spec_float := vec (10 ^ 200) 0 0.

(** A vector whose first component is [6078391946603017 * 2^-589], about
    [3 * 10^-162]. *)
Definition v_tiny : Vector3.t spec_float :=
  Vector3.mk (S754_finite false 6078391946603017 (-589)) (of_Z 0) (of_Z 0).

(** A line along [(0, 2^60, 49 * 2^60)] and one along
    [(7 * 2^60, 2^120, 3 * 2^120)], both through the origin. *)
Definition line_49 : Line.t spec_float :=
  Line.mk (vec 0 (2 ^ 60) (49 * 2 ^ 60)) (vec 0 0 0).

Definition line_713 : Line.t spec_float :=
  Line.mk (vec (7 * 2 ^ 60) (2 ^ 120) (3 * 2 ^ 120)) (vec 0 0 0).

(** A line along [(0, 2^600, 2^-600)] through the origin. *)
Definition line_steep : Line.t spec_float :=
  Line.mk (Vector3.mk (of_Z 0) (of_Z (2 ^ 600)) (decimal 1 (2 ^ 600))) (vec 0 0 0).

(** The triangle with vertices [(0,0,0)], [(1,0,0)], [(0,1,0)], and a
    triangle whose vertices [(-1, -3, 0)], [(2^-53, 3 * 2^-53, 0)],
    [(1, 3, 0)] all lie on the line [y = 3 x], [z = 0]. *)
Definition tri_unit : Tri.t spec_float :=
  Tri.mk (vec 0 0 0) (vec 1 0 0) (vec 0 1 0).

Definition tri_unitR : Tri.t R :=
  Tri.mk (vecR 0 0 0) (vecR 1 0 0) (vecR 0 1 0).

Definition tri_on_line : Tri.t spec_float :=
  Tri.mk (vec (-1) (-3) 0)
         (Vector3.mk (decimal 1 (2 ^ 53)) (decimal 3 (2 ^ 53)) (of_Z 0))
         (vec 1 3 0).

(** The vector [(0.0000001, 2.5, 1)]. *)
Definition v_small : Vector3.t spec_float :=
  Vector3.mk (decimal 1 10000000) (decimal 25 10) (of_Z 1).

(** ** Signs, zeros and NaN of vectors of doubles *)

(** [a] is [-b]; two zeros are opposite whatever their signs. *)
Definition opposite (a b : spec_float) : Prop := same_number a (SFopp b).

Definition opposite3 (u v : Vector3.t spec_float) : Prop :=
  opposite (Vector3.x u) (Vector3.x v) /\ opposite (Vector3.y u) (Vector3.y v) /\
  opposite (Vector3.z u) (Vector3.z v).

Definition same_number3 (u v : Vector3.t spec_float) : Prop :=
  same_number (Vector3.x u) (Vector3.x v) /\ same_number (Vector3.y u) (Vector3.y v) /\
  same_number (Vector3.z u) (Vector3.z v).

Definition has_nan3 (v : Vector3.t spec_float) : bool :=
  is_nan (Vector3.x v) || is_nan (Vector3.y v) || is_nan (Vector3.z v).

Definition all_nan3 (v : Vector3.t spec_float) : Prop :=
  Vector3.x v = S754_nan /\ Vector3.y v = S754_nan /\ Vector3.z v = S754_nan.

(** [+0], a positive finite number or [+infinity]. *)
Definition nonnegative (a : spec_float) : bool :=
  match a with
  | S754_zero false | S754_infinity false | S754_finite false _ _ => true
  | _ => false
  end.

(** Neither a NaN, nor of the sign [negb s]. *)
Definition signed (s : bool) (a : spec_float) : Prop :=
  is_nan a = false /\ sign_of a = s.

(** ** Magnitudes whose squares leave the range of doubles *)

(** The exponent [k] of a finite nonzero double: [2^(k-1) <= |c| < 2^k]. *)
Definition magnitude (c : spec_float) : Z :=
  match c with
  | S754_finite _ m e => Zpos (digits2_pos m) + e
  | _ => 0
  end.

(** A zero, or a finite double below [2^-538] in magnitude: its square is
    below a quarter of the least positive double. *)
Definition tiny (c : spec_float) : bool :=
  match c with
  | S754_zero _ => true
  | S754_finite _ _ _ => (magnitude c <=? -538)%Z
  | _ => false
  end.

(** A finite double of magnitude [2^512] or more: its square is [2^1024] or
    more. *)
Definition huge (c : spec_float) : bool :=
  match c with
  | S754_finite _ _ _ => (513 <=? magnitude c)%Z
  | _ => false
  end.

Definition tiny3 (v : Vector3.t spec_float) : Prop :=
  tiny (Vector3.x v) = true /\ tiny (Vector3.y v) = true /\ tiny (Vector3.z v) = true.

(** ** The tolerance of [operator==] and real distances *)

(** The test [operator==] applies to the difference along one axis. *)
Definition within_tolerance (d : spec_float) : bool :=
  (flt d Vector3.epsilon) && (fgt d (fneg Vector3.epsilon)).

(** The distances of two vectors of doubles along the three axes, as real
    numbers. *)
Definition axis_distances (a b : Vector3.t spec_float) : list R :=
  [Rabs (SF2R (Vector3.x a) - SF2R (Vector3.x b));
   Rabs (SF2R (Vector3.y a) - SF2R (Vector3.y b));
   Rabs (SF2R (Vector3.z a) - SF2R (Vector3.z b))]%R.

(** The value of [epsilon]. *)
Definition tolerance : R := SF2R Vector3.epsilon.

(** ** The number written by [std::to_string] *)

(** The number a string of decimal digits stands for. *)
Definition digit_value (c : ascii) : N := (N_of_ascii c - 48)%N.

Fixpoint read_digits_from (acc : N) (s : string) : N :=
  match s with
  | EmptyString => acc
  | String c s' => read_digits_from (10 * acc + digit_value c) s'
  end.

Definition read_digits (s : string) : N := read_digits_from 0 s.

(** No zero before the first digit, unless it is the only digit. *)
Definition no_leading_zero (s : string) : bool :=
  match s with
  | String c (String _ _) => negb (Ascii.eqb c "0")
  | _ => true
  end.

(** [n] is the integer nearest to [x], the even one if two are equally
    near. *)
Definition nearest_even (n : N) (x : R) : Prop :=
  (Rabs (IZR (Z.of_N n) - x) <= 1 / 2)%R /\
  (Rabs (IZR (Z.of_N n) - x) = 1 / 2 -> N.even n = true)%R.

(** Fixed notation with six decimals, in the words of the conversion
    [%f]: a minus sign if the sign bit is set, the digits of the integer
    part without leading zeros, a point and six digits, the digits being
    those of the multiple of [10^-6] nearest to the magnitude of [c]. *)
Definition fixed_notation (c : spec_float) (text : string) : Prop :=
  exists int frac : string,
    text = (sign_string (sign_of c) ++ int ++ "." ++ frac)%string /\
    int <> EmptyString /\ all_digits int = true /\ no_leading_zero int = true /\
    String.length frac = 6%nat /\ all_digits frac = true /\
    nearest_even (read_digits (int ++ frac)) (Rabs (SF2R c) * 1000000).

(** Sign bits of NaN components, all clear, and an output stream in its
    initial state. *)
Definition clear_signs : Vector3.t bool := Vector3.mk false false false.

Definition fresh_stream : Ostream.t := Ostream.mk true 0 " " false EmptyString.

(** ** Characters of a converted number *)

(** The character [c] does not occur in [s]. *)
Fixpoint free_of (c : ascii) (s : string) : bool :=
  match s with
  | EmptyString => true
  | String c' s' => negb (Ascii.eqb c' c) && free_of c s'
  end.

(** A character that is no digit and none of [- . i n f a], the
    characters [std::to_string] writes. *)
Definition separator (c : ascii) : Prop :=
  is_digit c = false /\ free_of c "-.infa"%string = true.

(** * Properties *)

(** ** Comparisons of the exact instance *)

Lemma Rltb_true (a b : R) : Rltb a b = true <-> (a < b)%R.
Proof.
  unfold Rltb; destruct (Rlt_dec a b); split; intros; try easy.
Qed.

Lemma Reqb_true (a b : R) : Reqb a b = true <-> a = b.
Proof.
  unfold Reqb; destruct (Req_dec_T a b); split; intros; try easy.
Qed.

Lemma Reqb_false (a b : R) : Reqb a b = false <-> a <> b.
Proof.
  unfold Reqb; destruct (Req_dec_T a b); split; intros; try easy.
Qed.

Lemma Reqb_refl (a : R) : Reqb a a = true.
Proof. now apply Reqb_true. Qed.

(** ** Signed zeros of binary64 *)

Lemma same_number_refl (a : spec_float) : same_number a a.
Proof. now left. Qed.

Lemma add_zero_same (a : spec_float) (s : bool) :
  same_number (SFadd prec emax a (S754_zero s)) a.
Proof.
  destruct a as [sa | sa | | sa m e]; simpl.
  - destruct sa, s; simpl; (now left) || (right; now split).
  - now left.
  - now left.
  - now left.
Qed.

Lemma mul_zero_finite (s : bool) (a : spec_float) :
  is_finite a = true -> exists s', SFmul prec emax (S754_zero s) a = S754_zero s'.
Proof.
  destruct a as [sa | sa | | sa m e]; simpl; intros Hf; try discriminate;
    eexists; reflexivity.
Qed.

Lemma div_zero_nonzero (s : bool) (a : spec_float) :
  SFeqb a (S754_zero false) = false -> is_nan a = false ->
  exists s', SFdiv prec emax (S754_zero s) a = S754_zero s'.
Proof.
  destruct a as [sa | sa | | sa m e]; simpl; intros Hz Hn; try discriminate;
    eexists; reflexivity.
Qed.

Lemma zero_literal : of_Z (Arith := binary64) 0 = S754_zero false.
Proof. reflexivity. Qed.

(** Multiplying a double by [1] or [-1] changes its sign at most. *)
Lemma digits_shift52 (m : positive) :
  Zpos (digits2_pos (Pos.mul 4503599627370496 m)) = (Zpos (digits2_pos m) + 52)%Z.
Proof. cbn [Pos.mul digits2_pos]. lia. Qed.

Lemma shr_shift52 (m : positive) :
  SpecFloat.iter_pos shr_1 52
    {| shr_m := Zpos (Pos.mul 4503599627370496 m); shr_r := false; shr_s := false |}
  = {| shr_m := Zpos m; shr_r := false; shr_s := false |}.
Proof. reflexivity. Qed.

Lemma mul_unit (s : bool) (b : spec_float) :
  is_double b ->
  SFmul prec emax (S754_finite s 4503599627370496 (-52)) b
  = if s then SFopp b else b.
Proof.
  destruct b as [sb | sb | | sb m e]; try (destruct s; reflexivity).
  unfold is_double, valid_binary, bounded, canonical_mantissa. intros Hb.
  apply andb_prop in Hb. destruct Hb as [Hc He].
  apply Z.eqb_eq in Hc. apply Z.leb_le in He.
  unfold SFmul, binary_round_aux, shr_fexp.
  unfold Zdigits2 at 1. rewrite digits_shift52.
  replace (fexp prec emax (Z.pos (digits2_pos m) + 52 + (-52 + e)) - (-52 + e))%Z
    with 52%Z.
  2:{ replace (Z.pos (digits2_pos m) + 52 + (-52 + e))%Z
        with (Z.pos (digits2_pos m) + e)%Z by lia.
      rewrite Hc. lia. }
  unfold shr at 1. cbn [shr_record_of_loc]. rewrite shr_shift52.
  cbn [shr_m loc_of_shr_record round_nearest_even Zdigits2].
  replace (-52 + e + 52)%Z with e by lia.
  rewrite Hc. rewrite Z.sub_diag. cbn [shr shr_record_of_loc shr_m].
  apply Z.leb_le in He. rewrite He. destruct s; reflexivity.
Qed.

Lemma mul_minus_one (b : spec_float) :
  is_double b -> SFmul prec emax (of_Z (-1)) b = SFopp b.
Proof. exact (mul_unit true b). Qed.

(** Adding the opposite is subtracting. *)
Lemma add_opp_sub (a b : spec_float) :
  SFadd prec emax a (SFopp b) = SFsub prec emax a b.
Proof.
  destruct a as [sa | sa | | sa ma ea], b as [sb | sb | | sb mb eb];
    try reflexivity; destruct sa, sb; reflexivity.
Qed.

(** The sign of a product; products commute; a finite number and its
    opposite add up to a zero. *)
Lemma round_aux_opp (s : bool) (m e : Z) (l : location) :
  binary_round_aux prec emax (negb s) m e l
  = SFopp (binary_round_aux prec emax s m e l).
Proof.
  unfold binary_round_aux.
  destruct (shr_fexp prec emax m e l) as [mrs' e'].
  destruct (shr_fexp prec emax _ e' loc_Exact) as [mrs'' e''].
  destruct (shr_m mrs''); try reflexivity.
  destruct (e'' <=? emax - prec)%Z; reflexivity.
Qed.

Lemma mul_opp_l (a b : spec_float) :
  SFmul prec emax (SFopp a) b = SFopp (SFmul prec emax a b).
Proof.
  destruct a as [sa | sa | | sa ma ea], b as [sb | sb | | sb mb eb];
    cbn [SFmul SFopp]; try reflexivity;
    try (destruct sa, sb; reflexivity).
  rewrite <- round_aux_opp. destruct sa, sb; reflexivity.
Qed.

Lemma SFmul_comm (a b : spec_float) :
  SFmul prec emax a b = SFmul prec emax b a.
Proof.
  destruct a as [sa | sa | | sa ma ea], b as [sb | sb | | sb mb eb];
    cbn [SFmul]; try reflexivity; try (destruct sa, sb; reflexivity).
  rewrite Pos.mul_comm, Z.add_comm, xorb_comm. reflexivity.
Qed.

Lemma add_opp_self (w : spec_float) :
  is_finite w = true -> is_zero (SFadd prec emax (SFopp w) w) = true.
Proof.
  destruct w as [s | s | | s m e]; try discriminate; intros _.
  - destruct s; reflexivity.
  - cbn [SFopp SFadd].
    replace (cond_Zopp (negb s) (Z.pos (fst (shl_align m e (Z.min e e))))
             + cond_Zopp s (Z.pos (fst (shl_align m e (Z.min e e)))))%Z with 0%Z.
    + reflexivity.
    + destruct s; cbn [negb cond_Zopp]; lia.
Qed.

(** Evaluate the doubles and the integers inside a goal about their real
    values. *)
Ltac real_values :=
  unfold value3;
  repeat match goal with
  | |- context [SF2R ?v] =>
      progress (let w := eval vm_compute in v in change (SF2R v) with (SF2R w));
      cbn [SF2R]
  end;
  repeat match goal with
  | |- context [IZR ?n] =>
      progress (let w := eval vm_compute in n in change (IZR n) with (IZR w))
  end.

(** Show the IEEE operations behind the interface. *)
Ltac ieee :=
  change (@fadd spec_float binary64) with (SFadd prec emax) in *;
  change (@fsub spec_float binary64) with (SFsub prec emax) in *;
  change (@fmul spec_float binary64) with (SFmul prec emax) in *;
  change (@fdiv spec_float binary64) with (SFdiv prec emax) in *;
  change (@fsqrt spec_float binary64) with (SFsqrt prec emax) in *;
  change (@fneg spec_float binary64) with SFopp in *;
  change (@flt spec_float binary64) with SFltb in *;
  change (@feq spec_float binary64) with SFeqb in *.

(** Show the real operations behind the interface. *)
Ltac reals :=
  change (@fadd R exact) with Rplus in *;
  change (@fsub R exact) with Rminus in *;
  change (@fmul R exact) with Rmult in *;
  change (@fdiv R exact) with Rdiv in *;
  change (@fsqrt R exact) with sqrt in *;
  change (@fneg R exact) with Ropp in *;
  change (@flt R exact) with Rltb in *;
  change (@feq R exact) with Reqb in *;
  change (@of_Z R exact) with IZR in *.

(** ** [Plane::lineIntersection] *)

Lemma denominator_is_dot {num} `{Arith num} (pl : Plane.t num) (line : Line.t num) :
  Plane.denominator pl line = Vector3.op_dot (Plane.norm pl) (Line.d line).
Proof. reflexivity. Qed.

Lemma numerator_exact (pl : Plane.t R) (line : Line.t R) :
  Plane.numerator pl line = 0%R.
Proof.
  unfold Plane.numerator, Vector3.op_dot; simpl. ring.
Qed.

Lemma lineIntersection_exact (pl : Plane.t R) (line : Line.t R) :
  Vector3.op_dot (Plane.norm pl) (Line.d line) <> 0%R ->
  Plane.lineIntersection pl line = Line.p line.
Proof.
  intros Hd. unfold Plane.lineIntersection.
  rewrite denominator_is_dot.
  reals. apply Reqb_false in Hd. rewrite Hd.
  rewrite numerator_exact.
  destruct line as [d [px py pz]]; destruct d as [dx dy dz].
  unfold Vector3.op_add, Vector3.op_scale; simpl in *.
  f_equal; unfold Rdiv; ring.
Qed.

Lemma lineIntersection_ignores_anchor {num} `{Arith num}
    (d1 d2 p p' : Vector3.t num) (line : Line.t num) :
  Plane.lineIntersection (Plane.mk d1 d2 p) line
  = Plane.lineIntersection (Plane.mk d1 d2 p') line.
Proof. reflexivity. Qed.

Lemma lineIntersection_binary64_zero_numerator
    (pl : Plane.t spec_float) (line : Line.t spec_float) :
  is_zero (Plane.numerator pl line) = true ->
  feq (Plane.denominator pl line) (of_Z 0) = false ->
  is_nan (Plane.denominator pl line) = false ->
  is_finite (Vector3.x (Line.d line)) = true ->
  is_finite (Vector3.y (Line.d line)) = true ->
  is_finite (Vector3.z (Line.d line)) = true ->
  let r := Plane.lineIntersection pl line in
  same_number (Vector3.x r) (Vector3.x (Line.p line)) /\
  same_number (Vector3.y r) (Vector3.y (Line.p line)) /\
  same_number (Vector3.z r) (Vector3.z (Line.p line)).
Proof.
  intros Hn Hd Hnan Hx Hy Hz. unfold Plane.lineIntersection.
  rewrite Hd.
  destruct (Plane.numerator pl line) as [s | | | ]; try discriminate.
  destruct (div_zero_nonzero s _ Hd Hnan) as [s' Ht].
  ieee. rewrite Ht.
  destruct (mul_zero_finite s' _ Hx) as [sx Ex].
  destruct (mul_zero_finite s' _ Hy) as [sy Ey].
  destruct (mul_zero_finite s' _ Hz) as [sz Ez].
  unfold Vector3.op_add, Vector3.op_scale; cbn [Vector3.x Vector3.y Vector3.z].
  ieee. rewrite Ex, Ey, Ez. repeat split; apply add_zero_same.
Qed.

(** C1, as the code has it.  In exact real arithmetic the numerator of
    [lineIntersection] is zero and, when the denominator is not zero, the
    function returns the anchor [line.p].  In double arithmetic the
    numerator is a rounded value: when it comes out as a zero, the
    denominator is neither zero nor NaN and the direction is finite, the
    result is [line.p] up to the sign of a zero component.  In every
    arithmetic the result does not depend on the anchor point of the
    plane. *)
Theorem C1_lineIntersection_returns_anchor :
  (forall (pl : Plane.t R) (line : Line.t R),
      Plane.numerator pl line = 0%R /\
      (Vector3.op_dot (Plane.norm pl) (Line.d line) <> 0%R ->
       Plane.lineIntersection pl line = Line.p line)) /\
  (forall (pl : Plane.t spec_float) (line : Line.t spec_float),
      is_zero (Plane.numerator pl line) = true ->
      feq (Vector3.op_dot (Plane.norm pl) (Line.d line)) (of_Z 0) = false ->
      is_nan (Vector3.op_dot (Plane.norm pl) (Line.d line)) = false ->
      is_finite (Vector3.x (Line.d line)) = true ->
      is_finite (Vector3.y (Line.d line)) = true ->
      is_finite (Vector3.z (Line.d line)) = true ->
      let r := Plane.lineIntersection pl line in
      same_number (Vector3.x r) (Vector3.x (Line.p line)) /\
      same_number (Vector3.y r) (Vector3.y (Line.p line)) /\
      same_number (Vector3.z r) (Vector3.z (Line.p line))) /\
  (forall num (A : Arith num) (d1 d2 p p' : Vector3.t num) (line : Line.t num),
      Plane.lineIntersection (Plane.mk d1 d2 p) line
      = Plane.lineIntersection (Plane.mk d1 d2 p') line).
Proof.
  split; [| split].
  - intros pl line; split.
    + apply numerator_exact.
    + apply lineIntersection_exact.
  - intros pl line. apply lineIntersection_binary64_zero_numerator.
  - intros. apply lineIntersection_ignores_anchor.
Qed.

(** The default plane and the line through [(0, 0, 5)] along [(0, 0, -1)]:
    the numerator is zero, the denominator is -1, and the code returns the
    anchor. *)
Lemma C1_witness :
  let line := Line.mk (vec 0 0 (-1)) (vec 0 0 5) in
  let r := Plane.lineIntersection Plane.default line in
  same_number (Vector3.x r) (Vector3.x (Line.p line)) /\
  same_number (Vector3.y r) (Vector3.y (Line.p line)) /\
  same_number (Vector3.z r) (Vector3.z (Line.p line)).
Proof.
  intros line.
  apply (proj1 (proj2 C1_lineIntersection_returns_anchor) Plane.default line);
    reflexivity.
Defined.

(** C1 as stated fails on doubles: for the plane with normal [(0, -1, 1)]
    and the line through [(0, -1, 2^53)] along [(0, 0, 1)] the dot product
    of normal and direction is 1, the numerator rounds to -1 and the
    code returns [(0, -1, 2^53 - 1)], which is not the anchor, not even up
    to the tolerance of [operator==]. *)
Lemma C1_counterexample :
  is_double3 (Line.p line_big_anchor) /\ is_double3 (Line.d line_big_anchor) /\
  feq (Vector3.op_dot (Plane.norm plane_skew) (Line.d line_big_anchor)) (of_Z 0) = false /\
  Plane.numerator plane_skew line_big_anchor = of_Z (-1) /\
  Plane.lineIntersection plane_skew line_big_anchor = vec 0 (-1) (2 ^ 53 - 1) /\
  Plane.lineIntersection plane_skew line_big_anchor <> Line.p line_big_anchor /\
  Vector3.op_eq (Plane.lineIntersection plane_skew line_big_anchor)
                (Line.p line_big_anchor) = false.
Proof.
  repeat split; try (vm_compute; reflexivity).
  vm_compute. discriminate.
Qed.

(** C2.  When the dot product of the plane's normal and the line's
    direction compares equal to zero, [lineIntersection] returns the
    default vector [(0, 0, 0)].  This is so in every arithmetic; in
    particular, in doubles and in reals, for a direction [(1, 0, 0)] and a
    normal [(0, 0, 1)]. *)
Theorem C2_parallel_returns_zero_vector :
  (forall num (A : Arith num) (pl : Plane.t num) (line : Line.t num),
      feq (Vector3.op_dot (Plane.norm pl) (Line.d line)) (of_Z 0) = true ->
      Plane.lineIntersection pl line = Vector3.mk (of_Z 0) (of_Z 0) (of_Z 0)) /\
  (forall (pl : Plane.t spec_float) (line : Line.t spec_float),
      Plane.norm pl = vec 0 0 1 -> Line.d line = vec 1 0 0 ->
      Plane.lineIntersection pl line = vec 0 0 0) /\
  (forall (pl : Plane.t R) (line : Line.t R),
      Plane.norm pl = vecR 0 0 1 -> Line.d line = vecR 1 0 0 ->
      Plane.lineIntersection pl line = vecR 0 0 0).
Proof.
  assert (Hgen : forall num (A : Arith num) (pl : Plane.t num) (line : Line.t num),
      feq (Vector3.op_dot (Plane.norm pl) (Line.d line)) (of_Z 0) = true ->
      Plane.lineIntersection pl line = Vector3.mk (of_Z 0) (of_Z 0) (of_Z 0)).
  { intros num A pl line Hz. unfold Plane.lineIntersection.
    rewrite denominator_is_dot, Hz. reflexivity. }
  split; [exact Hgen | split].
  - intros pl line Hn Hd. apply Hgen. rewrite Hn, Hd. reflexivity.
  - intros pl line Hn Hd. apply (Hgen R exact). rewrite Hn, Hd.
    apply Reqb_true. unfold Vector3.op_dot, vecR; simpl. ring.
Qed.

(** The default plane has normal [(0, 0, 1)]; the line along the x axis
    through [(0, 0, 5)] is parallel to it. *)
Lemma C2_witness :
  Plane.norm (num := spec_float) Plane.default = vec 0 0 1 /\
  Plane.lineIntersection Plane.default line_along_x = vec 0 0 0.
Proof.
  split.
  - reflexivity.
  - apply (proj1 C2_parallel_returns_zero_vector spec_float binary64
             Plane.default line_along_x).
    reflexivity.
Defined.

(** ** [operator-] and [operator==] *)

(** The tolerance: the quotient computed for [epsilon] is the double
    [5764607523034235 * 2^-60], less than half a unit in the last place,
    [2^-61], away from [5 / 1000]: it is the double the literal [0.005]
    denotes. *)
Lemma epsilon_binary64 :
  Vector3.epsilon = S754_finite false 5764607523034235 (-60) /\
  is_double Vector3.epsilon /\
  (Rabs (SF2R Vector3.epsilon - 5 / 1000) < / IZR (2 ^ 61))%R.
Proof.
  split; [reflexivity |]. split; [reflexivity |].
  real_values. apply Rabs_def1; lra.
Qed.

Lemma op_sub_binary64 (a b : Vector3.t spec_float) :
  is_double3 b ->
  Vector3.op_sub a b
  = Vector3.mk (SFsub prec emax (Vector3.x a) (Vector3.x b))
               (SFsub prec emax (Vector3.y a) (Vector3.y b))
               (SFsub prec emax (Vector3.z a) (Vector3.z b)).
Proof.
  intros (Hx & Hy & Hz).
  unfold Vector3.op_sub, Vector3.op_add, Vector3.op_scale.
  cbn [Vector3.x Vector3.y Vector3.z]. ieee.
  rewrite !mul_minus_one, !add_opp_sub by assumption. reflexivity.
Qed.

Lemma op_sub_exact (a b : Vector3.t R) :
  Vector3.op_sub a b
  = Vector3.mk (Vector3.x a - Vector3.x b)%R (Vector3.y a - Vector3.y b)%R
               (Vector3.z a - Vector3.z b)%R.
Proof.
  unfold Vector3.op_sub, Vector3.op_add, Vector3.op_scale.
  cbn [Vector3.x Vector3.y Vector3.z]. reals. f_equal; ring.
Qed.

Lemma op_eq_box {num} `{Arith num} (a b : Vector3.t num) :
  axis_differences a b
  = [Vector3.x (Vector3.op_sub a b); Vector3.y (Vector3.op_sub a b);
     Vector3.z (Vector3.op_sub a b)] ->
  Vector3.op_eq a b = true <-> in_box a b.
Proof.
  intros Hd. unfold in_box, Vector3.op_eq. rewrite Hd.
  set (diff := Vector3.op_sub a b). unfold strictly_inside, fgt. split.
  - intros Ht.
    apply andb_prop in Ht; destruct Ht as [Ht Hz].
    apply andb_prop in Ht; destruct Ht as [Hx Hy].
    apply andb_prop in Hx, Hy, Hz.
    repeat (apply Forall_cons; [tauto |]). apply Forall_nil.
  - intros Hf.
    inversion_clear Hf as [| ? ? [? ?] Hf1].
    inversion_clear Hf1 as [| ? ? [? ?] Hf2].
    inversion_clear Hf2 as [| ? ? [? ?] _].
    repeat (apply andb_true_intro; split); assumption.
Qed.

Lemma op_eq_box_binary64 (a b : Vector3.t spec_float) :
  is_double3 b -> Vector3.op_eq a b = true <-> in_box a b.
Proof.
  intros Hb. apply op_eq_box. rewrite (op_sub_binary64 a b Hb). reflexivity.
Qed.

Lemma op_eq_box_exact (a b : Vector3.t R) :
  Vector3.op_eq a b = true <-> in_box a b.
Proof.
  apply op_eq_box. rewrite op_sub_exact. reflexivity.
Qed.

Lemma strictly_inside_exact (c : R) :
  strictly_inside c <-> (- (5 / 1000) < c < 5 / 1000)%R.
Proof.
  unfold strictly_inside, Vector3.epsilon. reals.
  rewrite !Rltb_true. tauto.
Qed.

Lemma in_box_exact (a b : Vector3.t R) :
  in_box a b <->
  (- (5 / 1000) < Vector3.x a - Vector3.x b < 5 / 1000)%R /\
  (- (5 / 1000) < Vector3.y a - Vector3.y b < 5 / 1000)%R /\
  (- (5 / 1000) < Vector3.z a - Vector3.z b < 5 / 1000)%R.
Proof.
  unfold in_box, axis_differences. reals.
  rewrite <- !strictly_inside_exact. split.
  - intros Hf.
    inversion_clear Hf as [| ? ? Hx Hf1].
    inversion_clear Hf1 as [| ? ? Hy Hf2].
    inversion_clear Hf2 as [| ? ? Hz _]. tauto.
  - intros (Hx & Hy & Hz). repeat (apply Forall_cons; [assumption |]).
    apply Forall_nil.
Qed.

Section BoxBoundary.
Context {num : Type} `{Arith num}.

(** A difference of exactly [e] or [-e] on some axis leaves the box as
    soon as neither value is strictly inside. *)
Lemma boundary_outside_box (e : num) (a b : Vector3.t num) :
  ~ strictly_inside e -> ~ strictly_inside (fneg e) ->
  some_axis_differs_by e a b -> ~ in_box a b.
Proof.
  intros He Hne Hex Hbox. unfold some_axis_differs_by in Hex.
  apply Exists_exists in Hex. destruct Hex as (c & Hin & Hc).
  unfold in_box in Hbox. rewrite Forall_forall in Hbox.
  specialize (Hbox c Hin). destruct Hc as [-> | ->]; contradiction.
Qed.

Lemma interior_inside_box (e : num) (a b : Vector3.t num) :
  strictly_inside e -> strictly_inside (fneg e) ->
  every_axis_differs_by e a b -> in_box a b.
Proof.
  intros He Hne Hall. unfold in_box. unfold every_axis_differs_by in Hall.
  eapply Forall_impl; [| exact Hall].
  intros c [-> | ->]; assumption.
Qed.

End BoxBoundary.

Lemma not_true_false (b : bool) : b <> true -> b = false.
Proof. destruct b; congruence. Qed.

(** C4.  [operator==] is the box test: it answers true exactly when the
    three differences [a.x - b.x], [a.y - b.y], [a.z - b.z] lie strictly
    between [-0.005] and [0.005], in double arithmetic (differences and
    comparisons being those of doubles) and in real arithmetic.  Hence two
    vectors whose difference on some axis is exactly [0.005] or [-0.005]
    are not equal, and two vectors whose difference on every axis is
    [0.0025] or [-0.0025] are equal. *)
Theorem C4_equals_is_box_test :
  (forall a b : Vector3.t spec_float,
      is_double3 b -> (Vector3.op_eq a b = true <-> in_box a b)) /\
  (forall a b : Vector3.t R,
      Vector3.op_eq a b = true <->
      (- (5 / 1000) < Vector3.x a - Vector3.x b < 5 / 1000)%R /\
      (- (5 / 1000) < Vector3.y a - Vector3.y b < 5 / 1000)%R /\
      (- (5 / 1000) < Vector3.z a - Vector3.z b < 5 / 1000)%R) /\
  (forall a b : Vector3.t spec_float,
      is_double3 b -> some_axis_differs_by Vector3.epsilon a b ->
      Vector3.op_eq a b = false) /\
  (forall a b : Vector3.t R,
      some_axis_differs_by Vector3.epsilon a b -> Vector3.op_eq a b = false) /\
  (forall a b : Vector3.t spec_float,
      is_double3 b -> every_axis_differs_by half_epsilon a b ->
      Vector3.op_eq a b = true) /\
  (forall a b : Vector3.t R,
      every_axis_differs_by half_epsilon a b -> Vector3.op_eq a b = true).
Proof.
  repeat apply conj.
  - exact op_eq_box_binary64.
  - intros a b. rewrite op_eq_box_exact. apply in_box_exact.
  - intros a b Hb Hd. apply not_true_false. rewrite (op_eq_box_binary64 a b Hb).
    revert Hd. apply boundary_outside_box.
    + intros [_ Hlt]. vm_compute in Hlt. discriminate.
    + intros [Hlt _]. vm_compute in Hlt. discriminate.
  - intros a b Hd. apply not_true_false. rewrite op_eq_box_exact.
    revert Hd. apply boundary_outside_box; rewrite strictly_inside_exact;
      unfold Vector3.epsilon; reals; lra.
  - intros a b Hb Hd. apply (op_eq_box_binary64 a b Hb).
    revert Hd. apply interior_inside_box; split; vm_compute; reflexivity.
  - intros a b Hd. apply op_eq_box_exact.
    revert Hd. apply interior_inside_box; rewrite strictly_inside_exact;
      unfold half_epsilon; reals; lra.
Qed.

(** In doubles, [(0.0025, 0.0025, 0.0025)] equals the zero vector and
    [(0.005, 0, 0)] does not. *)
Lemma C4_witness :
  Vector3.op_eq (Vector3.mk half_epsilon half_epsilon half_epsilon) (vec 0 0 0) = true /\
  Vector3.op_eq (Vector3.mk Vector3.epsilon (of_Z 0) (of_Z 0)) (vec 0 0 0) = false.
Proof.
  destruct C4_equals_is_box_test as (_ & _ & Hout & _ & Hin & _). split.
  - apply Hin.
    + repeat split.
    + repeat (apply Forall_cons; [left; reflexivity |]). apply Forall_nil.
  - apply Hout.
    + repeat split.
    + apply Exists_cons_hd. left; reflexivity.
Defined.

(** ** [Vector3::norm] and [Vector3::normalize] *)

Lemma sum_squares_zero (a b c : R) :
  (a * a + b * b + c * c = 0)%R -> a = 0%R /\ b = 0%R /\ c = 0%R.
Proof. intros Hs. repeat split; nra. Qed.

Lemma norm_exact_zero (v : Vector3.t R) :
  Vector3.norm v = 0%R <-> v = vecR 0 0 0.
Proof.
  destruct v as [a b c]. unfold Vector3.norm, vecR.
  cbn [Vector3.x Vector3.y Vector3.z]. reals. split.
  - intros Hn. apply sqrt_eq_0 in Hn; [| nra].
    apply sum_squares_zero in Hn. destruct Hn as (-> & -> & ->). reflexivity.
  - intros Hv. injection Hv as -> -> ->.
    replace (0 * 0 + 0 * 0 + 0 * 0)%R with 0%R by ring. apply sqrt_0.
Qed.

Lemma normalize_unchanged {num} `{Arith num} (v : Vector3.t num) :
  feq (Vector3.norm v) (of_Z 0) = true -> Vector3.normalize v = v.
Proof. intros Hn. unfold Vector3.normalize. rewrite Hn. reflexivity. Qed.

Lemma normalize_divides {num} `{Arith num} (v : Vector3.t num) :
  feq (Vector3.norm v) (of_Z 0) = false ->
  Vector3.normalize v
  = Vector3.mk (fdiv (Vector3.x v) (Vector3.norm v))
               (fdiv (Vector3.y v) (Vector3.norm v))
               (fdiv (Vector3.z v) (Vector3.norm v)).
Proof. intros Hn. unfold Vector3.normalize. rewrite Hn. reflexivity. Qed.

Lemma normalize_zeros_binary64 (v : Vector3.t spec_float) :
  is_zero (Vector3.x v) = true -> is_zero (Vector3.y v) = true ->
  is_zero (Vector3.z v) = true ->
  feq (Vector3.norm v) (of_Z 0) = true /\ Vector3.normalize v = v.
Proof.
  destruct v as [[sx | | | ] [sy | | | ] [sz | | | ]]; try discriminate.
  intros _ _ _. split; [| apply normalize_unchanged];
    destruct sx, sy, sz; reflexivity.
Qed.

(** C6.  [normalize] leaves a vector whose norm compares equal to zero as
    it is, and replaces every other vector by its three components divided
    by the norm; this holds in every arithmetic.  A vector of zeros has
    norm zero, in doubles and in reals, and in real arithmetic it is the
    only one. *)
Theorem C6_normalize_zero_norm_unchanged :
  (forall num (A : Arith num) (v : Vector3.t num),
      (feq (Vector3.norm v) (of_Z 0) = true -> Vector3.normalize v = v) /\
      (feq (Vector3.norm v) (of_Z 0) = false ->
       Vector3.normalize v
       = Vector3.mk (fdiv (Vector3.x v) (Vector3.norm v))
                    (fdiv (Vector3.y v) (Vector3.norm v))
                    (fdiv (Vector3.z v) (Vector3.norm v)))) /\
  (forall v : Vector3.t spec_float,
      is_zero (Vector3.x v) = true -> is_zero (Vector3.y v) = true ->
      is_zero (Vector3.z v) = true ->
      feq (Vector3.norm v) (of_Z 0) = true /\ Vector3.normalize v = v) /\
  (forall v : Vector3.t R,
      (feq (Vector3.norm v) (of_Z 0) = true <-> v = vecR 0 0 0) /\
      Vector3.normalize (vecR 0 0 0) = vecR 0 0 0).
Proof.
  repeat apply conj.
  - intros num A v. split; [apply normalize_unchanged | apply normalize_divides].
  - exact normalize_zeros_binary64.
  - intros v. split.
    + reals. rewrite Reqb_true. apply norm_exact_zero.
    + apply normalize_unchanged. reals. apply Reqb_true.
      now apply norm_exact_zero.
Qed.

(** In doubles: the zero vector stays, and [(3, 0, 4)], of norm 5, becomes
    [(3/5, 0/5, 4/5)]. *)
Lemma C6_witness :
  Vector3.normalize (vec 0 0 0) = vec 0 0 0 /\
  Vector3.normalize (vec 3 0 4)
  = Vector3.mk (decimal 3 5) (decimal 0 5) (decimal 4 5).
Proof.
  split.
  - apply (proj1 (proj1 C6_normalize_zero_norm_unchanged spec_float binary64 (vec 0 0 0))).
    reflexivity.
  - apply (proj2 (proj1 C6_normalize_zero_norm_unchanged spec_float binary64 (vec 3 0 4))).
    reflexivity.
Defined.

Lemma norm_exact_square (v : Vector3.t R) :
  (Vector3.norm v * Vector3.norm v
   = Vector3.x v * Vector3.x v + Vector3.y v * Vector3.y v
     + Vector3.z v * Vector3.z v)%R.
Proof.
  unfold Vector3.norm. reals. apply sqrt_sqrt.
  destruct v as [a b c]; cbn [Vector3.x Vector3.y Vector3.z]. nra.
Qed.

Lemma norm_normalize_exact (v : Vector3.t R) :
  (0 < Vector3.norm v)%R -> Vector3.norm (Vector3.normalize v) = 1%R.
Proof.
  intros Hpos.
  assert (Hne : Vector3.norm v <> 0%R) by lra.
  rewrite normalize_divides by (reals; now apply Reqb_false).
  pose proof (norm_exact_square v) as Hsq.
  set (n := Vector3.norm v) in *.
  unfold Vector3.norm at 1. cbn [Vector3.x Vector3.y Vector3.z]. reals.
  replace (Vector3.x v / n * (Vector3.x v / n) + Vector3.y v / n * (Vector3.y v / n)
           + Vector3.z v / n * (Vector3.z v / n))%R with 1%R.
  - apply sqrt_1.
  - field_simplify_eq; [| exact Hne]. lra.
Qed.

(** ** Rounding in binary64

    What [binary_round_aux] returns for a mantissa of at least 53 bits in
    the normal range: a double within one unit in the last place of the
    value being rounded. *)

(** A mantissa of [d] binary digits lies between [2^(d-1)] and [2^d]. *)
Lemma digits2_pos_bounds (m : positive) :
  (2 ^ (Zpos (digits2_pos m) - 1) <= Zpos m < 2 ^ Zpos (digits2_pos m))%Z.
Proof.
  induction m as [m IH | m IH |]; cbn [digits2_pos].
  - rewrite Pos2Z.inj_succ.
    replace (Z.succ (Z.pos (digits2_pos m)) - 1)%Z
      with (Z.succ (Z.pos (digits2_pos m) - 1))%Z by lia.
    rewrite !Z.pow_succ_r by lia. lia.
  - rewrite Pos2Z.inj_succ.
    replace (Z.succ (Z.pos (digits2_pos m)) - 1)%Z
      with (Z.succ (Z.pos (digits2_pos m) - 1))%Z by lia.
    rewrite !Z.pow_succ_r by lia. lia.
  - cbn. lia.
Qed.

(** Shifting right [k] times divides the mantissa by [2^k]. *)
Lemma iter_pos_nat {A} (f : A -> A) (p : positive) (x : A) :
  SpecFloat.iter_pos f p x = Nat.iter (Pos.to_nat p) f x.
Proof.
  revert x. induction p as [p IH | p IH |]; intros x; cbn [SpecFloat.iter_pos].
  - rewrite !IH, Pos2Nat.inj_xI, Nat.iter_succ_r.
    replace (2 * Pos.to_nat p)%nat with (Pos.to_nat p + Pos.to_nat p)%nat by lia.
    now rewrite Nat.iter_add.
  - rewrite !IH, Pos2Nat.inj_xO.
    replace (2 * Pos.to_nat p)%nat with (Pos.to_nat p + Pos.to_nat p)%nat by lia.
    now rewrite Nat.iter_add.
  - reflexivity.
Qed.

Lemma shr_1_m (mrs : shr_record) :
  (0 <= shr_m mrs)%Z -> shr_m (shr_1 mrs) = (shr_m mrs / 2)%Z.
Proof.
  destruct mrs as [m r s]. cbn [shr_m]. intros Hm. unfold shr_1.
  destruct m as [| [p | p |] | p]; cbn [shr_m].
  - reflexivity.
  - apply Z.div_unique with 1%Z; lia.
  - apply Z.div_unique with 0%Z; lia.
  - reflexivity.
  - lia.
Qed.

Lemma shr_iter_m (k : nat) (mrs : shr_record) :
  (0 <= shr_m mrs)%Z ->
  shr_m (Nat.iter k shr_1 mrs) = (shr_m mrs / 2 ^ Z.of_nat k)%Z.
Proof.
  intros Hm. induction k as [| k IH].
  - cbn. now rewrite Z.div_1_r.
  - rewrite Nat.iter_succ, shr_1_m.
    + rewrite IH. rewrite Nat2Z.inj_succ, Z.pow_succ_r by lia.
      rewrite Z.div_div by lia. f_equal. lia.
    + rewrite IH. apply Z.div_pos; lia.
Qed.

Lemma round_nearest_even_cases (m : Z) (l : location) :
  round_nearest_even m l = m \/ round_nearest_even m l = (m + 1)%Z.
Proof.
  destruct l as [| []]; cbn; auto. destruct (Z.even m); auto.
Qed.

Lemma fexp_normal (e : Z) : (-1021 <= e)%Z -> fexp prec emax e = (e - 53)%Z.
Proof. unfold fexp, emin, prec, emax. lia. Qed.

(** The first step of rounding: the mantissa is cut down to the digits
    the format keeps, and the exponent follows. *)
Lemma shr_fexp_spec (m : positive) (e : Z) (l : location) :
  let n := Z.max 0 (fexp prec emax (Zpos (digits2_pos m) + e) - e) in
  shr_m (fst (shr_fexp prec emax (Zpos m) e l)) = (Zpos m / 2 ^ n)%Z /\
  snd (shr_fexp prec emax (Zpos m) e l) = (e + n)%Z.
Proof.
  unfold shr_fexp, shr. cbn [Zdigits2].
  destruct (fexp prec emax (Zpos (digits2_pos m) + e) - e)%Z as [| p | p] eqn:En;
    cbn [fst snd].
  - rewrite Z.max_l by lia. rewrite Z.div_1_r, Z.add_0_r.
    split; [destruct l as [| []]; reflexivity | reflexivity].
  - rewrite Z.max_r by lia. split; [| reflexivity].
    rewrite iter_pos_nat, shr_iter_m.
    + rewrite positive_nat_Z. destruct l as [| []]; reflexivity.
    + destruct l as [| []]; cbn; lia.
  - rewrite Z.max_l by lia. rewrite Z.div_1_r, Z.add_0_r.
    split; [destruct l as [| []]; reflexivity | reflexivity].
Qed.

Lemma digits_unique (m : positive) (k : Z) :
  (2 ^ (k - 1) <= Zpos m < 2 ^ k)%Z -> Zpos (digits2_pos m) = k.
Proof.
  intros [Hlo Hhi]. pose proof (digits2_pos_bounds m) as [Dlo Dhi].
  set (d := Zpos (digits2_pos m)) in *.
  assert (Hd : (0 < d)%Z) by (unfold d; lia).
  assert (Hk : (0 < k)%Z).
  { destruct (Z_lt_le_dec 0 k) as [? | Hle]; [assumption |].
    exfalso. destruct (Z.eq_dec k 0) as [-> | Hne].
    - cbn in Hhi. lia.
    - rewrite (Z.pow_neg_r 2 k) in Hhi by lia. lia. }
  assert (H1 : (k - 1 < d)%Z).
  { apply (Z.pow_lt_mono_r_iff 2); lia. }
  assert (H2 : (d - 1 < k)%Z).
  { apply (Z.pow_lt_mono_r_iff 2); lia. }
  lia.
Qed.

(** Rounding a mantissa of at least 53 digits in the normal range keeps its
    53 leading digits, or their successor. *)
Lemma round_aux_normal (sx : bool) (mx : positive) (ex : Z) (lx : location) :
  let d := Zpos (digits2_pos mx) in
  let n := (d - 53)%Z in
  let m1 := (Zpos mx / 2 ^ n)%Z in
  (53 <= d)%Z -> (-1074 <= ex + n)%Z -> (ex + n <= 970)%Z ->
  exists (m : positive) (e : Z),
    binary_round_aux prec emax sx (Zpos mx) ex lx = S754_finite sx m e /\
    Zpos (digits2_pos m) = 53%Z /\ (-1074 <= e <= 971)%Z /\
    (ex + n <= e)%Z /\
    (Zpos m * 2 ^ (e - (ex + n)) = m1 \/ Zpos m * 2 ^ (e - (ex + n)) = m1 + 1)%Z /\
    (2 ^ 52 <= m1 < 2 ^ 53)%Z.
Proof.
  intros d n m1 Hd Hlo Hhi.
  assert (Hm1 : (2 ^ 52 <= m1 < 2 ^ 53)%Z).
  { pose proof (digits2_pos_bounds mx) as [Dlo Dhi]. fold d in Dlo, Dhi.
    assert (Hp : (0 < 2 ^ n)%Z) by (apply Z.pow_pos_nonneg; lia).
    replace (d - 1)%Z with (n + 52)%Z in Dlo by lia.
    replace d with (n + 53)%Z in Dhi by lia.
    rewrite Z.pow_add_r in Dlo, Dhi by lia.
    unfold m1. split.
    - apply Z.div_le_lower_bound; lia.
    - apply Z.div_lt_upper_bound; lia. }
  unfold binary_round_aux.
  pose proof (shr_fexp_spec mx ex lx) as [Hm He]. fold d in Hm, He.
  rewrite fexp_normal in Hm, He by lia.
  replace (Z.max 0 (d + ex - 53 - ex))%Z with n in Hm, He by lia.
  destruct (shr_fexp prec emax (Zpos mx) ex lx) as [mrs' e'].
  cbn [fst snd] in Hm, He. fold m1 in Hm. subst e'.
  destruct (round_nearest_even_cases (shr_m mrs') (loc_of_shr_record mrs')) as [Hr | Hr];
    rewrite Hr, Hm; clear Hr.
  - (* the mantissa is kept *)
    destruct m1 as [| q | q] eqn:Eq; try lia.
    assert (Hq : Zpos (digits2_pos q) = 53%Z) by (apply digits_unique; lia).
    pose proof (shr_fexp_spec q (ex + n) loc_Exact) as [Hm' He'].
    rewrite Hq, fexp_normal in Hm', He' by lia.
    replace (Z.max 0 (53 + (ex + n) - 53 - (ex + n)))%Z with 0%Z in Hm', He' by lia.
    rewrite Z.div_1_r in Hm'. rewrite Z.add_0_r in He'.
    destruct (shr_fexp prec emax (Zpos q) (ex + n) loc_Exact) as [mrs'' e''].
    cbn [fst snd] in Hm', He'. rewrite Hm'. subst e''.
    replace (ex + n <=? emax - prec)%Z with true
      by (symmetry; apply Z.leb_le; unfold emax, prec; lia).
    exists q, (ex + n)%Z. repeat split; try lia.
    left. rewrite Z.sub_diag. lia.
  - (* the mantissa is incremented *)
    destruct (m1 + 1)%Z as [| q | q] eqn:Eq; try lia.
    destruct (Z_lt_le_dec (Zpos q) (2 ^ 53)) as [Hlt | Hge].
    + assert (Hq : Zpos (digits2_pos q) = 53%Z) by (apply digits_unique; lia).
      pose proof (shr_fexp_spec q (ex + n) loc_Exact) as [Hm' He'].
      rewrite Hq, fexp_normal in Hm', He' by lia.
      replace (Z.max 0 (53 + (ex + n) - 53 - (ex + n)))%Z with 0%Z in Hm', He' by lia.
      rewrite Z.div_1_r in Hm'. rewrite Z.add_0_r in He'.
      destruct (shr_fexp prec emax (Zpos q) (ex + n) loc_Exact) as [mrs'' e''].
      cbn [fst snd] in Hm', He'. rewrite Hm'. subst e''.
      replace (ex + n <=? emax - prec)%Z with true
        by (symmetry; apply Z.leb_le; unfold emax, prec; lia).
      exists q, (ex + n)%Z. repeat split; try lia.
      right. rewrite Z.sub_diag. lia.
    + assert (Hq53 : Zpos q = (2 ^ 53)%Z) by lia.
      assert (Hq : Zpos (digits2_pos q) = 54%Z).
      { apply digits_unique. rewrite Hq53. split; [| apply Z.pow_lt_mono_r]; lia. }
      pose proof (shr_fexp_spec q (ex + n) loc_Exact) as [Hm' He'].
      rewrite Hq, fexp_normal in Hm', He' by lia.
      replace (Z.max 0 (54 + (ex + n) - 53 - (ex + n)))%Z with 1%Z in Hm', He' by lia.
      assert (Hdiv : (Zpos q / 2 ^ 1)%Z = Zpos 4503599627370496)
        by (rewrite Hq53; reflexivity).
      rewrite Hdiv in Hm'.
      destruct (shr_fexp prec emax (Zpos q) (ex + n) loc_Exact) as [mrs'' e''].
      cbn [fst snd] in Hm', He'. rewrite Hm'. subst e''.
      replace (ex + n + 1 <=? emax - prec)%Z with true
        by (symmetry; apply Z.leb_le; unfold emax, prec; lia).
      exists 4503599627370496%positive, (ex + n + 1)%Z.
      repeat split; try lia.
      right. replace (ex + n + 1 - (ex + n))%Z with 1%Z by lia.
      change (Z.pos 4503599627370496 * 2 ^ 1)%Z with (2 ^ 53)%Z. lia.
Qed.

Section RoundingError.
Local Open Scope R_scope.

(** *** Powers of two *)

Lemma pow2_pos (e : Z) : 0 < pow2 e.
Proof. apply powerRZ_lt. lra. Qed.

Lemma pow2_add (a b : Z) : pow2 (a + b) = pow2 a * pow2 b.
Proof. apply powerRZ_add. lra. Qed.

Lemma pow2_IZR (k : Z) : (0 <= k)%Z -> pow2 k = IZR (2 ^ k).
Proof.
  intros Hk. unfold pow2. destruct k as [| p | p]; try lia.
  - reflexivity.
  - symmetry. apply Zpower_pos_powerRZ.
Qed.

Lemma pow2_ge_1 (k : Z) : (0 <= k)%Z -> 1 <= pow2 k.
Proof.
  intros Hk. rewrite pow2_IZR by assumption. apply IZR_le.
  pose proof (Z.pow_pos_nonneg 2 k). lia.
Qed.

Lemma pow2_le (a b : Z) : (a <= b)%Z -> pow2 a <= pow2 b.
Proof.
  intros Hab. replace b with (a + (b - a))%Z by lia. rewrite pow2_add.
  pose proof (pow2_pos a). pose proof (pow2_ge_1 (b - a) ltac:(lia)). nra.
Qed.

Lemma pow2_lt (a b : Z) : (a < b)%Z -> pow2 a < pow2 b.
Proof.
  intros Hab. replace b with (a + 1 + (b - a - 1))%Z by lia.
  rewrite !pow2_add. assert (H1 : pow2 1 = 2) by (unfold pow2, powerRZ; simpl; lra). rewrite H1.
  pose proof (pow2_pos a). pose proof (pow2_ge_1 (b - a - 1) ltac:(lia)). nra.
Qed.

Lemma pow2_lt_inv (a b : Z) : pow2 a < pow2 b -> (a < b)%Z.
Proof.
  intros Hlt. destruct (Z_lt_le_dec a b) as [? | Hle]; [assumption |].
  apply pow2_le in Hle. lra.
Qed.

Lemma pow2_opp (a : Z) : pow2 (- a) = / pow2 a.
Proof. apply powerRZ_neg'. Qed.

(** *** The value of a rounded number *)

Lemma SF2R_finite (s : bool) (m : positive) (e : Z) :
  SF2R (S754_finite s m e) = IZR (cond_Zopp s (Zpos m)) * pow2 e.
Proof.
  unfold SF2R. destruct e as [| p | p].
  - rewrite Z.mul_1_r. unfold pow2, powerRZ. lra.
  - rewrite mult_IZR. f_equal. symmetry. apply (pow2_IZR (Zpos p)). lia.
  - change (Z.neg p) with (- Z.pos p)%Z. rewrite pow2_opp.
    rewrite (pow2_IZR (Zpos p)) by lia. reflexivity.
Qed.

(** The double returned for a value [v] between [mx * 2^ex] and
    [(mx + 1) * 2^ex] is within [2^-52 * v] of [v]. *)
Lemma round_aux_error (sx : bool) (mx : positive) (ex : Z) (lx : location) (v : R) :
  let d := Zpos (digits2_pos mx) in
  (53 <= d)%Z -> (-1021 <= d + ex)%Z -> (d + ex <= 1023)%Z ->
  IZR (Zpos mx) * pow2 ex <= v <= IZR (Zpos mx + 1) * pow2 ex ->
  let r := binary_round_aux prec emax sx (Zpos mx) ex lx in
  normal64 r /\ sign_of r = sx /\
  Rabs (Rabs (SF2R r) - v) <= unit_roundoff * v.
Proof.
  intros d Hd Hlo Hhi Hv r.
  destruct (round_aux_normal sx mx ex lx Hd ltac:(fold d; lia) ltac:(fold d; lia))
    as (m & e & Hr & Hdig & He & Hle & Hk & Hm1).
  fold d in Hle, Hk, Hm1. subst r. rewrite Hr.
  split; [split; assumption |]. split; [reflexivity |].
  set (n := (d - 53)%Z) in *. set (m1 := (Zpos mx / 2 ^ n)%Z) in *.
  set (E := (ex + n)%Z) in *.
  assert (Hpn : (0 < 2 ^ n)%Z) by (apply Z.pow_pos_nonneg; lia).
  assert (Hdiv : (2 ^ n * m1 <= Zpos mx < 2 ^ n * (m1 + 1))%Z).
  { unfold m1. split.
    - apply Z.mul_div_le. lia.
    - pose proof (Z.mul_succ_div_gt (Zpos mx) (2 ^ n) Hpn). lia. }
  (* the value of the result *)
  assert (Hw : Rabs (SF2R (S754_finite sx m e)) = IZR (Zpos m * 2 ^ (e - E)) * pow2 E).
  { rewrite SF2R_finite. rewrite Rabs_mult, (Rabs_pos_eq (pow2 e)) by (left; apply pow2_pos).
    replace (Rabs (IZR (cond_Zopp sx (Zpos m)))) with (IZR (Zpos m)).
    2:{ destruct sx; cbn [cond_Zopp].
        - change (Z.opp (Zpos m)) with (- Zpos m)%Z. rewrite opp_IZR, Rabs_Ropp.
          symmetry. apply Rabs_pos_eq. apply IZR_le. lia.
        - symmetry. apply Rabs_pos_eq. apply IZR_le. lia. }
    rewrite mult_IZR, <- (pow2_IZR (e - E)) by lia.
    rewrite Rmult_assoc, <- pow2_add. f_equal. f_equal. lia. }
  rewrite Hw.
  (* the interval of v *)
  assert (HBE : pow2 E = IZR (2 ^ n) * pow2 ex).
  { unfold E. rewrite Z.add_comm, pow2_add, pow2_IZR by lia. reflexivity. }
  pose proof (pow2_pos ex) as Hbex. pose proof (pow2_pos E) as HbE.
  assert (Hvlo : IZR m1 * pow2 E <= v).
  { rewrite HBE, <- Rmult_assoc, <- mult_IZR.
    apply Rle_trans with (IZR (Zpos mx) * pow2 ex); [| lra].
    apply Rmult_le_compat_r; [lra |]. apply IZR_le. lia. }
  assert (Hvhi : v <= IZR (m1 + 1) * pow2 E).
  { rewrite HBE, <- Rmult_assoc, <- mult_IZR.
    apply Rle_trans with (IZR (Zpos mx + 1) * pow2 ex); [lra |].
    apply Rmult_le_compat_r; [lra |]. apply IZR_le. lia. }
  assert (H52 : IZR (2 ^ 52) * pow2 E <= v).
  { apply Rle_trans with (IZR m1 * pow2 E); [| assumption].
    apply Rmult_le_compat_r; [lra |]. apply IZR_le. lia. }
  assert (Hu : unit_roundoff * IZR (2 ^ 52) = 1).
  { unfold unit_roundoff. rewrite <- (pow2_IZR 52) by lia. rewrite <- pow2_add. reflexivity. }
  assert (HBv : pow2 E <= unit_roundoff * v).
  { replace (pow2 E) with (unit_roundoff * (IZR (2 ^ 52) * pow2 E))
      by (rewrite <- Rmult_assoc, Hu; ring).
    apply Rmult_le_compat_l; [unfold unit_roundoff; left; apply pow2_pos | assumption]. }
  rewrite plus_IZR in Hvhi.
  apply Rabs_le. destruct Hk as [-> | ->]; [| rewrite plus_IZR]; split; nra.
Qed.

Lemma Rabs_cond_Zopp (s : bool) (m : positive) :
  Rabs (IZR (cond_Zopp s (Zpos m))) = IZR (Zpos m).
Proof.
  destruct s; cbn [cond_Zopp].
  - change (Z.opp (Zpos m)) with (- Zpos m)%Z. rewrite opp_IZR, Rabs_Ropp.
    apply Rabs_pos_eq. apply IZR_le. lia.
  - apply Rabs_pos_eq. apply IZR_le. lia.
Qed.

Lemma Rabs_SF2R_finite (s : bool) (m : positive) (e : Z) :
  Rabs (SF2R (S754_finite s m e)) = IZR (Zpos m) * pow2 e.
Proof.
  rewrite SF2R_finite, Rabs_mult, Rabs_cond_Zopp.
  rewrite (Rabs_pos_eq (pow2 e)) by (left; apply pow2_pos). reflexivity.
Qed.

Lemma SF2R_finite_pos (m : positive) (e : Z) :
  SF2R (S754_finite false m e) = IZR (Zpos m) * pow2 e.
Proof. now rewrite SF2R_finite. Qed.

(** The value of a mantissa of [d] digits at exponent [e]. *)
Lemma mantissa_range (m : positive) (e : Z) :
  let d := Zpos (digits2_pos m) in
  pow2 (d - 1 + e) <= IZR (Zpos m) * pow2 e < pow2 (d + e).
Proof.
  intros d. pose proof (digits2_pos_bounds m) as [Hlo Hhi]. fold d in Hlo, Hhi.
  assert (Hd : (1 <= d)%Z) by (unfold d; lia).
  rewrite (pow2_add (d - 1) e), (pow2_add d e), (pow2_IZR (d - 1)), (pow2_IZR d) by lia.
  pose proof (pow2_pos e).
  apply IZR_le in Hlo. apply IZR_lt in Hhi. split; nra.
Qed.

Lemma normal64_pos_value (x : spec_float) :
  normal64 x -> sign_of x = false -> 0 < SF2R x.
Proof.
  destruct x as [| | | s m e]; try contradiction. cbn [sign_of]. intros _ ->.
  rewrite SF2R_finite_pos. pose proof (pow2_pos e).
  assert (0 < IZR (Zpos m)) by (apply IZR_lt; lia). nra.
Qed.

Lemma sign_false_abs (r : spec_float) :
  normal64 r -> sign_of r = false -> Rabs (SF2R r) = SF2R r.
Proof.
  intros Hn Hs. apply Rabs_pos_eq. left. now apply normal64_pos_value.
Qed.

(** *** Multiplication *)

Lemma mul_error (x y : spec_float) :
  normal64 x -> normal64 y ->
  pow2 (-1022) <= Rabs (SF2R x) * Rabs (SF2R y) < pow2 1023 ->
  let r := SFmul prec emax x y in
  normal64 r /\ sign_of r = xorb (sign_of x) (sign_of y) /\
  Rabs (Rabs (SF2R r) - Rabs (SF2R x) * Rabs (SF2R y))
  <= unit_roundoff * (Rabs (SF2R x) * Rabs (SF2R y)).
Proof.
  destruct x as [| | | sx mx ex]; try contradiction.
  destruct y as [| | | sy my ey]; try contradiction.
  intros [Hdx Hex] [Hdy Hey]. rewrite !Rabs_SF2R_finite. intros Hrange.
  cbn [SFmul sign_of].
  assert (Hv : IZR (Zpos mx) * pow2 ex * (IZR (Zpos my) * pow2 ey)
               = IZR (Zpos (mx * my)) * pow2 (ex + ey)).
  { rewrite Pos2Z.inj_mul, mult_IZR, pow2_add. ring. }
  rewrite Hv in *.
  pose proof (mantissa_range (mx * my) (ex + ey)) as Hmr.
  pose proof (mantissa_range mx ex) as Hmx. pose proof (mantissa_range my ey) as Hmy.
  cbv zeta in Hmr, Hmx, Hmy. rewrite Hdx in Hmx. rewrite Hdy in Hmy.
  set (d := Zpos (digits2_pos (mx * my))) in *.
  assert (Hd105 : (104 < d)%Z).
  { (* the product is at least 2^104 * 2^(ex+ey) *)
    apply (Z.add_lt_mono_r _ _ (ex + ey)). apply pow2_lt_inv.
    apply Rle_lt_trans with (IZR (Zpos (mx * my)) * pow2 (ex + ey)); [| apply Hmr].
    rewrite <- Hv. replace (104 + (ex + ey))%Z with ((53 - 1 + ex) + (53 - 1 + ey))%Z by lia.
    rewrite pow2_add. pose proof (pow2_pos (53 - 1 + ex)). pose proof (pow2_pos (53 - 1 + ey)).
    nra. }
  apply round_aux_error.
  - fold d. lia.
  - fold d. assert (Hlt : (-1022 < d + (ex + ey))%Z) by (apply pow2_lt_inv; lra). lia.
  - fold d. assert (Hlt : (d - 1 + (ex + ey) < 1023)%Z) by (apply pow2_lt_inv; lra). lia.
  - rewrite plus_IZR. pose proof (pow2_pos (ex + ey)). split; nra.
Qed.

(** *** Addition of two positive numbers *)

Lemma iter_xO_value (m d : positive) :
  Zpos (Pos.iter xO m d) = (Zpos m * 2 ^ Zpos d)%Z.
Proof.
  induction d as [| d IH] using Pos.peano_ind.
  - cbn. lia.
  - rewrite Pos.iter_succ, Pos2Z.inj_xO, IH, Pos2Z.inj_succ, Z.pow_succ_r by lia.
    lia.
Qed.

Lemma shl_align_value (m : positive) (e e' : Z) :
  (e' <= e)%Z ->
  Zpos (fst (shl_align m e e')) = (Zpos m * 2 ^ (e - e'))%Z.
Proof.
  intros Hle. unfold shl_align.
  destruct (e' - e)%Z as [| p | p] eqn:Ed; cbn [fst].
  - replace (e - e')%Z with 0%Z by lia. lia.
  - lia.
  - rewrite iter_xO_value. f_equal. f_equal. lia.
Qed.

Lemma shl_align_keep (m : positive) (e e' : Z) :
  (e <= e')%Z -> shl_align m e e' = (m, e).
Proof.
  intros Hle. unfold shl_align.
  destruct (e' - e)%Z as [| p | p] eqn:Ed; try reflexivity. lia.
Qed.

Lemma aligned_value (m : positive) (e e' : Z) :
  (e' <= e)%Z ->
  IZR (Zpos (fst (shl_align m e e'))) * pow2 e' = IZR (Zpos m) * pow2 e.
Proof.
  intros Hle. rewrite shl_align_value, mult_IZR, <- pow2_IZR by lia.
  rewrite Rmult_assoc, <- pow2_add. do 2 f_equal. lia.
Qed.

Lemma digits_ge_53 (p : positive) :
  (2 ^ 52 <= Zpos p)%Z -> (53 <= Zpos (digits2_pos p))%Z.
Proof.
  intros Hp. pose proof (digits2_pos_bounds p) as [_ Hhi].
  assert (H : (52 < Zpos (digits2_pos p))%Z).
  { apply (Z.pow_lt_mono_r_iff 2); lia. }
  lia.
Qed.

Lemma add_error (x y : spec_float) :
  normal64 x -> normal64 y -> sign_of x = false -> sign_of y = false ->
  SF2R x + SF2R y < pow2 1023 ->
  let r := SFadd prec emax x y in
  normal64 r /\ sign_of r = false /\
  Rabs (SF2R r - (SF2R x + SF2R y)) <= unit_roundoff * (SF2R x + SF2R y).
Proof.
  destruct x as [| | | sx mx ex]; try contradiction.
  destruct y as [| | | sy my ey]; try contradiction.
  intros [Hdx Hex] [Hdy Hey]. cbn [sign_of]. intros -> ->.
  rewrite !SF2R_finite_pos. intros Hrange.
  cbn [SFadd cond_Zopp]. set (ez := Z.min ex ey).
  set (mx' := fst (shl_align mx ex ez)). set (my' := fst (shl_align my ey ez)).
  assert (Hx : IZR (Zpos mx') * pow2 ez = IZR (Zpos mx) * pow2 ex)
    by (apply aligned_value; unfold ez; lia).
  assert (Hy : IZR (Zpos my') * pow2 ez = IZR (Zpos my) * pow2 ey)
    by (apply aligned_value; unfold ez; lia).
  rewrite <- Hx, <- Hy in *.
  change (Zpos mx' + Zpos my')%Z with (Zpos (mx' + my')).
  cbn [binary_normalize]. unfold binary_round.
  set (p := (mx' + my')%positive).
  assert (Hsum : IZR (Zpos mx') * pow2 ez + IZR (Zpos my') * pow2 ez = IZR (Zpos p) * pow2 ez).
  { unfold p. rewrite Pos2Z.inj_add, plus_IZR. ring. }
  rewrite Hsum in *.
  assert (Hp52 : (2 ^ 52 <= Zpos p)%Z).
  { pose proof (digits2_pos_bounds mx) as [Hlo _]. rewrite Hdx in Hlo.
    assert (Hmx' : (Zpos mx <= Zpos mx')%Z).
    { unfold mx'. rewrite shl_align_value by (unfold ez; lia).
      pose proof (Z.pow_pos_nonneg 2 (ex - ez) ltac:(lia) ltac:(unfold ez; lia)).
      nia. }
    unfold p. change (53 - 1)%Z with 52%Z in Hlo. lia. }
  pose proof (digits_ge_53 p Hp52) as Hd.
  pose proof (mantissa_range p ez) as Hmr. cbv zeta in Hmr.
  set (d := Zpos (digits2_pos p)) in *.
  assert (Hez : (-1074 <= ez)%Z) by (unfold ez; lia).
  rewrite fexp_normal by lia.
  rewrite shl_align_keep by lia.
  assert (Herr := round_aux_error false p ez loc_Exact (IZR (Zpos p) * pow2 ez)).
  cbv zeta in Herr. fold d in Herr.
  destruct Herr as (Hn & Hs & He).
  - lia.
  - lia.
  - assert (Hlt : (d - 1 + ez < 1023)%Z) by (apply pow2_lt_inv; lra). lia.
  - rewrite plus_IZR. pose proof (pow2_pos ez). split; nra.
  - split; [assumption |]. split; [assumption |].
    rewrite sign_false_abs in He by assumption. exact He.
Qed.

(** *** Square root *)

Lemma sqrt_pow2_even (e : Z) : sqrt (pow2 (2 * e)) = pow2 e.
Proof.
  replace (2 * e)%Z with (e + e)%Z by lia. rewrite pow2_add.
  apply sqrt_square. left. apply pow2_pos.
Qed.

Lemma sqrt_error (x : spec_float) :
  normal64 x -> sign_of x = false ->
  let r := SFsqrt prec emax x in
  normal64 r /\ sign_of r = false /\
  Rabs (SF2R r - sqrt (SF2R x)) <= unit_roundoff * sqrt (SF2R x).
Proof.
  destruct x as [| | | sx mx ex]; try contradiction.
  intros [Hdx Hex]. cbn [sign_of]. intros ->. rewrite SF2R_finite_pos.
  cbn [SFsqrt]. unfold SFsqrt_core_binary. cbn [Zdigits2]. rewrite Hdx.
  rewrite !Z.div2_div.
  assert (Hhalf : ((53 + ex + 1) / 2 = ex / 2 + 27)%Z).
  { replace (53 + ex + 1)%Z with (ex + 27 * 2)%Z by lia. apply Z.div_add. lia. }
  pose proof (Z.div_mod ex 2 ltac:(lia)) as Hdm.
  pose proof (Z.mod_pos_bound ex 2 ltac:(lia)) as Hmod.
  rewrite Hhalf. rewrite fexp_normal by lia.
  set (e' := Z.min (ex / 2 + 27 - 53) (ex / 2)).
  assert (He' : e' = (ex / 2 - 26)%Z) by (unfold e'; lia).
  set (s := (ex - 2 * e')%Z).
  assert (Hs : s = 52%Z \/ s = 53%Z) by (unfold s; lia).
  pose proof (digits2_pos_bounds mx) as [Hlo Hhi]. rewrite Hdx in Hlo, Hhi.
  change (53 - 1)%Z with 52%Z in Hlo.
  set (m' := match s with
             | 0%Z => Zpos mx
             | Zpos _ => Z.shiftl (Zpos mx) s
             | Zneg _ => 0%Z
             end).
  assert (Hm' : m' = (Zpos mx * 2 ^ s)%Z).
  { unfold m'. destruct Hs as [-> | ->]; rewrite Z.shiftl_mul_pow2; lia. }
  assert (Hm'r : (2 ^ 104 <= m' < 2 ^ 106)%Z).
  { rewrite Hm'. destruct Hs as [-> | ->]; lia. }
  pose proof (Z.sqrtrem_spec m' ltac:(lia)) as Hspec.
  destruct (Z.sqrtrem m') as [q r]. destruct Hspec as [Hqr Hr].
  assert (Hq : (2 ^ 52 <= q < 2 ^ 53)%Z) by nia.
  destruct q as [| q | q]; try lia.
  assert (Hdq : Zpos (digits2_pos q) = 53%Z) by (apply digits_unique; lia).
  set (l := if (r =? 0)%Z then loc_Exact
            else loc_Inexact (if (r <=? Zpos q)%Z then Lt else Gt)).
  (* the value *)
  assert (Hval : sqrt (IZR (Zpos mx) * pow2 ex) = sqrt (IZR m') * pow2 e').
  { replace ex with (s + 2 * e')%Z at 1 by (unfold s; lia).
    rewrite pow2_add, <- Rmult_assoc, sqrt_mult.
    - rewrite sqrt_pow2_even. f_equal. f_equal.
      rewrite Hm', mult_IZR, (pow2_IZR s) by lia. reflexivity.
    - pose proof (pow2_pos s). assert (0 < IZR (Zpos mx)) by (apply IZR_lt; lia). nra.
    - left. apply pow2_pos. }
  assert (Hsq : IZR (Zpos q) <= sqrt (IZR m') <= IZR (Zpos q + 1)).
  { split.
    - rewrite <- (sqrt_square (IZR (Zpos q))) by (apply IZR_le; lia).
      apply sqrt_le_1_alt. rewrite <- mult_IZR. apply IZR_le. lia.
    - rewrite <- (sqrt_square (IZR (Zpos q + 1))) by (apply IZR_le; lia).
      apply sqrt_le_1_alt. rewrite <- mult_IZR. apply IZR_le. lia. }
  assert (Herr := round_aux_error false q e' l (sqrt (IZR (Zpos mx) * pow2 ex))).
  cbv zeta in Herr. rewrite Hdq in Herr.
  destruct Herr as (Hn & Hsg & He).
  - lia.
  - lia.
  - lia.
  - rewrite Hval. pose proof (pow2_pos e'). split; apply Rmult_le_compat_r; lra.
  - split; [assumption |]. split; [assumption |].
    rewrite sign_false_abs in He by assumption. exact He.
Qed.

(** *** Division *)

Lemma div_error (x y : spec_float) :
  normal64 x -> normal64 y ->
  pow2 (-1020) <= Rabs (SF2R x) / Rabs (SF2R y) < pow2 1023 ->
  let r := SFdiv prec emax x y in
  normal64 r /\ sign_of r = xorb (sign_of x) (sign_of y) /\
  Rabs (Rabs (SF2R r) - Rabs (SF2R x) / Rabs (SF2R y))
  <= unit_roundoff * (Rabs (SF2R x) / Rabs (SF2R y)).
Proof.
  destruct x as [| | | sx mx ex]; try contradiction.
  destruct y as [| | | sy my ey]; try contradiction.
  intros [Hdx Hex] [Hdy Hey]. rewrite !Rabs_SF2R_finite. intros Hrange.
  cbn [SFdiv sign_of]. unfold SFdiv_core_binary. cbn [Zdigits2]. rewrite Hdx, Hdy.
  pose proof (digits2_pos_bounds mx) as [Hxlo Hxhi]. rewrite Hdx in Hxlo, Hxhi.
  pose proof (digits2_pos_bounds my) as [Hylo Hyhi]. rewrite Hdy in Hylo, Hyhi.
  change (53 - 1)%Z with 52%Z in Hxlo, Hylo.
  pose proof (pow2_pos ex) as Hbx. pose proof (pow2_pos ey) as Hby.
  assert (Hmx : 0 < IZR (Zpos mx)) by (apply IZR_lt; lia).
  assert (Hmy : 0 < IZR (Zpos my)) by (apply IZR_lt; lia).
  (* the quotient as a ratio of mantissas *)
  assert (Hquot : IZR (Zpos mx) * pow2 ex / (IZR (Zpos my) * pow2 ey)
                  = IZR (Zpos mx) / IZR (Zpos my) * pow2 (ex - ey)).
  { unfold Z.sub. rewrite pow2_add, pow2_opp. field. split; lra. }
  rewrite Hquot in *.
  assert (Hratio : IZR (Zpos mx) / IZR (Zpos my) < 2).
  { apply Rmult_lt_reg_r with (IZR (Zpos my)); [lra |].
    unfold Rdiv. rewrite Rmult_assoc, Rinv_l, Rmult_1_r by lra.
    rewrite <- mult_IZR. apply IZR_lt. lia. }
  assert (Hee : (-1021 <= ex - ey)%Z).
  { assert (Hlt : (-1020 < ex - ey + 1)%Z).
    { apply pow2_lt_inv. rewrite pow2_add.
      assert (H1 : pow2 1 = 2) by (unfold pow2, powerRZ; simpl; lra).
      rewrite H1. pose proof (pow2_pos (ex - ey)). nra. }
    lia. }
  replace (53 + ex - (53 + ey))%Z with (ex - ey)%Z by lia.
  rewrite fexp_normal by lia.
  replace (Z.min (ex - ey - 53) (ex - ey)) with (ex - ey - 53)%Z by lia.
  replace (ex - ey - (ex - ey - 53))%Z with 53%Z by lia.
  cbv iota. rewrite Z.shiftl_mul_pow2 by lia.
  set (e' := (ex - ey - 53)%Z).
  set (m' := (Zpos mx * 2 ^ 53)%Z).
  pose proof (Z_div_mod m' (Zpos my) ltac:(lia)) as Hdm.
  destruct (Z.div_eucl m' (Zpos my)) as [q r]. destruct Hdm as [Hq Hr].
  assert (Hqr : (2 ^ 52 <= q < 2 ^ 54)%Z) by (unfold m' in Hq; nia).
  destruct q as [| q | q]; try lia.
  assert (Hdq : (53 <= Zpos (digits2_pos q))%Z) by (apply digits_ge_53; lia).
  (* the value lies between q and q + 1 at exponent e' *)
  assert (Hval : IZR (Zpos mx) / IZR (Zpos my) * pow2 (ex - ey)
                 = IZR m' / IZR (Zpos my) * pow2 e').
  { unfold m', e'. rewrite mult_IZR, <- (pow2_IZR 53) by lia.
    replace (ex - ey)%Z with (53 + (ex - ey - 53))%Z at 1 by lia.
    rewrite pow2_add. field. lra. }
  assert (Hbr : IZR (Zpos q) <= IZR m' / IZR (Zpos my) <= IZR (Zpos q + 1)).
  { rewrite Hq, plus_IZR, mult_IZR. split.
    - apply Rmult_le_reg_r with (IZR (Zpos my)); [lra |].
      unfold Rdiv. rewrite Rmult_assoc, Rinv_l, Rmult_1_r by lra.
      assert (0 <= IZR r) by (apply IZR_le; lia). nra.
    - apply Rmult_le_reg_r with (IZR (Zpos my)); [lra |].
      unfold Rdiv. rewrite Rmult_assoc, Rinv_l, Rmult_1_r by lra.
      assert (IZR r <= IZR (Zpos my)) by (apply IZR_le; lia).
      rewrite plus_IZR. nra. }
  pose proof (pow2_pos e') as Hbe'.
  pose proof (mantissa_range q e') as Hmr. cbv zeta in Hmr.
  apply round_aux_error.
  - exact Hdq.
  - unfold e'. lia.
  - assert (Hlt : (Zpos (digits2_pos q) - 1 + e' < 1023)%Z).
    { apply pow2_lt_inv. rewrite Hval in Hrange.
      apply Rle_lt_trans with (IZR (Zpos q) * pow2 e'); [apply Hmr |].
      apply Rle_lt_trans with (IZR m' / IZR (Zpos my) * pow2 e'); [| apply Hrange].
      apply Rmult_le_compat_r; lra. }
    lia.
  - rewrite Hval. split; apply Rmult_le_compat_r; lra.
Qed.

(** *** Relative errors *)

Lemma unit_roundoff_le : unit_roundoff <= round_err.
Proof.
  unfold unit_roundoff, round_err. change (pow2 (-52)) with (pow2 (Z.opp 52)).
  rewrite pow2_opp, (pow2_IZR 52) by lia.
  change (2 ^ 52)%Z with 4503599627370496%Z.
  apply Rmult_le_reg_r with 4503599627370496; [lra |].
  rewrite Rinv_l by lra. lra.
Qed.

Lemma unit_roundoff_pos : 0 < unit_roundoff.
Proof. apply pow2_pos. Qed.

Lemma Rabs_le_bounds (x a : R) : Rabs x <= a -> - a <= x <= a.
Proof. unfold Rabs. destruct (Rcase_abs x); lra. Qed.

Lemma near_of_error (a A : R) :
  0 <= A -> Rabs (a - A) <= unit_roundoff * A -> near round_err a A.
Proof.
  intros HA He. pose proof unit_roundoff_le. pose proof unit_roundoff_pos.
  assert (unit_roundoff * A <= round_err * A) by (apply Rmult_le_compat_r; lra).
  apply Rabs_le_bounds in He. unfold near. lra.
Qed.

Lemma near_refl (k A : R) : 0 <= k -> 0 <= A -> near k A A.
Proof. intros. unfold near. nra. Qed.

Lemma near_weaken (k k' a A : R) :
  0 <= A -> k <= k' -> near k a A -> near k' a A.
Proof. intros HA Hk [Hlo Hhi]. unfold near. nra. Qed.

Lemma near_nonneg (k a A : R) : 0 <= A -> k <= 1 -> near k a A -> 0 <= a.
Proof. intros HA Hk [Hlo _]. nra. Qed.

Lemma near_pos (k a A : R) : 0 < A -> k < 1 -> near k a A -> 0 < a.
Proof. intros HA Hk [Hlo _]. nra. Qed.

(** One more rounding on top of an error [k]. *)
Lemma near_step (k b a A : R) :
  0 <= A -> 0 <= k <= 1 -> near round_err b a -> near k a A -> near (k + 2 * round_err) b A.
Proof.
  intros HA Hk [Hlo Hhi] [Hlo' Hhi']. unfold near, round_err in *. split; nra.
Qed.

Lemma near_add (k a b A C : R) :
  near k a A -> near k b C -> near k (a + b) (A + C).
Proof. intros [? ?] [? ?]. unfold near. lra. Qed.

Lemma near_sqrt (k a A : R) :
  0 <= A -> 0 <= k <= 1 -> near k a A -> near k (sqrt a) (sqrt A).
Proof.
  intros HA Hk [Hlo Hhi]. pose proof (sqrt_pos A) as Hs.
  pose proof (sqrt_sqrt A HA) as Hss.
  assert (H1 : 0 <= (1 - k) * sqrt A) by (apply Rmult_le_pos; lra).
  assert (H2 : 0 <= (1 + k) * sqrt A) by (apply Rmult_le_pos; lra).
  split.
  - rewrite <- (sqrt_square _ H1). apply sqrt_le_1_alt.
    replace ((1 - k) * sqrt A * ((1 - k) * sqrt A))
      with ((1 - k) * (1 - k) * (sqrt A * sqrt A)) by ring.
    rewrite Hss. nra.
  - rewrite <- (sqrt_square _ H2). apply sqrt_le_1_alt.
    replace ((1 + k) * sqrt A * ((1 + k) * sqrt A))
      with ((1 + k) * (1 + k) * (sqrt A * sqrt A)) by ring.
    rewrite Hss. nra.
Qed.

Lemma near_square (k q T : R) :
  0 <= T -> 0 <= k <= 1 -> near k q T -> near (3 * k) (q * q) (T * T).
Proof.
  intros HT Hk [Hlo Hhi]. unfold near.
  assert (H1 : 0 <= (1 - k) * T) by (apply Rmult_le_pos; lra).
  assert (Hq : 0 <= q) by lra.
  assert (Hl : (1 - k) * T * ((1 - k) * T) <= q * q)
    by (apply Rmult_le_compat; lra).
  assert (Hh : q * q <= (1 + k) * T * ((1 + k) * T))
    by (apply Rmult_le_compat; lra).
  assert (HTT : 0 <= T * T) by (apply Rmult_le_pos; lra).
  assert (Hkk : 0 <= k * k <= k) by nra.
  assert (Hkt : 0 <= k * (T * T)) by (apply Rmult_le_pos; lra).
  assert (Hkkt : k * k * (T * T) <= k * (T * T))
    by (apply Rmult_le_compat_r; lra).
  assert (Hkkt0 : 0 <= k * k * (T * T)) by (apply Rmult_le_pos; lra).
  split; [apply Rle_trans with ((1 - k) * T * ((1 - k) * T)); [| exact Hl]
         | apply Rle_trans with ((1 + k) * T * ((1 + k) * T)); [exact Hh |]];
    ring_simplify; ring_simplify in Hkkt; ring_simplify in Hkkt0;
    ring_simplify in Hkt; nra.
Qed.

Lemma near_div (k X n N : R) :
  0 <= X -> 0 < N -> 0 <= k <= 1 / 2 -> near k n N ->
  near (2 * k) (X / n) (X / N).
Proof.
  intros HX HN Hk [Hlo Hhi].
  assert (Hn : 0 < n) by nra.
  unfold near, Rdiv.
  assert (Hi : / N * (1 - 2 * k) <= / n <= / N * (1 + 2 * k)).
  { split.
    - apply Rmult_le_reg_r with (n * N); [nra |].
      replace (/ N * (1 - 2 * k) * (n * N)) with ((1 - 2 * k) * n) by (field; lra).
      replace (/ n * (n * N)) with N by (field; lra). nra.
    - apply Rmult_le_reg_r with (n * N); [nra |].
      replace (/ N * (1 + 2 * k) * (n * N)) with ((1 + 2 * k) * n) by (field; lra).
      replace (/ n * (n * N)) with N by (field; lra). nra. }
  assert (0 < / N) by (apply Rinv_0_lt_compat; lra).
  split; nra.
Qed.

(** *** The operations of [norm] and [normalize] on zeros and normal doubles *)

Lemma SF2R_zero (c : spec_float) : is_zero c = true -> SF2R c = 0.
Proof. destruct c; try discriminate. reflexivity. Qed.

Lemma nonneg_normal_value (a : spec_float) : nonneg_normal a -> 0 <= SF2R a.
Proof.
  intros [-> | [Hn Hs]]; [cbn; lra |]. left. now apply normal64_pos_value.
Qed.

Lemma pow2_square (e : Z) : pow2 e * pow2 e = pow2 (2 * e).
Proof. rewrite <- pow2_add. f_equal. lia. Qed.

Lemma Rabs_square (c : R) : Rabs c * Rabs c = c * c.
Proof. rewrite <- Rabs_mult. apply Rabs_pos_eq. nra. Qed.

Lemma square_bounds (lo hi : Z) (c : R) :
  pow2 lo <= Rabs c <= pow2 hi -> pow2 (2 * lo) <= c * c <= pow2 (2 * hi).
Proof.
  intros [Hlo Hhi]. rewrite <- !pow2_square, <- (Rabs_square c).
  pose proof (pow2_pos lo). pose proof (pow2_pos hi). split; nra.
Qed.

Lemma square_chain (lo hi : Z) (c : spec_float) :
  (-511 <= lo)%Z -> (hi <= 511)%Z -> zero_or_normal lo hi c ->
  nonneg_normal (fmul c c) /\ near round_err (SF2R (fmul c c)) (SF2R c * SF2R c).
Proof.
  intros Hlo Hhi [Hz | [Hn Hr]].
  - destruct c as [s | | |]; try discriminate. split.
    + left. cbn. now destruct s.
    + cbn. unfold near. lra.
  - pose proof (square_bounds lo hi _ Hr) as Hsq.
    assert (Hrange : pow2 (-1022) <= Rabs (SF2R c) * Rabs (SF2R c) < pow2 1023).
    { rewrite Rabs_square. split.
      - apply Rle_trans with (pow2 (2 * lo)); [apply pow2_le; lia | apply Hsq].
      - apply Rle_lt_trans with (pow2 (2 * hi)); [apply Hsq | apply pow2_lt; lia]. }
    destruct (mul_error c c Hn Hn Hrange) as (Hnr & Hs & He).
    rewrite xorb_nilpotent in Hs. ieee. split.
    + right. split; assumption.
    + rewrite sign_false_abs, Rabs_square in He by assumption.
      apply near_of_error; [nra | exact He].
Qed.

Lemma add_chain (a b : spec_float) :
  nonneg_normal a -> nonneg_normal b -> SF2R a + SF2R b < pow2 1023 ->
  nonneg_normal (fadd a b) /\ near round_err (SF2R (fadd a b)) (SF2R a + SF2R b).
Proof.
  intros [-> | [Hna Hsa]] [-> | [Hnb Hsb]] Hrange; ieee.
  - split; [left; reflexivity |]. cbn. unfold near. lra.
  - destruct b as [| | | sb mb eb]; try contradiction.
    cbn [SFadd]. split; [right; split; assumption |].
    change (SF2R (S754_zero false)) with 0. rewrite Rplus_0_l. apply near_refl.
    + unfold round_err. lra.
    + left. now apply normal64_pos_value.
  - destruct a as [| | | sa ma ea]; try contradiction.
    cbn [SFadd]. split; [right; split; assumption |].
    change (SF2R (S754_zero false)) with 0. rewrite Rplus_0_r. apply near_refl.
    + unfold round_err. lra.
    + left. now apply normal64_pos_value.
  - destruct (add_error a b Hna Hnb Hsa Hsb Hrange) as (Hn & Hs & He).
    split; [right; split; assumption |].
    apply near_of_error; [| exact He].
    pose proof (normal64_pos_value a Hna Hsa). pose proof (normal64_pos_value b Hnb Hsb).
    lra.
Qed.

Lemma sqrt_chain (a : spec_float) :
  nonneg_normal a ->
  nonneg_normal (fsqrt a) /\ near round_err (SF2R (fsqrt a)) (sqrt (SF2R a)).
Proof.
  intros [-> | [Hn Hs]]; ieee.
  - split; [left; reflexivity |]. cbn. rewrite sqrt_0. unfold near. lra.
  - destruct (sqrt_error a Hn Hs) as (Hnr & Hsr & He).
    split; [right; split; assumption |].
    apply near_of_error; [apply sqrt_pos | exact He].
Qed.

Lemma zn_square_le (lo hi : Z) (c : spec_float) :
  zero_or_normal lo hi c -> 0 <= SF2R c * SF2R c <= pow2 (2 * hi).
Proof.
  intros [Hz | [_ Hr]].
  - rewrite (SF2R_zero c Hz). pose proof (pow2_pos (2 * hi)). lra.
  - pose proof (square_bounds lo hi _ Hr). pose proof (pow2_pos (2 * lo)). lra.
Qed.

Lemma pow2_2 : pow2 2 = 4.
Proof. unfold pow2, powerRZ. simpl. lra. Qed.

Lemma pow2_3 : pow2 3 = 8.
Proof. unfold pow2, powerRZ. simpl. lra. Qed.

(** [norm] of a vector of doubles that are zero or of magnitude between
    [2^lo] and [2^hi]: seven roundings at most separate it from the exact
    norm of the values. *)
Lemma norm_chain (lo hi : Z) (v : Vector3.t spec_float) :
  (-511 <= lo)%Z -> (hi <= 500)%Z ->
  zero_or_normal lo hi (Vector3.x v) -> zero_or_normal lo hi (Vector3.y v) ->
  zero_or_normal lo hi (Vector3.z v) ->
  nonneg_normal (Vector3.norm v) /\
  near (7 * round_err) (SF2R (Vector3.norm v))
       (sqrt (SF2R (Vector3.x v) * SF2R (Vector3.x v)
              + SF2R (Vector3.y v) * SF2R (Vector3.y v)
              + SF2R (Vector3.z v) * SF2R (Vector3.z v))).
Proof.
  intros Hlo Hhi Hx Hy Hz. destruct v as [x y z]. cbn [Vector3.x Vector3.y Vector3.z] in *.
  unfold Vector3.norm. cbn [Vector3.x Vector3.y Vector3.z].
  destruct (square_chain lo hi x ltac:(lia) ltac:(lia) Hx) as [Nx Ex].
  destruct (square_chain lo hi y ltac:(lia) ltac:(lia) Hy) as [Ny Ey].
  destruct (square_chain lo hi z ltac:(lia) ltac:(lia) Hz) as [Nz Ez].
  pose proof (zn_square_le lo hi x Hx) as Bx.
  pose proof (zn_square_le lo hi y Hy) as By.
  pose proof (zn_square_le lo hi z Hz) as Bz.
  set (X2 := SF2R x * SF2R x) in *. set (Y2 := SF2R y * SF2R y) in *.
  set (Z2 := SF2R z * SF2R z) in *.
  set (ax := fmul x x) in *. set (ay := fmul y y) in *. set (az := fmul z z) in *.
  set (b := pow2 (2 * hi)) in *.
  assert (Hb4 : 4 * b < pow2 1023).
  { unfold b. rewrite <- pow2_2, <- pow2_add. apply pow2_lt. lia. }
  assert (Hb8 : 8 * b < pow2 1023).
  { unfold b. rewrite <- pow2_3, <- pow2_add. apply pow2_lt. lia. }
  assert (Heps : round_err = 1 / 1000000000000000) by reflexivity.
  (* x*x + y*y *)
  assert (R1 : SF2R ax + SF2R ay < pow2 1023).
  { destruct Ex as [_ Ex], Ey as [_ Ey]. nra. }
  destruct (add_chain ax ay Nx Ny R1) as [N1 E1].
  set (s1 := fadd ax ay) in *.
  assert (E1' : near (3 * round_err) (SF2R s1) (X2 + Y2)).
  { replace (3 * round_err) with (round_err + 2 * round_err) by ring.
    apply near_step with (SF2R ax + SF2R ay); try lra; try assumption.
    now apply near_add. }
  (* ... + z*z *)
  assert (R2 : SF2R s1 + SF2R az < pow2 1023).
  { destruct E1' as [_ E1'], Ez as [_ Ez]. nra. }
  destruct (add_chain s1 az N1 Nz R2) as [N2 E2].
  set (s2 := fadd s1 az) in *.
  assert (E2' : near (5 * round_err) (SF2R s2) (X2 + Y2 + Z2)).
  { replace (5 * round_err) with (3 * round_err + 2 * round_err) by ring.
    apply near_step with (SF2R s1 + SF2R az); try lra; try assumption.
    apply near_add; [assumption |].
    apply near_weaken with round_err; [lra | lra | assumption]. }
  (* the square root *)
  destruct (sqrt_chain s2 N2) as [N3 E3].
  split; [exact N3 |].
  replace (7 * round_err) with (5 * round_err + 2 * round_err) by ring.
  apply near_step with (sqrt (SF2R s2)); try lra; try assumption.
  - apply sqrt_pos.
  - apply near_sqrt; [lra | lra | assumption].
Qed.

Lemma near_trans (k1 k2 k b a A : R) :
  0 <= A -> 0 <= k1 -> 0 <= k2 <= 1 -> k1 + k2 + k1 * k2 <= k ->
  near k1 b a -> near k2 a A -> near k b A.
Proof.
  intros HA Hk1 Hk2 Hk [Hlo Hhi] [Hlo' Hhi'].
  assert (Ha : 0 <= a) by nra.
  assert (H1 : k1 * a <= k1 * ((1 + k2) * A)) by (apply Rmult_le_compat_l; lra).
  assert (H2 : 0 <= k1 * k2 * A) by (apply Rmult_le_pos; [apply Rmult_le_pos |]; lra).
  assert (H3 : (k1 + k2 + k1 * k2) * A <= k * A) by (apply Rmult_le_compat_r; lra).
  unfold near. split; nra.
Qed.

Lemma pow2_half (e : Z) : pow2 (e - 1) = pow2 e / 2.
Proof.
  replace e with (1 + (e - 1))%Z at 2 by lia. rewrite pow2_add.
  assert (H1 : pow2 1 = 2) by (unfold pow2, powerRZ; simpl; lra). rewrite H1. lra.
Qed.

(** A component divided by the computed norm. *)
Lemma div_chain (c n : spec_float) (N : R) :
  zero_or_normal (-200) 200 c -> normal64 n -> sign_of n = false ->
  0 < N -> near (7 * round_err) (SF2R n) N -> Rabs (SF2R c) <= N -> N <= pow2 201 ->
  zero_or_normal (-404) 2 (fdiv c n) /\
  near (16 * round_err) (Rabs (SF2R (fdiv c n))) (Rabs (SF2R c) / N).
Proof.
  intros Hc Hn Hs HN Hnear HcN HNB.
  assert (Heps : round_err = 1 / 1000000000000000) by reflexivity.
  destruct Hc as [Hz | [Hcn Hr]]; ieee.
  - destruct c as [s | | |]; try discriminate.
    destruct n as [| | | sn mn en]; try contradiction.
    cbn [SFdiv]. split; [left; reflexivity |].
    cbn [SF2R]. rewrite Rabs_R0. unfold near, Rdiv. lra.
  - pose proof (normal64_pos_value n Hn Hs) as Hnpos.
    set (C := Rabs (SF2R c)) in *. set (N' := SF2R n) in *.
    assert (HT : pow2 (-401) <= C / N <= 1).
    { split.
      - apply Rmult_le_reg_r with N; [lra |].
        unfold Rdiv. rewrite Rmult_assoc, Rinv_l, Rmult_1_r by lra.
        apply Rle_trans with (pow2 (-401) * pow2 201).
        + apply Rmult_le_compat_l; [left; apply pow2_pos | lra].
        + rewrite <- pow2_add. apply Hr.
      - apply Rmult_le_reg_r with N; [lra |].
        unfold Rdiv. rewrite Rmult_assoc, Rinv_l by lra. lra. }
    assert (Hratio : near (14 * round_err) (C / N') (C / N)).
    { replace (14 * round_err) with (2 * (7 * round_err)) by ring.
      apply near_div; try lra; try assumption. unfold C. apply Rabs_pos. }
    pose proof (pow2_half (-401)) as Hh. change (-401 - 1)%Z with (-402)%Z in Hh.
    pose proof (pow2_pos (-401)) as Hp401.
    assert (Hrange : pow2 (-1020) <= C / N' < pow2 1023).
    { destruct Hratio as [Hlo Hhi]. split.
      - apply Rle_trans with (pow2 (-402)); [apply pow2_le; lia |]. nra.
      - apply Rle_lt_trans with 4; [nra |]. rewrite <- pow2_2. apply pow2_lt. lia. }
    unfold C, N' in Hrange. rewrite <- (sign_false_abs n Hn Hs) in Hrange.
    destruct (div_error c n Hcn Hn Hrange) as (Hnq & _ & He).
    rewrite (sign_false_abs n Hn Hs) in He. fold C N' in He.
    assert (Hq : near (16 * round_err) (Rabs (SF2R (SFdiv prec emax c n))) (C / N)).
    { replace (16 * round_err) with (14 * round_err + 2 * round_err) by ring.
      apply near_step with (C / N'); try lra; try assumption.
      apply near_of_error; [| exact He].
      destruct Hratio as [Hlo _]. nra. }
    split; [| exact Hq].
    right. split; [exact Hnq |]. destruct Hq as [Hlo Hhi]. split.
    + apply Rle_trans with (pow2 (-402)); [apply pow2_le; lia |]. nra.
    + rewrite pow2_2. nra.
Qed.

Lemma Rabs_le_sqrt_sum (a b c : R) :
  Rabs a <= sqrt (a * a + b * b + c * c).
Proof.
  rewrite <- (sqrt_Rsqr_abs a). apply sqrt_le_1_alt. unfold Rsqr. nra.
Qed.

Lemma nonneg_normal_positive (a : spec_float) :
  nonneg_normal a -> 0 < SF2R a -> normal64 a /\ sign_of a = false.
Proof.
  intros [-> | H] Hpos; [cbn in Hpos; lra | exact H].
Qed.

Lemma normal64_not_zero (a : spec_float) :
  normal64 a -> feq a (of_Z 0) = false.
Proof.
  destruct a as [| | | s m e]; try contradiction. intros _. ieee.
  cbn. now destruct s.
Qed.

(** The norm of the normalized vector, on zeros and normal doubles of
    magnitude between [2^-200] and [2^200]. *)
Lemma norm_normalize_binary64 (v : Vector3.t spec_float) :
  zero_or_normal (-200) 200 (Vector3.x v) ->
  zero_or_normal (-200) 200 (Vector3.y v) ->
  zero_or_normal (-200) 200 (Vector3.z v) ->
  (SF2R (Vector3.x v) <> 0 \/ SF2R (Vector3.y v) <> 0 \/ SF2R (Vector3.z v) <> 0) ->
  is_finite (Vector3.norm (Vector3.normalize v)) = true /\
  Rabs (SF2R (Vector3.norm (Vector3.normalize v)) - 1) <= 1 / 10000000000000.
Proof.
  intros Hx Hy Hz Hnz.
  assert (Heps : round_err = 1 / 1000000000000000) by reflexivity.
  destruct (norm_chain (-200) 200 v ltac:(lia) ltac:(lia) Hx Hy Hz) as [Nn En].
  pose proof (zn_square_le _ _ _ Hx) as Bx.
  pose proof (zn_square_le _ _ _ Hy) as By.
  pose proof (zn_square_le _ _ _ Hz) as Bz.
  change (2 * 200)%Z with 400%Z in Bx, By, Bz.
  set (X := SF2R (Vector3.x v)) in *. set (Y := SF2R (Vector3.y v)) in *.
  set (Z := SF2R (Vector3.z v)) in *.
  set (S := X * X + Y * Y + Z * Z) in *.
  assert (HS : 0 < S) by (unfold S; destruct Hnz as [H | [H | H]]; nra).
  set (N := sqrt S) in *.
  assert (HN : 0 < N) by (apply sqrt_lt_R0; exact HS).
  assert (HNN : N * N = S) by (apply sqrt_sqrt; lra).
  assert (HNB : N <= pow2 201).
  { unfold N. rewrite <- (sqrt_pow2_even 201). apply sqrt_le_1_alt.
    change (2 * 201)%Z with (2 + 400)%Z. rewrite pow2_add, pow2_2. unfold S. lra. }
  (* the norm is a positive normal double *)
  assert (Hnpos : 0 < SF2R (Vector3.norm v))
    by (apply (near_pos (7 * round_err) _ N); lra || assumption).
  destruct (nonneg_normal_positive _ Nn Hnpos) as [Hnn Hns].
  rewrite normalize_divides by (now apply normal64_not_zero).
  set (n := Vector3.norm v) in *.
  (* the three quotients *)
  destruct (div_chain (Vector3.x v) n N Hx Hnn Hns HN En
              ltac:(apply Rabs_le_sqrt_sum) HNB) as [Qx Ex].
  destruct (div_chain (Vector3.y v) n N Hy Hnn Hns HN En
              ltac:(unfold N, S;
                    replace (X * X + Y * Y + Z * Z) with (Y * Y + X * X + Z * Z) by ring;
                    apply Rabs_le_sqrt_sum) HNB) as [Qy Ey].
  destruct (div_chain (Vector3.z v) n N Hz Hnn Hns HN En
              ltac:(unfold N, S;
                    replace (X * X + Y * Y + Z * Z) with (Z * Z + X * X + Y * Y) by ring;
                    apply Rabs_le_sqrt_sum) HNB) as [Qz Ez].
  fold X in Ex. fold Y in Ey. fold Z in Ez.
  set (qx := fdiv (Vector3.x v) n) in *. set (qy := fdiv (Vector3.y v) n) in *.
  set (qz := fdiv (Vector3.z v) n) in *.
  (* the norm of the quotients *)
  destruct (norm_chain (-404) 2 (Vector3.mk qx qy qz) ltac:(lia) ltac:(lia) Qx Qy Qz)
    as [Nr Er].
  cbn [Vector3.x Vector3.y Vector3.z] in Er.
  set (r := Vector3.norm (Vector3.mk qx qy qz)) in *.
  split.
  { destruct Nr as [-> | [Hr _]]; [reflexivity |].
    destruct r; try contradiction. reflexivity. }
  (* the squares of the quotients add up to one, nearly *)
  assert (HTx : 0 <= Rabs X / N)
    by (apply Rmult_le_pos; [apply Rabs_pos | left; now apply Rinv_0_lt_compat]).
  assert (HTy : 0 <= Rabs Y / N)
    by (apply Rmult_le_pos; [apply Rabs_pos | left; now apply Rinv_0_lt_compat]).
  assert (HTz : 0 <= Rabs Z / N)
    by (apply Rmult_le_pos; [apply Rabs_pos | left; now apply Rinv_0_lt_compat]).
  pose proof (near_square (16 * round_err) _ _ HTx ltac:(lra) Ex) as Sx.
  pose proof (near_square (16 * round_err) _ _ HTy ltac:(lra) Ey) as Sy.
  pose proof (near_square (16 * round_err) _ _ HTz ltac:(lra) Ez) as Sz.
  rewrite Rabs_square in Sx, Sy, Sz.
  pose proof (near_add _ _ _ _ _ (near_add _ _ _ _ _ Sx Sy) Sz) as Ssum.
  assert (Hone : Rabs X / N * (Rabs X / N) + Rabs Y / N * (Rabs Y / N)
                 + Rabs Z / N * (Rabs Z / N) = 1).
  { replace (Rabs X / N * (Rabs X / N)) with (Rabs X * Rabs X / (N * N)) by (field; lra).
    replace (Rabs Y / N * (Rabs Y / N)) with (Rabs Y * Rabs Y / (N * N)) by (field; lra).
    replace (Rabs Z / N * (Rabs Z / N)) with (Rabs Z * Rabs Z / (N * N)) by (field; lra).
    rewrite !Rabs_square, HNN. unfold S. field. fold S. lra. }
  rewrite Hone in Ssum.
  assert (Ssq := near_sqrt (3 * (16 * round_err)) _ 1 ltac:(lra) ltac:(lra) Ssum).
  rewrite sqrt_1 in Ssq.
  assert (Hfinal : near (56 * round_err) (SF2R r) 1).
  { apply near_trans with (7 * round_err) (3 * (16 * round_err))
      (sqrt (SF2R qx * SF2R qx + SF2R qy * SF2R qy + SF2R qz * SF2R qz));
      [lra | lra | lra | rewrite Heps; lra | exact Er | exact Ssq]. }
  destruct Hfinal as [Hlo Hhi]. apply Rabs_le. lra.
Qed.

Lemma moderate_zero_or_normal (c : spec_float) :
  moderate c -> zero_or_normal (-200) 200 c.
Proof.
  intros (Hd & Hf & Hv).
  destruct c as [s | s | | s m e]; try discriminate.
  - left. reflexivity.
  - right.
    assert (Hne : SF2R (S754_finite s m e) <> 0).
    { intros H0. pose proof (Rabs_SF2R_finite s m e) as Ha.
      rewrite H0, Rabs_R0 in Ha. pose proof (pow2_pos e).
      assert (0 < IZR (Zpos m)) by (apply IZR_lt; lia). nra. }
    destruct Hv as [H0 | Hr]; [contradiction |].
    split; [| exact Hr].
    rewrite Rabs_SF2R_finite in Hr.
    pose proof (mantissa_range m e) as Hmr. cbv zeta in Hmr.
    assert (Hlt : (-200 < Zpos (digits2_pos m) + e)%Z) by (apply pow2_lt_inv; lra).
    unfold is_double, valid_binary, bounded, canonical_mantissa in Hd.
    apply andb_prop in Hd. destruct Hd as [Hc He].
    apply Z.eqb_eq in Hc. apply Z.leb_le in He.
    rewrite fexp_normal in Hc by lia. unfold emax, prec in He.
    cbn [normal64]. lia.
Qed.

(** On doubles of moderate magnitude the norm of the normalized vector is
    1 up to [10^-13]. *)
Lemma norm_normalize_moderate (v : Vector3.t spec_float) :
  moderate (Vector3.x v) -> moderate (Vector3.y v) -> moderate (Vector3.z v) ->
  (SF2R (Vector3.x v) <> 0 \/ SF2R (Vector3.y v) <> 0 \/ SF2R (Vector3.z v) <> 0) ->
  flt (of_Z 0) (Vector3.norm v) = true /\
  is_finite (Vector3.norm (Vector3.normalize v)) = true /\
  Rabs (SF2R (Vector3.norm (Vector3.normalize v)) - 1) <= 1 / 10000000000000.
Proof.
  intros Hx Hy Hz Hnz.
  apply moderate_zero_or_normal in Hx, Hy, Hz.
  split; [| now apply norm_normalize_binary64].
  destruct (norm_chain (-200) 200 v ltac:(lia) ltac:(lia) Hx Hy Hz) as [Nn En].
  assert (HS : 0 < SF2R (Vector3.x v) * SF2R (Vector3.x v)
                   + SF2R (Vector3.y v) * SF2R (Vector3.y v)
                   + SF2R (Vector3.z v) * SF2R (Vector3.z v))
    by (destruct Hnz as [H | [H | H]]; nra).
  apply sqrt_lt_R0 in HS.
  assert (Hpos : 0 < SF2R (Vector3.norm v)).
  { apply (near_pos (7 * round_err) _ _ HS); [unfold round_err; lra | exact En]. }
  destruct (nonneg_normal_positive _ Nn Hpos) as [Hn Hs].
  destruct (Vector3.norm v) as [| | | s m e]; try contradiction.
  cbn [sign_of] in Hs. subst s. reflexivity.
Qed.

End RoundingError.

(** C7, as the code has it.  In exact real arithmetic the normalized vector
    of every vector of positive norm has norm exactly 1.  In double
    arithmetic, for every vector whose components are doubles that are zero
    or of magnitude between [2^-200] and [2^200], not all zero, the norm is
    greater than zero and the norm of the normalized vector is a finite
    double within [10^-13] of 1, hence within the tolerance [0.005]. *)
Theorem C7_norm_of_normalized :
  (forall v : Vector3.t R,
      (0 < Vector3.norm v)%R -> Vector3.norm (Vector3.normalize v) = 1%R) /\
  (forall v : Vector3.t spec_float,
      moderate (Vector3.x v) -> moderate (Vector3.y v) -> moderate (Vector3.z v) ->
      (SF2R (Vector3.x v) <> 0 \/ SF2R (Vector3.y v) <> 0
       \/ SF2R (Vector3.z v) <> 0)%R ->
      flt (of_Z 0) (Vector3.norm v) = true /\
      is_finite (Vector3.norm (Vector3.normalize v)) = true /\
      (Rabs (SF2R (Vector3.norm (Vector3.normalize v)) - 1)
       <= 1 / 10000000000000)%R /\
      (Rabs (SF2R (Vector3.norm (Vector3.normalize v)) - 1) < 5 / 1000)%R).
Proof.
  split; [exact norm_normalize_exact |].
  intros v Hx Hy Hz Hnz.
  destruct (norm_normalize_moderate v Hx Hy Hz Hnz) as (Hpos & Hfin & Hclose).
  repeat split; try assumption. lra.
Qed.

Lemma moderate_zero (s : bool) : moderate (S754_zero s).
Proof. repeat split. now left. Qed.

Lemma moderate_three : moderate (of_Z 3).
Proof.
  split; [reflexivity |]. split; [reflexivity |]. right.
  assert (H3 : SF2R (of_Z 3) = 3%R) by (real_values; lra).
  rewrite H3, Rabs_pos_eq by lra.
  pose proof (pow2_le (-200) 0 ltac:(lia)) as Hlo.
  pose proof (pow2_le 2 200 ltac:(lia)) as Hhi.
  rewrite pow2_2 in Hhi. change (pow2 0) with 1%R in Hlo. lra.
Qed.

(** The vector [(3, 0, 4)], in reals, and the vector [(3, 0, 0)], in
    doubles. *)
Lemma C7_witness :
  ((0 < Vector3.norm (vecR 3 0 4))%R /\
   Vector3.norm (Vector3.normalize (vecR 3 0 4)) = 1%R) /\
  (Rabs (SF2R (Vector3.norm (Vector3.normalize (vec 3 0 0))) - 1) < 5 / 1000)%R.
Proof.
  split.
  - assert (Hn : Vector3.norm (vecR 3 0 4) = 5%R).
    { unfold Vector3.norm, vecR; cbn [Vector3.x Vector3.y Vector3.z]. reals.
      replace (3 * 3 + 0 * 0 + 4 * 4)%R with (5 * 5)%R by ring.
      apply sqrt_square. lra. }
    assert (Hp : (0 < Vector3.norm (vecR 3 0 4))%R) by (rewrite Hn; lra).
    split; [exact Hp |].
    exact (proj1 C7_norm_of_normalized (vecR 3 0 4) Hp).
  - apply (proj2 C7_norm_of_normalized (vec 3 0 0)).
    + exact moderate_three.
    + exact (moderate_zero false).
    + exact (moderate_zero false).
    + left. assert (H3 : SF2R (of_Z 3) = 3%R) by (real_values; lra).
      unfold vec; cbn [Vector3.x]. rewrite H3. lra.
Defined.

(** C7 as stated fails on doubles.  The squares of [(10^200, 0, 0)]
    overflow: its norm is [+infinity], which is greater than zero, every
    component divided by it is zero, and the norm of the normalized vector
    is 0.  The square of the first component of [v_tiny], about
    [3 * 10^-162], underflows to a subnormal number: the norm is greater than zero and
    the norm of the normalized vector is about 0.954.  Both are farther
    than [0.005] from 1. *)
Lemma C7_counterexample :
  (is_double3 v_huge /\
   flt (of_Z 0) (Vector3.norm v_huge) = true /\
   Vector3.norm v_huge = S754_infinity false /\
   Vector3.normalize v_huge = vec 0 0 0 /\
   Vector3.norm (Vector3.normalize v_huge) = of_Z 0 /\
   ~ strictly_inside (fsub (Vector3.norm (Vector3.normalize v_huge)) (of_Z 1))) /\
  (is_double3 v_tiny /\
   flt (of_Z 0) (Vector3.norm v_tiny) = true /\
   Vector3.norm (Vector3.normalize v_tiny)
   = S754_finite false 8596144328305384 (-53) /\
   ~ strictly_inside (fsub (Vector3.norm (Vector3.normalize v_tiny)) (of_Z 1))).
Proof.
  split; repeat split; try (vm_compute; reflexivity);
    intros [Hlo _]; vm_compute in Hlo; discriminate.
Qed.

(** ** [Plane::getTangentPlane] *)

Lemma tangentSeed_cases {num} `{Arith num} (line : Line.t num) :
  (feq (Vector3.z (Line.d line)) (of_Z 0) = true ->
   Plane.tangentSeed line = Vector3.mk (of_Z 0) (of_Z 0) (of_Z 1)) /\
  (feq (Vector3.z (Line.d line)) (of_Z 0) = false ->
   Plane.tangentSeed line
   = Vector3.mk (of_Z 0) (of_Z 1)
       (fdiv (fneg (Vector3.y (Line.d line))) (Vector3.z (Line.d line)))).
Proof.
  unfold Plane.tangentSeed.
  split; intros Hz; rewrite Hz; reflexivity.
Qed.

Lemma getTangentPlane_parts {num} `{Arith num} (line : Line.t num) :
  Plane.p (Plane.getTangentPlane line) = Line.p line /\
  Plane.d1 (Plane.getTangentPlane line) = Plane.tangentSeed line /\
  Plane.d2 (Plane.getTangentPlane line)
  = Vector3.cross (Plane.tangentSeed line) (Line.d line).
Proof. repeat split. Qed.

Lemma cross_dot_right_exact (a d : Vector3.t R) :
  Vector3.op_dot (Vector3.cross a d) d = 0%R.
Proof.
  unfold Vector3.op_dot, Vector3.cross; cbn [Vector3.x Vector3.y Vector3.z].
  reals. ring.
Qed.

Lemma tangentSeed_dot_exact (line : Line.t R) :
  Vector3.op_dot (Plane.tangentSeed line) (Line.d line) = 0%R.
Proof.
  destruct (tangentSeed_cases line) as [Hedge Hgen].
  destruct line as [[dx dy dz] p]. cbn [Line.d Vector3.z Vector3.y] in *.
  reals. destruct (Req_dec_T dz 0) as [Hz | Hz].
  - rewrite Hedge by now apply Reqb_true.
    unfold Vector3.op_dot; cbn [Vector3.x Vector3.y Vector3.z]. reals.
    rewrite Hz. ring.
  - rewrite Hgen by now apply Reqb_false.
    unfold Vector3.op_dot; cbn [Vector3.x Vector3.y Vector3.z]. reals.
    field. exact Hz.
Qed.

Lemma tangentSeed_dot_self_exact (line : Line.t R) :
  (1 <= Vector3.op_dot (Plane.tangentSeed line) (Plane.tangentSeed line))%R.
Proof.
  destruct (tangentSeed_cases line) as [Hedge Hgen].
  destruct line as [[dx dy dz] p]. cbn [Line.d Vector3.z Vector3.y] in *.
  reals. destruct (Req_dec_T dz 0) as [Hz | Hz].
  - rewrite Hedge by now apply Reqb_true.
    unfold Vector3.op_dot; cbn [Vector3.x Vector3.y Vector3.z]. reals. lra.
  - rewrite Hgen by now apply Reqb_false.
    unfold Vector3.op_dot; cbn [Vector3.x Vector3.y Vector3.z]. reals.
    set (q := (- dy / dz)%R). nra.
Qed.

(** Comparing equal to zero. *)
Lemma feq_zero_inv (a : spec_float) :
  feq a (of_Z 0) = true -> exists s, a = S754_zero s.
Proof.
  destruct a as [s | s | | s m e]; ieee; cbn; try discriminate.
  - intros _. now exists s.
  - destruct s; discriminate.
  - destruct s; discriminate.
Qed.

Lemma is_zero_feq (a : spec_float) : is_zero a = true -> feq a (of_Z 0) = true.
Proof. destruct a; try discriminate. reflexivity. Qed.

(** In doubles, the branch [line.d.z == 0]. *)
Lemma tangent_edge_d1_binary64 (line : Line.t spec_float) :
  feq (Vector3.z (Line.d line)) (of_Z 0) = true ->
  is_finite (Vector3.x (Line.d line)) = true ->
  is_finite (Vector3.y (Line.d line)) = true ->
  feq (Vector3.op_dot (Plane.d1 (Plane.getTangentPlane line)) (Line.d line))
      (of_Z 0) = true.
Proof.
  destruct line as [[dx dy dz] p]. cbn [Line.d Vector3.x Vector3.y Vector3.z].
  intros Hz Hx Hy.
  destruct (tangentSeed_cases (Line.mk (Vector3.mk dx dy dz) p)) as [Hedge _].
  cbn [Plane.getTangentPlane Plane.d1]. rewrite (Hedge Hz).
  destruct (feq_zero_inv dz Hz) as [sz ->].
  apply is_zero_feq.
  unfold Vector3.op_dot. cbn [Vector3.x Vector3.y Vector3.z Line.d]. ieee.
  destruct dx as [sx | | | sx mx ex], dy as [sy | | | sy my ey]; try discriminate;
    cbn; destruct sz; try destruct sx; try destruct sy; reflexivity.
Qed.

Lemma tangent_edge_d2_binary64 (line : Line.t spec_float) :
  feq (Vector3.z (Line.d line)) (of_Z 0) = true ->
  is_double (Vector3.x (Line.d line)) -> is_double (Vector3.y (Line.d line)) ->
  is_finite (fmul (Vector3.x (Line.d line)) (Vector3.y (Line.d line))) = true ->
  feq (Vector3.op_dot (Plane.d2 (Plane.getTangentPlane line)) (Line.d line))
      (of_Z 0) = true.
Proof.
  destruct line as [[dx dy dz] p]. cbn [Line.d Vector3.x Vector3.y Vector3.z].
  intros Hz Dx Dy Hxy.
  destruct (tangentSeed_cases (Line.mk (Vector3.mk dx dy dz) p)) as [Hedge _].
  cbn [Plane.getTangentPlane Plane.d2]. rewrite (Hedge Hz).
  destruct (feq_zero_inv dz Hz) as [sz ->].
  apply is_zero_feq.
  unfold Vector3.op_dot, Vector3.cross. cbn [Vector3.x Vector3.y Vector3.z Line.d].
  change (of_Z (Arith := binary64) 1) with (S754_finite false 4503599627370496 (-52)).
  change (of_Z (Arith := binary64) 0) with (S754_zero false).
  ieee. rewrite !mul_unit by assumption.
  destruct dx as [sx | sx | | sx mx ex], dy as [sy | sy | | sy my ey];
    try (destruct sx, sy; discriminate); try discriminate.
  - destruct sx, sy, sz; reflexivity.
  - destruct sx, sy, sz; reflexivity.
  - destruct sx, sy, sz; reflexivity.
  - set (x := S754_finite sx mx ex) in *. set (y := S754_finite sy my ey) in *.
    change (SFsub prec emax (SFmul prec emax (S754_zero false) (S754_zero sz)) y)
      with (SFopp y).
    change (SFsub prec emax x (SFmul prec emax (S754_zero false) (S754_zero sz)))
      with x.
    rewrite mul_opp_l, (SFmul_comm y x).
    pose proof (add_opp_self _ Hxy) as Hw.
    destruct (SFadd prec emax (SFopp (SFmul prec emax x y)) (SFmul prec emax x y))
      as [sw | | |]; try discriminate.
    destruct sw, sx, sy, sz; reflexivity.
Qed.

(** C3, as the code has it.  The plane returned by [getTangentPlane] is
    anchored at [line.p]; its first spanning vector is [(0, 0, 1)] when
    [line.d.z == 0] and [(0, 1, -line.d.y / line.d.z)] otherwise, and its
    second one is the cross product of the first with [line.d]; this holds
    in every arithmetic.  In exact real arithmetic both spanning vectors
    have dot product zero with [line.d].  In double arithmetic they have it
    in the branch [line.d.z == 0], when [line.d.x] and [line.d.y] are
    finite doubles and, for the second vector, their product does not
    overflow. *)
Theorem C3_tangent_plane_perpendicular :
  (forall num (A : Arith num) (line : Line.t num),
      Plane.p (Plane.getTangentPlane line) = Line.p line /\
      (feq (Vector3.z (Line.d line)) (of_Z 0) = true ->
       Plane.d1 (Plane.getTangentPlane line)
       = Vector3.mk (of_Z 0) (of_Z 0) (of_Z 1)) /\
      (feq (Vector3.z (Line.d line)) (of_Z 0) = false ->
       Plane.d1 (Plane.getTangentPlane line)
       = Vector3.mk (of_Z 0) (of_Z 1)
           (fdiv (fneg (Vector3.y (Line.d line))) (Vector3.z (Line.d line)))) /\
      Plane.d2 (Plane.getTangentPlane line)
      = Vector3.cross (Plane.d1 (Plane.getTangentPlane line)) (Line.d line)) /\
  (forall line : Line.t R,
      Vector3.op_dot (Plane.d1 (Plane.getTangentPlane line)) (Line.d line) = 0%R /\
      Vector3.op_dot (Plane.d2 (Plane.getTangentPlane line)) (Line.d line) = 0%R) /\
  (forall line : Line.t spec_float,
      feq (Vector3.z (Line.d line)) (of_Z 0) = true ->
      is_double (Vector3.x (Line.d line)) -> is_double (Vector3.y (Line.d line)) ->
      is_finite (Vector3.x (Line.d line)) = true ->
      is_finite (Vector3.y (Line.d line)) = true ->
      feq (Vector3.op_dot (Plane.d1 (Plane.getTangentPlane line)) (Line.d line))
          (of_Z 0) = true /\
      (is_finite (fmul (Vector3.x (Line.d line)) (Vector3.y (Line.d line))) = true ->
       feq (Vector3.op_dot (Plane.d2 (Plane.getTangentPlane line)) (Line.d line))
           (of_Z 0) = true)).
Proof.
  split; [| split].
  - intros num A line. destruct (tangentSeed_cases line) as [Hedge Hgen].
    repeat split; assumption.
  - intros line. split.
    + apply tangentSeed_dot_exact.
    + apply cross_dot_right_exact.
  - intros line Hz Dx Dy Fx Fy. split.
    + now apply tangent_edge_d1_binary64.
    + now apply tangent_edge_d2_binary64.
Qed.

(** In doubles, the line along [(7, 3, 0)] through [(1, 1, 1)]: the branch
    [line.d.z == 0], first spanning vector [(0, 0, 1)], second spanning
    vector [(-3, 7, 0)], both with dot product zero. *)
Lemma C3_witness :
  let line := Line.mk (vec 7 3 0) (vec 1 1 1) in
  Plane.getTangentPlane line = Plane.mk (vec 0 0 1) (vec (-3) 7 0) (vec 1 1 1) /\
  feq (Vector3.op_dot (Plane.d1 (Plane.getTangentPlane line)) (Line.d line))
      (of_Z 0) = true /\
  feq (Vector3.op_dot (Plane.d2 (Plane.getTangentPlane line)) (Line.d line))
      (of_Z 0) = true.
Proof.
  intros line. split; [reflexivity |].
  destruct (proj2 (proj2 C3_tangent_plane_perpendicular) line
              eq_refl eq_refl eq_refl eq_refl eq_refl) as [H1 H2].
  split; [exact H1 | exact (H2 eq_refl)].
Defined.

(** C3 as stated fails on doubles: for the direction
    [(0, 2^60, 49 * 2^60)] the general branch takes
    [a.z = -(1/49)] rounded, and the dot product of the first spanning
    vector with the direction is 128, not 0. *)
Lemma C3_counterexample :
  is_double3 (Line.d line_49) /\
  feq (Vector3.z (Line.d line_49)) (of_Z 0) = false /\
  Vector3.op_dot (Plane.d1 (Plane.getTangentPlane line_49)) (Line.d line_49)
  = of_Z 128 /\
  feq (Vector3.op_dot (Plane.d1 (Plane.getTangentPlane line_49)) (Line.d line_49))
      (of_Z 0) = false.
Proof. repeat split; vm_compute; reflexivity. Qed.

(** ** The normal of the tangent plane *)

Lemma tangent_normal_unfold {num} `{Arith num} (line : Line.t num) :
  Plane.norm (Plane.getTangentPlane line)
  = Vector3.cross (Plane.tangentSeed line)
      (Vector3.cross (Plane.tangentSeed line) (Line.d line)).
Proof. reflexivity. Qed.

(** The vector triple product [a x (a x d)] for [a] orthogonal to [d]. *)
Lemma triple_product_exact (a d : Vector3.t R) :
  Vector3.op_dot a d = 0%R ->
  Vector3.cross a (Vector3.cross a d)
  = Vector3.op_scale (- Vector3.op_dot a a)%R d.
Proof.
  destruct a as [ax ay az], d as [dx dy dz].
  unfold Vector3.op_dot, Vector3.cross, Vector3.op_scale.
  cbn [Vector3.x Vector3.y Vector3.z]. reals. intros Hd.
  f_equal.
  - replace (ay * (ax * dy - ay * dx) - az * (az * dx - ax * dz))%R
      with (ax * (ax * dx + ay * dy + az * dz)
            + - (ax * ax + ay * ay + az * az) * dx)%R by ring.
    rewrite Hd. ring.
  - replace (az * (ay * dz - az * dy) - ax * (ax * dy - ay * dx))%R
      with (ay * (ax * dx + ay * dy + az * dz)
            + - (ax * ax + ay * ay + az * az) * dy)%R by ring.
    rewrite Hd. ring.
  - replace (ax * (az * dx - ax * dz) - ay * (ay * dz - az * dy))%R
      with (az * (ax * dx + ay * dy + az * dz)
            + - (ax * ax + ay * ay + az * az) * dz)%R by ring.
    rewrite Hd. ring.
Qed.

Lemma scale_nonzero_exact (k : R) (d : Vector3.t R) :
  k <> 0%R -> d <> vecR 0 0 0 -> Vector3.op_scale k d <> vecR 0 0 0.
Proof.
  destruct d as [dx dy dz]. unfold Vector3.op_scale, vecR.
  cbn [Vector3.x Vector3.y Vector3.z]. reals.
  intros Hk Hd Heq. injection Heq as Hx Hy Hz. apply Hd.
  f_equal; [ destruct (Rmult_integral _ _ Hx) | destruct (Rmult_integral _ _ Hy)
           | destruct (Rmult_integral _ _ Hz) ]; (contradiction || assumption).
Qed.

(** In doubles, the branch [line.d.z == 0]: the identity holds up to the
    sign of zero components. *)
Lemma tangent_edge_normal_binary64 (line : Line.t spec_float) :
  feq (Vector3.z (Line.d line)) (of_Z 0) = true ->
  is_double (Vector3.x (Line.d line)) -> is_double (Vector3.y (Line.d line)) ->
  is_finite (Vector3.x (Line.d line)) = true ->
  is_finite (Vector3.y (Line.d line)) = true ->
  let a := Plane.tangentSeed line in
  let n := Plane.norm (Plane.getTangentPlane line) in
  let m := Vector3.op_scale (fneg (Vector3.op_dot a a)) (Line.d line) in
  same_number (Vector3.x n) (Vector3.x m) /\
  same_number (Vector3.y n) (Vector3.y m) /\
  same_number (Vector3.z n) (Vector3.z m).
Proof.
  destruct line as [[dx dy dz] p]. cbn [Line.d Vector3.x Vector3.y Vector3.z].
  intros Hz Dx Dy Fx Fy.
  destruct (tangentSeed_cases (Line.mk (Vector3.mk dx dy dz) p)) as [Hedge _].
  rewrite tangent_normal_unfold. cbv zeta. rewrite (Hedge Hz). clear Hedge.
  destruct (feq_zero_inv dz Hz) as [sz ->]. clear Hz.
  unfold Vector3.op_dot, Vector3.cross, Vector3.op_scale.
  cbn [Vector3.x Vector3.y Vector3.z Line.d].
  change (of_Z (Arith := binary64) 1) with (S754_finite false 4503599627370496 (-52)).
  change (of_Z (Arith := binary64) 0) with (S754_zero false).
  ieee.
  change (SFopp (SFadd prec emax
             (SFadd prec emax (SFmul prec emax (S754_zero false) (S754_zero false))
                (SFmul prec emax (S754_zero false) (S754_zero false)))
             (SFmul prec emax (S754_finite false 4503599627370496 (-52))
                (S754_finite false 4503599627370496 (-52)))))
    with (S754_finite true 4503599627370496 (-52)).
  destruct dx as [sx | sx | | sx mx ex], dy as [sy | sy | | sy my ey];
    try discriminate; destruct sx, sy, sz;
    repeat match goal with
    | |- context [SFmul prec emax (S754_finite ?s 4503599627370496 (-52))
                    (S754_finite ?t ?m ?e)] =>
        rewrite (mul_unit s (S754_finite t m e)) by (exact Dx || exact Dy)
    | |- context [SFmul prec emax (S754_finite ?s 4503599627370496 (-52))
                    (S754_zero ?t)] =>
        change (SFmul prec emax (S754_finite s 4503599627370496 (-52)) (S754_zero t))
          with (S754_zero (xorb s t))
    | |- context [SFmul prec emax (S754_zero ?s) (S754_zero ?t)] =>
        change (SFmul prec emax (S754_zero s) (S754_zero t)) with (S754_zero (xorb s t))
    | |- context [SFmul prec emax (S754_zero ?s) (S754_finite ?t ?m ?e)] =>
        change (SFmul prec emax (S754_zero s) (S754_finite t m e))
          with (S754_zero (xorb s t))
    | _ => progress cbn [SFsub SFopp negb xorb]
    end;
    repeat split; first [left; reflexivity | right; split; reflexivity].
Qed.

(** C9, as the code has it.  The normal derived from the tangent plane is
    [cross(a, cross(a, line.d))], [a] being the first spanning vector the
    construction chose; this holds in every arithmetic.  In exact real
    arithmetic [dot(a, line.d) = 0] and [dot(a, a) >= 1], the normal equals
    [-dot(a, a) * line.d], and it is not the zero vector when [line.d] is
    not.  In double arithmetic the normal equals [-dot(a, a) * line.d], up
    to the sign of zero components, in the branch [line.d.z == 0] when
    [line.d.x] and [line.d.y] are finite doubles. *)
Theorem C9_tangent_normal_antiparallel :
  (forall num (A : Arith num) (line : Line.t num),
      Plane.norm (Plane.getTangentPlane line)
      = Vector3.cross (Plane.tangentSeed line)
          (Vector3.cross (Plane.tangentSeed line) (Line.d line))) /\
  (forall line : Line.t R,
      let a := Plane.tangentSeed line in
      Vector3.op_dot a (Line.d line) = 0%R /\
      (1 <= Vector3.op_dot a a)%R /\
      Plane.norm (Plane.getTangentPlane line)
      = Vector3.op_scale (- Vector3.op_dot a a)%R (Line.d line) /\
      (Line.d line <> vecR 0 0 0 ->
       Plane.norm (Plane.getTangentPlane line) <> vecR 0 0 0)) /\
  (forall line : Line.t spec_float,
      feq (Vector3.z (Line.d line)) (of_Z 0) = true ->
      is_double (Vector3.x (Line.d line)) -> is_double (Vector3.y (Line.d line)) ->
      is_finite (Vector3.x (Line.d line)) = true ->
      is_finite (Vector3.y (Line.d line)) = true ->
      let a := Plane.tangentSeed line in
      let n := Plane.norm (Plane.getTangentPlane line) in
      let m := Vector3.op_scale (fneg (Vector3.op_dot a a)) (Line.d line) in
      same_number (Vector3.x n) (Vector3.x m) /\
      same_number (Vector3.y n) (Vector3.y m) /\
      same_number (Vector3.z n) (Vector3.z m)).
Proof.
  split; [| split].
  - intros num A line. apply tangent_normal_unfold.
  - intros line a.
    pose proof (tangentSeed_dot_exact line) as Hd.
    pose proof (tangentSeed_dot_self_exact line) as Ha.
    assert (Hn : Plane.norm (Plane.getTangentPlane line)
                 = Vector3.op_scale (- Vector3.op_dot a a)%R (Line.d line)).
    { rewrite tangent_normal_unfold. now apply triple_product_exact. }
    repeat split; try assumption.
    intros Hnz. rewrite Hn. apply scale_nonzero_exact; [| exact Hnz].
    fold a in Ha. lra.
  - exact tangent_edge_normal_binary64.
Qed.

(** In reals, the line along [(0, 3, 4)]: [a = (0, 1, -3/4)] and the
    normal is not zero.  In doubles, the line along [(7, 3, 0)]: the normal
    is [(-7, -3, 0)]. *)
Lemma C9_witness :
  Plane.norm (Plane.getTangentPlane (Line.mk (vecR 0 3 4) (vecR 0 0 0)))
  <> vecR 0 0 0 /\
  (let line := Line.mk (vec 7 3 0) (vec 0 0 0) in
   let a := Plane.tangentSeed line in
   let n := Plane.norm (Plane.getTangentPlane line) in
   let m := Vector3.op_scale (fneg (Vector3.op_dot a a)) (Line.d line) in
   same_number (Vector3.x n) (Vector3.x m) /\
   same_number (Vector3.y n) (Vector3.y m) /\
   same_number (Vector3.z n) (Vector3.z m)).
Proof.
  split.
  - apply (proj1 (proj2 C9_tangent_normal_antiparallel)
             (Line.mk (vecR 0 3 4) (vecR 0 0 0))).
    unfold vecR; cbn [Line.d]. intros Heq. injection Heq as H3 H4. lra.
  - apply (proj2 (proj2 C9_tangent_normal_antiparallel)
             (Line.mk (vec 7 3 0) (vec 0 0 0))); reflexivity.
Defined.

(** C9 as stated fails on doubles.  For the direction
    [(7 * 2^60, 2^120, 3 * 2^120)] the normal of the tangent plane and
    [-dot(a, a) * line.d] differ in their first component by 1024.  For the
    direction [(0, 2^600, 2^-600)] the quotient [-line.d.y / line.d.z]
    overflows and the normal is [(NaN, -infinity, NaN)], no multiple of the
    direction. *)
Lemma C9_counterexample :
  (is_double3 (Line.d line_713) /\
   let a := Plane.tangentSeed line_713 in
   let n := Plane.norm (Plane.getTangentPlane line_713) in
   let m := Vector3.op_scale (fneg (Vector3.op_dot a a)) (Line.d line_713) in
   n <> m /\ Vector3.op_eq n m = false /\
   fsub (Vector3.x m) (Vector3.x n) = of_Z (-1024)) /\
  (is_double3 (Line.d line_steep) /\
   Plane.norm (Plane.getTangentPlane line_steep)
   = Vector3.mk S754_nan (S754_infinity true) S754_nan).
Proof.
  split; repeat split; try (vm_compute; reflexivity).
  vm_compute. discriminate.
Qed.

(** ** [Tri::norm] *)

Lemma tri_norm_unfold {num} `{Arith num} (tri : Tri.t num) :
  Tri.norm tri
  = Vector3.normalize
      (Vector3.cross (Vector3.op_sub (Tri.p1 tri) (Tri.p0 tri))
                     (Vector3.op_sub (Tri.p2 tri) (Tri.p0 tri))).
Proof. reflexivity. Qed.

Lemma cross_collinear_exact (p0 p1 p2 : Vector3.t R) :
  collinear p0 p1 p2 ->
  Vector3.cross (Vector3.op_sub p1 p0) (Vector3.op_sub p2 p0) = vecR 0 0 0.
Proof.
  intros (u & s & t & -> & ->). rewrite !op_sub_exact.
  destruct p0 as [a b c], u as [ux uy uz].
  unfold Vector3.cross, Vector3.op_add, Vector3.op_scale, vecR.
  cbn [Vector3.x Vector3.y Vector3.z]. reals. f_equal; ring.
Qed.

Lemma tri_norm_collinear_exact (tri : Tri.t R) :
  collinear (Tri.p0 tri) (Tri.p1 tri) (Tri.p2 tri) ->
  Tri.norm tri = vecR 0 0 0.
Proof.
  intros Hc. rewrite tri_norm_unfold, (cross_collinear_exact _ _ _ Hc).
  apply normalize_unchanged. reals. apply Reqb_true.
  now apply norm_exact_zero.
Qed.

Lemma tri_norm_unit_exact : Tri.norm tri_unitR = vecR 0 0 1.
Proof.
  rewrite tri_norm_unfold. unfold tri_unitR; cbn [Tri.p0 Tri.p1 Tri.p2].
  rewrite !op_sub_exact. unfold vecR, Vector3.cross.
  cbn [Vector3.x Vector3.y Vector3.z]. reals.
  replace (0 - 0)%R with 0%R by ring. replace (1 - 0)%R with 1%R by ring.
  replace (0 * 0 - 0 * 1)%R with 0%R by ring.
  replace (0 * 0 - 1 * 0)%R with 0%R by ring.
  replace (1 * 1 - 0 * 0)%R with 1%R by ring.
  assert (Hn : Vector3.norm (Vector3.mk 0 0 1)%R = 1%R).
  { unfold Vector3.norm; cbn [Vector3.x Vector3.y Vector3.z]. reals.
    replace (0 * 0 + 0 * 0 + 1 * 1)%R with 1%R by ring. apply sqrt_1. }
  rewrite normalize_divides by (rewrite Hn; reals; apply Reqb_false; lra).
  rewrite Hn. cbn [Vector3.x Vector3.y Vector3.z]. reals. f_equal; field.
Qed.

Lemma tri_norm_zero_cross_binary64 (tri : Tri.t spec_float) :
  let c := Vector3.cross (Vector3.op_sub (Tri.p1 tri) (Tri.p0 tri))
                         (Vector3.op_sub (Tri.p2 tri) (Tri.p0 tri)) in
  is_zero (Vector3.x c) = true -> is_zero (Vector3.y c) = true ->
  is_zero (Vector3.z c) = true ->
  Tri.norm tri = c.
Proof.
  intros c Hx Hy Hz. rewrite tri_norm_unfold. fold c.
  now apply normalize_zeros_binary64.
Qed.

(** In doubles, a triangle with a repeated vertex: the cross product is a
    vector of zeros as long as the differences stay finite. *)
Lemma sub_self (w : spec_float) :
  is_finite w = true -> is_zero (SFsub prec emax w w) = true.
Proof.
  intros Hw. rewrite <- add_opp_sub.
  destruct w as [s | s | | s m e]; try discriminate.
  - destruct s; reflexivity.
  - cbn [SFopp SFadd].
    replace (cond_Zopp s (Z.pos (fst (shl_align m e (Z.min e e))))
             + cond_Zopp (negb s) (Z.pos (fst (shl_align m e (Z.min e e)))))%Z with 0%Z.
    + reflexivity.
    + destruct s; cbn [negb cond_Zopp]; lia.
Qed.

Lemma sub_zeros (a b : spec_float) :
  is_zero a = true -> is_zero b = true -> is_zero (SFsub prec emax a b) = true.
Proof.
  destruct a as [sa | | |], b as [sb | | |]; try discriminate.
  intros _ _. destruct sa, sb; reflexivity.
Qed.

Lemma mul_zero_finite_l (a b : spec_float) :
  is_zero a = true -> is_finite b = true -> is_zero (SFmul prec emax a b) = true.
Proof.
  destruct a as [sa | | |], b as [sb | | | sb mb eb]; try discriminate; reflexivity.
Qed.

Lemma mul_finite_zero_r (a b : spec_float) :
  is_finite a = true -> is_zero b = true -> is_zero (SFmul prec emax a b) = true.
Proof.
  destruct a as [sa | | | sa ma ea], b as [sb | | |]; try discriminate; reflexivity.
Qed.

Lemma cross_zero_l (a b : Vector3.t spec_float) :
  is_zero3 a -> is_finite3 b -> is_zero3 (Vector3.cross a b).
Proof.
  intros (Ax & Ay & Az) (Bx & By & Bz).
  unfold Vector3.cross, is_zero3; cbn [Vector3.x Vector3.y Vector3.z]. ieee.
  repeat split; apply sub_zeros; apply mul_zero_finite_l; assumption.
Qed.

Lemma cross_zero_r (a b : Vector3.t spec_float) :
  is_finite3 a -> is_zero3 b -> is_zero3 (Vector3.cross a b).
Proof.
  intros (Ax & Ay & Az) (Bx & By & Bz).
  unfold Vector3.cross, is_zero3; cbn [Vector3.x Vector3.y Vector3.z]. ieee.
  repeat split; apply sub_zeros; apply mul_finite_zero_r; assumption.
Qed.

Lemma cross_self (a : Vector3.t spec_float) :
  is_finite (fmul (Vector3.y a) (Vector3.z a)) = true ->
  is_finite (fmul (Vector3.z a) (Vector3.x a)) = true ->
  is_finite (fmul (Vector3.x a) (Vector3.y a)) = true ->
  is_zero3 (Vector3.cross a a).
Proof.
  intros Hyz Hzx Hxy.
  unfold Vector3.cross, is_zero3; cbn [Vector3.x Vector3.y Vector3.z]. ieee.
  rewrite (SFmul_comm (Vector3.z a) (Vector3.y a)).
  rewrite (SFmul_comm (Vector3.x a) (Vector3.z a)).
  rewrite (SFmul_comm (Vector3.y a) (Vector3.x a)).
  repeat split; apply sub_self; assumption.
Qed.

Lemma op_sub_self (p : Vector3.t spec_float) :
  is_double3 p -> is_finite3 p -> is_zero3 (Vector3.op_sub p p).
Proof.
  intros Hd (Fx & Fy & Fz). rewrite op_sub_binary64 by assumption.
  unfold is_zero3; cbn [Vector3.x Vector3.y Vector3.z].
  repeat split; apply sub_self; assumption.
Qed.

Lemma tri_norm_repeated_vertex_binary64 (tri : Tri.t spec_float) :
  let d1 := Vector3.op_sub (Tri.p1 tri) (Tri.p0 tri) in
  let d2 := Vector3.op_sub (Tri.p2 tri) (Tri.p0 tri) in
  (Tri.p1 tri = Tri.p0 tri /\ is_double3 (Tri.p0 tri) /\ is_finite3 (Tri.p0 tri)
   /\ is_finite3 d2) \/
  (Tri.p2 tri = Tri.p0 tri /\ is_double3 (Tri.p0 tri) /\ is_finite3 (Tri.p0 tri)
   /\ is_finite3 d1) \/
  (Tri.p2 tri = Tri.p1 tri
   /\ is_finite (fmul (Vector3.y d1) (Vector3.z d1)) = true
   /\ is_finite (fmul (Vector3.z d1) (Vector3.x d1)) = true
   /\ is_finite (fmul (Vector3.x d1) (Vector3.y d1)) = true) ->
  is_zero3 (Tri.norm tri).
Proof.
  intros d1 d2 H.
  assert (Hc : is_zero3 (Vector3.cross d1 d2)).
  { destruct H as [(E & Hd & Hf & Hf2) | [(E & Hd & Hf & Hf1) | (E & Hyz & Hzx & Hxy)]].
    - apply cross_zero_l; [| exact Hf2]. unfold d1. rewrite E. now apply op_sub_self.
    - apply cross_zero_r; [exact Hf1 |]. unfold d2. rewrite E. now apply op_sub_self.
    - unfold d2. rewrite E. fold d1. now apply cross_self. }
  destruct Hc as (Hx & Hy & Hz).
  rewrite (tri_norm_zero_cross_binary64 tri Hx Hy Hz). repeat split; assumption.
Qed.

(** C8, as the code has it.  The normal of a triangle is
    [normalize(cross(p1 - p0, p2 - p0))], in every arithmetic.  In exact
    real arithmetic it is the zero vector when the vertices are collinear.
    In double arithmetic it is the computed cross product when that is a
    vector of zeros, which is the case when two vertices are the same
    doubles and the differences and products involved stay finite.  The
    triangle [(0,0,0)], [(1,0,0)], [(0,1,0)] has normal [(0,0,1)], in
    doubles and in reals. *)
Theorem C8_tri_normal :
  (forall num (A : Arith num) (tri : Tri.t num),
      Tri.norm tri
      = Vector3.normalize
          (Vector3.cross (Vector3.op_sub (Tri.p1 tri) (Tri.p0 tri))
                         (Vector3.op_sub (Tri.p2 tri) (Tri.p0 tri)))) /\
  (forall tri : Tri.t R,
      collinear (Tri.p0 tri) (Tri.p1 tri) (Tri.p2 tri) ->
      Tri.norm tri = vecR 0 0 0) /\
  (forall tri : Tri.t spec_float,
      let c := Vector3.cross (Vector3.op_sub (Tri.p1 tri) (Tri.p0 tri))
                             (Vector3.op_sub (Tri.p2 tri) (Tri.p0 tri)) in
      is_zero (Vector3.x c) = true -> is_zero (Vector3.y c) = true ->
      is_zero (Vector3.z c) = true ->
      Tri.norm tri = c) /\
  (forall tri : Tri.t spec_float,
      let d1 := Vector3.op_sub (Tri.p1 tri) (Tri.p0 tri) in
      let d2 := Vector3.op_sub (Tri.p2 tri) (Tri.p0 tri) in
      (Tri.p1 tri = Tri.p0 tri /\ is_double3 (Tri.p0 tri)
       /\ is_finite3 (Tri.p0 tri) /\ is_finite3 d2) \/
      (Tri.p2 tri = Tri.p0 tri /\ is_double3 (Tri.p0 tri)
       /\ is_finite3 (Tri.p0 tri) /\ is_finite3 d1) \/
      (Tri.p2 tri = Tri.p1 tri
       /\ is_finite (fmul (Vector3.y d1) (Vector3.z d1)) = true
       /\ is_finite (fmul (Vector3.z d1) (Vector3.x d1)) = true
       /\ is_finite (fmul (Vector3.x d1) (Vector3.y d1)) = true) ->
      is_zero3 (Tri.norm tri)) /\
  Tri.norm tri_unit = vec 0 0 1 /\
  Tri.norm tri_unitR = vecR 0 0 1.
Proof.
  repeat apply conj.
  - intros num A tri. apply tri_norm_unfold.
  - exact tri_norm_collinear_exact.
  - exact tri_norm_zero_cross_binary64.
  - exact tri_norm_repeated_vertex_binary64.
  - vm_compute. reflexivity.
  - exact tri_norm_unit_exact.
Qed.

(** In doubles: the triangle [(0,0,0)], [(1,2,3)], [(2,4,6)], whose cross
    product is a vector of zeros, and the triangle [(1,2,3)], [(1,2,3)],
    [(5,7,9)], whose first two vertices are the same. *)
Lemma C8_witness :
  Tri.norm (Tri.mk (vec 0 0 0) (vec 1 2 3) (vec 2 4 6)) = vec 0 0 0 /\
  is_zero3 (Tri.norm (Tri.mk (vec 1 2 3) (vec 1 2 3) (vec 5 7 9))).
Proof.
  split.
  - apply (proj1 (proj2 (proj2 C8_tri_normal))
             (Tri.mk (vec 0 0 0) (vec 1 2 3) (vec 2 4 6)));
      reflexivity.
  - apply (proj1 (proj2 (proj2 (proj2 C8_tri_normal)))
             (Tri.mk (vec 1 2 3) (vec 1 2 3) (vec 5 7 9))).
    left. repeat split.
Defined.

(** C8 as stated fails on doubles: the vertices [(-1, -3, 0)],
    [(2^-53, 3 * 2^-53, 0)], [(1, 3, 0)] are doubles and are collinear,
    but [p1 - p0] rounds to [(1, 3 + 2^-51, 0)], the cross product is
    [(0, 0, -2^-50)] and the normal returned is [(0, 0, -1)]. *)
Lemma C8_counterexample :
  is_double3 (Tri.p0 tri_on_line) /\ is_double3 (Tri.p1 tri_on_line) /\
  is_double3 (Tri.p2 tri_on_line) /\
  collinear (value3 (Tri.p0 tri_on_line)) (value3 (Tri.p1 tri_on_line))
            (value3 (Tri.p2 tri_on_line)) /\
  Tri.norm tri_on_line = vec 0 0 (-1) /\
  Vector3.op_eq (Tri.norm tri_on_line) (vec 0 0 0) = false.
Proof.
  repeat apply conj; try (vm_compute; reflexivity).
  exists (vecR 1 3 0), (1 + / IZR (2 ^ 53))%R, 2%R.
  rewrite <- (Z.pow_pos_fold 2 53).
  unfold vecR, Vector3.op_add, Vector3.op_scale.
  cbn [Vector3.x Vector3.y Vector3.z]. reals.
  split; real_values; cbn [Vector3.x Vector3.y Vector3.z]; f_equal; lra.
Qed.

(** ** [operator std::string] *)

Lemma digit_is_digit (n : N) : is_digit (digit n) = true.
Proof.
  unfold digit.
  assert (Hlt : (n mod 10 < 10)%N) by (apply N.mod_upper_bound; discriminate).
  set (k := (n mod 10)%N) in *.
  assert (Hk : (k = 0 \/ k = 1 \/ k = 2 \/ k = 3 \/ k = 4 \/ k = 5 \/ k = 6
                \/ k = 7 \/ k = 8 \/ k = 9)%N) by lia.
  repeat (destruct Hk as [-> | Hk]; [reflexivity |]). rewrite Hk. reflexivity.
Qed.

Lemma fraction6_shape (n : N) :
  String.length (fraction6 n) = 6%nat /\ all_digits (fraction6 n) = true.
Proof.
  split; [reflexivity |]. unfold fraction6. cbn [all_digits].
  rewrite !digit_is_digit. reflexivity.
Qed.

Lemma string_of_uint_digits (d : Decimal.uint) :
  all_digits (NilEmpty.string_of_uint d) = true.
Proof. induction d; cbn; auto. Qed.

Lemma integer_part_shape (n : N) :
  integer_part n <> EmptyString /\ all_digits (integer_part n) = true.
Proof.
  unfold integer_part, NilZero.string_of_uint.
  destruct (N.to_uint (n / 10 ^ 6)) as [| d | d | d | d | d | d | d | d | d | d];
    (split; [discriminate |]); try reflexivity;
    cbn [NilEmpty.string_of_uint all_digits]; apply string_of_uint_digits.
Qed.

Lemma fixed6_shape (s : bool) (n : N) :
  six_decimals (sign_string s ++ fixed6 n).
Proof.
  exists (sign_string s), (integer_part n), (fraction6 n).
  destruct (integer_part_shape n) as [Hne Hd].
  destruct (fraction6_shape n) as [Hl Hf].
  repeat split; try assumption.
  destruct s; [right | left]; reflexivity.
Qed.

Lemma std_to_string_finite (b : bool) (v : spec_float) :
  is_finite v = true -> six_decimals (std_to_string b v).
Proof.
  destruct v as [s | s | | s m e]; try discriminate; intros _;
    apply fixed6_shape.
Qed.

(** The rounding of [micro]: the integer returned is nearest to the
    quotient. *)
Lemma round_half_even_nearest (n d : N) :
  (0 < d)%N ->
  (2 * (round_half_even n d * d) <= 2 * n + d
   /\ 2 * n <= 2 * (round_half_even n d * d) + d)%N.
Proof.
  intros Hd. unfold round_half_even.
  pose proof (N.div_mod n d ltac:(lia)) as Hdm.
  assert (Hr : (n mod d < d)%N) by (apply N.mod_upper_bound; lia).
  set (q := (n / d)%N) in *. set (r := (n mod d)%N) in *.
  destruct (N.compare_spec (2 * r) d) as [He | Hl | Hg];
    [destruct (N.even q) | |]; nia.
Qed.

(** Reading the digits back gives the number of millionths. *)
Lemma read_digits_from_app (acc : N) (s r : string) :
  read_digits_from acc (s ++ r) = read_digits_from (read_digits_from acc s) r.
Proof. revert acc. induction s as [| c s IH]; intros acc; cbn; auto. Qed.

Lemma digit_value_digit (n : N) : digit_value (digit n) = (n mod 10)%N.
Proof.
  unfold digit_value, digit.
  assert (Hlt : (n mod 10 < 10)%N) by (apply N.mod_upper_bound; discriminate).
  set (k := (n mod 10)%N) in *.
  rewrite N_ascii_embedding by lia. lia.
Qed.

Lemma read_fraction6 (acc n : N) :
  read_digits_from acc (fraction6 n) = (acc * 10 ^ 6 + n mod 10 ^ 6)%N.
Proof.
  unfold fraction6. cbn [read_digits_from]. rewrite !digit_value_digit.
  change (10 ^ 6)%N with 1000000%N.
  pose proof (N.Div0.mod_mul_r n 100000 10) as H6.
  pose proof (N.Div0.mod_mul_r n 10000 10) as H5.
  pose proof (N.Div0.mod_mul_r n 1000 10) as H4.
  pose proof (N.Div0.mod_mul_r n 100 10) as H3.
  pose proof (N.Div0.mod_mul_r n 10 10) as H2.
  change (100000 * 10)%N with 1000000%N in H6.
  change (10000 * 10)%N with 100000%N in H5.
  change (1000 * 10)%N with 10000%N in H4.
  change (100 * 10)%N with 1000%N in H3.
  change (10 * 10)%N with 100%N in H2.
  lia.
Qed.

Lemma read_step (k acc : positive) :
  (10 * Npos acc + Npos k)%N = Npos (k + 10 * acc).
Proof. cbn [N.mul N.add]. now rewrite Pos.add_comm. Qed.

Lemma read_uint_acc (d : Decimal.uint) (acc : positive) :
  read_digits_from (Npos acc) (NilEmpty.string_of_uint d)
  = Npos (Pos.of_uint_acc d acc).
Proof.
  revert acc.
  induction d as [| d IH | d IH | d IH | d IH | d IH | d IH | d IH | d IH | d IH | d IH];
    intros acc;
    cbn [NilEmpty.string_of_uint read_digits_from Pos.of_uint_acc];
    try reflexivity; rewrite <- IH; f_equal;
    match goal with
    | |- context [digit_value ?c] =>
        let v := eval vm_compute in (digit_value c) in
        change (digit_value c) with v
    end;
    (reflexivity || apply read_step).
Qed.

Lemma read_uint (d : Decimal.uint) :
  read_digits_from 0 (NilEmpty.string_of_uint d) = Pos.of_uint d.
Proof.
  induction d; cbn [NilEmpty.string_of_uint read_digits_from Pos.of_uint];
    try reflexivity;
    try (rewrite <- read_uint_acc; f_equal; reflexivity).
  exact IHd.
Qed.

Lemma to_uint_nonnil (q : N) : N.to_uint q <> Decimal.Nil.
Proof. destruct q; [discriminate | apply Unsigned.to_uint_nonnil]. Qed.

Lemma read_integer_part (n : N) : read_digits (integer_part n) = (n / 10 ^ 6)%N.
Proof.
  unfold read_digits, integer_part, NilZero.string_of_uint.
  pose proof (to_uint_nonnil (n / 10 ^ 6)) as Hn.
  pose proof (DecimalN.Unsigned.of_to (n / 10 ^ 6)) as Hq.
  destruct (N.to_uint (n / 10 ^ 6)) eqn:E; try congruence;
    rewrite <- Hq; unfold N.of_uint; apply read_uint.
Qed.

Lemma read_fixed6 (n : N) : read_digits (integer_part n ++ fraction6 n) = n.
Proof.
  unfold read_digits. rewrite read_digits_from_app.
  fold (read_digits (integer_part n)). rewrite read_integer_part, read_fraction6.
  pose proof (N.div_mod n (10 ^ 6) ltac:(discriminate)). lia.
Qed.

(** No leading zero. *)
Lemma nzhead_not_D0 (d u : Decimal.uint) : Decimal.nzhead d <> Decimal.D0 u.
Proof. induction d; cbn; try discriminate. exact IHd. Qed.

Lemma to_uint_normal (q : N) : Decimal.unorm (N.to_uint q) = N.to_uint q.
Proof. rewrite <- (DecimalN.Unsigned.of_to q) at 2. symmetry. apply DecimalN.Unsigned.to_of. Qed.

Lemma no_leading_zero_uint (d : Decimal.uint) :
  Decimal.unorm d = d -> no_leading_zero (NilZero.string_of_uint d) = true.
Proof.
  intros Hn. destruct d as [| d | d | d | d | d | d | d | d | d | d];
    try reflexivity; try (destruct d; reflexivity).
  unfold Decimal.unorm in Hn. cbn [Decimal.nzhead] in Hn.
  destruct (Decimal.nzhead d) eqn:E; try discriminate.
  - change Decimal.zero with (Decimal.D0 Decimal.Nil) in Hn.
    injection Hn as <-. reflexivity.
  - exfalso. apply (nzhead_not_D0 d d). rewrite E. congruence.
Qed.

Lemma integer_part_no_leading_zero (n : N) : no_leading_zero (integer_part n) = true.
Proof. apply no_leading_zero_uint, to_uint_normal. Qed.

(** The number of millionths is the nearest one, the even one of two. *)
Lemma round_half_even_tie (n d : N) :
  (0 < d)%N ->
  (2 * (round_half_even n d * d) = 2 * n + d
   \/ 2 * n = 2 * (round_half_even n d * d) + d)%N ->
  N.even (round_half_even n d) = true.
Proof.
  intros Hd. unfold round_half_even.
  pose proof (N.div_mod n d ltac:(lia)) as Hdm.
  assert (Hr : (n mod d < d)%N) by (apply N.mod_upper_bound; lia).
  set (q := (n / d)%N) in *. set (r := (n mod d)%N) in *.
  destruct (N.compare_spec (2 * r) d) as [He | Hl | Hg].
  - intros _. destruct (N.even q) eqn:Eq; [assumption |].
    rewrite N.add_1_r, N.even_succ, <- N.negb_even, Eq. reflexivity.
  - intros [H | H]; exfalso; nia.
  - intros [H | H]; exfalso; nia.
Qed.

Section NearestMillionth.
Local Open Scope R_scope.

Lemma half_window (r y D : R) :
  0 < D -> 2 * (r * D) <= 2 * (y * D) + D -> 2 * (y * D) <= 2 * (r * D) + D ->
  Rabs (r - y) <= 1 / 2.
Proof.
  intros HD H1 H2. apply Rabs_le. split.
  - apply Rmult_le_reg_r with D; [assumption |]. lra.
  - apply Rmult_le_reg_r with D; [assumption |]. lra.
Qed.

Lemma half_tie (r y D : R) :
  0 < D -> Rabs (r - y) = 1 / 2 ->
  2 * (r * D) = 2 * (y * D) + D \/ 2 * (y * D) = 2 * (r * D) + D.
Proof.
  intros HD H. unfold Rabs in H. destruct (Rcase_abs (r - y)) as [Hn | Hp].
  - right. replace r with (y - 1 / 2) by lra. lra.
  - left. replace r with (y + 1 / 2) by lra. lra.
Qed.

Lemma micro_nearest (s : bool) (m : positive) (e : Z) :
  nearest_even (micro m e) (Rabs (SF2R (S754_finite s m e)) * 1000000).
Proof.
  rewrite Rabs_SF2R_finite. unfold nearest_even.
  assert (Hexact : forall p : Z, (0 <= p)%Z ->
            IZR (Z.of_N (Npos m * 10 ^ 6 * 2 ^ Z.to_N p))
            = IZR (Zpos m) * pow2 p * 1000000).
  { intros p Hp. rewrite !N2Z.inj_mul, !N2Z.inj_pow, Z2N.id by assumption.
    rewrite !mult_IZR, (pow2_IZR p Hp).
    change (Z.of_N 10 ^ Z.of_N 6)%Z with 1000000%Z. change (Z.of_N 2) with 2%Z.
    change (Z.of_N (Npos m)) with (Zpos m). ring. }
  destruct e as [| p | k]; cbn [micro].
  - rewrite (Hexact 0%Z) by lia. rewrite Rminus_diag, Rabs_R0. split; lra.
  - rewrite (Hexact (Zpos p)) by lia. rewrite Rminus_diag, Rabs_R0. split; lra.
  - set (n := (Npos m * 10 ^ 6)%N). set (d := (2 ^ Npos k)%N).
    assert (Hd : (0 < d)%N) by (unfold d; apply N.neq_0_lt_0, N.pow_nonzero; discriminate).
    pose proof (round_half_even_nearest n d Hd) as [H1 H2].
    pose proof (round_half_even_tie n d Hd) as Htie.
    set (r := round_half_even n d) in *.
    set (D := IZR (Z.of_N d)).
    assert (HD : 0 < D) by (apply IZR_lt; lia).
    assert (Hp : pow2 (Zneg k) = / D).
    { change (Zneg k) with (- Zpos k)%Z. rewrite pow2_opp, (pow2_IZR (Zpos k)) by lia.
      unfold D, d. rewrite N2Z.inj_pow. reflexivity. }
    set (y := IZR (Zpos m) * pow2 (Zneg k) * 1000000).
    assert (Hy : y * D = IZR (Z.of_N n)).
    { unfold y, n. rewrite Hp, N2Z.inj_mul, mult_IZR.
      change (Z.of_N (10 ^ 6)) with 1000000%Z.
      change (Z.of_N (Npos m)) with (Zpos m). field. lra. }
    assert (Hr : IZR (Z.of_N r) * D = IZR (Z.of_N (r * d))).
    { unfold D. now rewrite N2Z.inj_mul, mult_IZR. }
    split.
    + apply (half_window _ _ D HD); rewrite Hy, Hr; unfold D;
        rewrite <- !mult_IZR, <- plus_IZR; apply IZR_le; lia.
    + intros H. apply Htie.
      destruct (half_tie _ _ D HD H) as [E | E]; rewrite Hy, Hr in E; unfold D in E;
        rewrite <- !mult_IZR, <- plus_IZR in E; apply eq_IZR in E; [left | right]; lia.
Qed.

Lemma zero_nearest : nearest_even 0 (Rabs 0 * 1000000).
Proof.
  unfold nearest_even. cbn [Z.of_N].
  rewrite Rabs_R0, Rmult_0_l, Rminus_diag, Rabs_R0. split; [lra |]. intros H. lra.
Qed.

End NearestMillionth.

(** Strings of digits are determined by their length and their number. *)
Lemma digit_value_bound (c : ascii) : is_digit c = true -> (digit_value c < 10)%N.
Proof.
  unfold is_digit, digit_value. intros H. apply andb_prop in H. destruct H as [H1 H2].
  apply N.leb_le in H1, H2. lia.
Qed.

Lemma digit_value_inj (c c' : ascii) :
  is_digit c = true -> is_digit c' = true -> digit_value c = digit_value c' -> c = c'.
Proof.
  unfold is_digit, digit_value. intros H H' E.
  apply andb_prop in H, H'. destruct H as [H1 _], H' as [H1' _].
  apply N.leb_le in H1, H1'.
  rewrite <- (ascii_N_embedding c), <- (ascii_N_embedding c'). f_equal. lia.
Qed.

Lemma read_from_shift (acc : N) (s : string) :
  read_digits_from acc s = (acc * 10 ^ N.of_nat (String.length s) + read_digits s)%N.
Proof.
  unfold read_digits. revert acc. induction s as [| c s IH]; intros acc.
  - cbn. lia.
  - cbn [read_digits_from String.length]. rewrite (IH (10 * acc + digit_value c)%N),
      (IH (10 * 0 + digit_value c)%N).
    rewrite Nat2N.inj_succ, N.pow_succ_r'. lia.
Qed.

Lemma read_digits_bound (s : string) :
  all_digits s = true -> (read_digits s < 10 ^ N.of_nat (String.length s))%N.
Proof.
  induction s as [| c s IH]; intros H.
  - cbn. lia.
  - cbn [all_digits] in H. apply andb_prop in H. destruct H as [Hc Hs].
    unfold read_digits. cbn [read_digits_from String.length].
    rewrite read_from_shift, Nat2N.inj_succ, N.pow_succ_r'.
    pose proof (digit_value_bound c Hc). specialize (IH Hs).
    set (p := (10 ^ N.of_nat (String.length s))%N) in *. nia.
Qed.

Lemma read_digits_inj (s s' : string) :
  String.length s = String.length s' ->
  all_digits s = true -> all_digits s' = true ->
  read_digits s = read_digits s' -> s = s'.
Proof.
  revert s'. induction s as [| c s IH]; intros [| c' s']; try discriminate.
  - reflexivity.
  - cbn [String.length all_digits]. intros L H H' E.
    injection L as L.
    apply andb_prop in H, H'. destruct H as [Hc Hs], H' as [Hc' Hs'].
    unfold read_digits in E. cbn [read_digits_from] in E.
    rewrite !read_from_shift, <- L in E.
    pose proof (read_digits_bound s Hs) as B.
    pose proof (read_digits_bound s' Hs') as B'. rewrite <- L in B'.
    pose proof (digit_value_bound c Hc). pose proof (digit_value_bound c' Hc').
    set (p := (10 ^ N.of_nat (String.length s))%N) in *.
    assert (Ec : digit_value c = digit_value c') by nia.
    assert (Es : read_digits s = read_digits s') by nia.
    f_equal; [now apply digit_value_inj | now apply IH].
Qed.

(** An integer written without leading zeros: its length follows from its
    number. *)
Lemma read_digits_lower (s : string) :
  all_digits s = true -> no_leading_zero s = true ->
  (2 <= String.length s)%nat ->
  (10 ^ N.of_nat (String.length s - 1) <= read_digits s)%N.
Proof.
  destruct s as [| c [| c' s]]; cbn [String.length]; try lia.
  intros H Hz _. cbn [no_leading_zero] in Hz.
  apply negb_true_iff, Ascii.eqb_neq in Hz.
  cbn [all_digits] in H. apply andb_prop in H. destruct H as [Hc Hs].
  assert (Hc1 : (1 <= digit_value c)%N).
  { destruct (N.eq_dec (digit_value c) 0) as [E | E]; [| lia].
    exfalso. apply Hz. apply digit_value_inj; [assumption | reflexivity | exact E]. }
  unfold read_digits. cbn [read_digits_from]. rewrite read_from_shift.
  replace (S (S (String.length s)) - 1)%nat with (S (String.length s)) by lia.
  rewrite Nat2N.inj_succ, N.pow_succ_r'.
  set (q := (10 ^ N.of_nat (String.length s))%N).
  assert (Hq : (1 * q <= digit_value c * q)%N) by (apply N.mul_le_mono_r; exact Hc1).
  lia.
Qed.

Lemma integer_text_inj (s s' : string) :
  s <> EmptyString -> s' <> EmptyString ->
  all_digits s = true -> all_digits s' = true ->
  no_leading_zero s = true -> no_leading_zero s' = true ->
  read_digits s = read_digits s' -> s = s'.
Proof.
  intros Hn Hn' H H' Hz Hz' E.
  apply read_digits_inj; try assumption.
  assert (Hlen : forall a b : string,
             a <> EmptyString -> all_digits a = true -> all_digits b = true ->
             no_leading_zero b = true -> read_digits a = read_digits b ->
             (String.length b <= String.length a)%nat).
  { intros a b Ha Da Db Zb Eab.
    destruct (Nat.le_gt_cases (String.length b) (String.length a)) as [Hle | Hgt];
      [assumption | exfalso].
    assert (La : (1 <= String.length a)%nat) by (destruct a; [congruence | cbn; lia]).
    pose proof (read_digits_bound a Da) as Ba.
    pose proof (read_digits_lower b Db Zb ltac:(lia)) as Bb.
    assert (Hpow : (10 ^ N.of_nat (String.length a) <= 10 ^ N.of_nat (String.length b - 1))%N)
      by (apply N.pow_le_mono_r; lia).
    lia. }
  apply Nat.le_antisymm; [apply Hlen | apply Hlen]; auto.
Qed.

(** The nearest integer, ties to even, is unique. *)
Lemma nearest_even_unique (n n' : N) (x : R) :
  nearest_even n x -> nearest_even n' x -> n = n'.
Proof.
  intros [H1 T1] [H1' T1'].
  assert (Hstep : forall a b : N,
             (Rabs (IZR (Z.of_N a) - x) <= 1 / 2)%R ->
             (Rabs (IZR (Z.of_N b) - x) <= 1 / 2)%R ->
             (Rabs (IZR (Z.of_N a) - x) = 1 / 2 -> N.even a = true)%R ->
             (Rabs (IZR (Z.of_N b) - x) = 1 / 2 -> N.even b = true)%R ->
             (a <= b)%N -> a = b).
  { intros a b Ha Hb Ta Tb Hle.
    apply Rabs_le_bounds in Ha, Hb.
    assert (Hd : (IZR (Z.of_N b) - IZR (Z.of_N a) <= 1)%R) by lra.
    rewrite <- minus_IZR in Hd. apply le_IZR in Hd.
    destruct (N.eq_dec a b) as [E | E]; [assumption | exfalso].
    assert (Eb : b = (a + 1)%N) by lia. subst b.
    rewrite N2Z.inj_add, plus_IZR in *. change (IZR (Z.of_N 1)) with 1%R in *.
    assert (Ex : (x = IZR (Z.of_N a) + 1 / 2)%R) by lra.
    assert (Ea : N.even a = true).
    { apply Ta. rewrite Ex. replace (IZR (Z.of_N a) - (IZR (Z.of_N a) + 1 / 2))%R
        with (- (1 / 2))%R by lra. rewrite Rabs_Ropp. apply Rabs_pos_eq. lra. }
    assert (Eb : N.even (a + 1) = true).
    { apply Tb. rewrite Ex. replace (IZR (Z.of_N a) + 1 - (IZR (Z.of_N a) + 1 / 2))%R
        with (1 / 2)%R by lra. apply Rabs_pos_eq. lra. }
    rewrite N.add_1_r, N.even_succ, <- N.negb_even, Ea in Eb. discriminate. }
  destruct (N.le_ge_cases n n') as [Hle | Hge].
  - now apply Hstep.
  - symmetry. now apply Hstep.
Qed.

(** The conversion writes a finite double in fixed notation, and fixed
    notation leaves no choice. *)
Lemma std_to_string_fixed (b : bool) (c : spec_float) :
  is_finite c = true -> fixed_notation c (std_to_string b c).
Proof.
  destruct c as [s | | | s m e]; try discriminate; intros _; cbn [std_to_string].
  - exists (integer_part 0), (fraction6 0).
    split; [reflexivity |]. split; [discriminate |].
    do 4 (split; [reflexivity |]).
    rewrite read_fixed6. cbn [SF2R]. apply zero_nearest.
  - exists (integer_part (micro m e)), (fraction6 (micro m e)).
    destruct (integer_part_shape (micro m e)) as [Hne Hd].
    destruct (fraction6_shape (micro m e)) as [Hl Hf].
    split; [reflexivity |]. split; [assumption |]. split; [assumption |].
    split; [apply integer_part_no_leading_zero |].
    split; [assumption |]. split; [assumption |].
    rewrite read_fixed6. apply micro_nearest.
Qed.

Lemma append_inv_head (a s r : string) : (a ++ s)%string = (a ++ r)%string -> s = r.
Proof.
  induction a as [| c a IH]; cbn [append]; [auto |].
  intros E. injection E as E. auto.
Qed.

Lemma read_text (int frac : string) :
  String.length frac = 6%nat -> all_digits frac = true ->
  read_digits int = (read_digits (int ++ frac) / 10 ^ 6)%N /\
  read_digits frac = (read_digits (int ++ frac) mod 10 ^ 6)%N.
Proof.
  intros Hl Hf. pose proof (read_digits_bound frac Hf) as Hb. rewrite Hl in Hb.
  change (N.of_nat 6) with 6%N in Hb.
  unfold read_digits at 2 4. rewrite read_digits_from_app, read_from_shift, Hl.
  change (N.of_nat 6) with 6%N. fold (read_digits int).
  set (p := (10 ^ 6)%N) in *. assert (Hp : (p <> 0)%N) by discriminate.
  split.
  - apply (N.div_unique _ p _ (read_digits frac)); [assumption | lia].
  - apply (N.mod_unique _ p (read_digits int)); [assumption | lia].
Qed.

Lemma fixed_notation_unique (c : spec_float) (t t' : string) :
  fixed_notation c t -> fixed_notation c t' -> t = t'.
Proof.
  intros (int & frac & -> & Hne & Hd & Hz & Hl & Hf & Hn)
         (int' & frac' & -> & Hne' & Hd' & Hz' & Hl' & Hf' & Hn').
  pose proof (nearest_even_unique _ _ _ Hn Hn') as E.
  destruct (read_text int frac Hl Hf) as [Ei Ef].
  destruct (read_text int' frac' Hl' Hf') as [Ei' Ef'].
  rewrite E in Ei, Ef. rewrite <- Ei' in Ei. rewrite <- Ef' in Ef.
  rewrite (integer_text_inj int int' Hne Hne' Hd Hd' Hz Hz' Ei).
  rewrite (read_digits_inj frac frac' ltac:(congruence) Hf Hf' Ef).
  reflexivity.
Qed.

(** C5, as the code has it.  The string of a vector is ["("], the three
    components converted by [std::to_string] and separated by [", "], and
    [")"].  [std::to_string] writes a component as [printf] does for
    ["%f"].  A finite double is written in fixed notation with exactly six
    digits after the decimal point: a minus sign if the sign bit is set,
    the integer digits without leading zeros, a point and six digits, the
    number written being the multiple of [10^-6] nearest to the magnitude
    of the double, the even one of two equally near; no other text fits
    this description.  An infinity is written ["inf"] or ["-inf"], a NaN
    ["nan"] or ["-nan"], according to the sign bit. *)
Theorem C5_toString_six_decimals :
  forall (nan_sign : Vector3.t bool) (v : Vector3.t spec_float),
    toString nan_sign v
    = ("(" ++ std_to_string (Vector3.x nan_sign) (Vector3.x v) ++ ", "
           ++ std_to_string (Vector3.y nan_sign) (Vector3.y v) ++ ", "
           ++ std_to_string (Vector3.z nan_sign) (Vector3.z v) ++ ")")%string /\
    (forall (b : bool) (c : spec_float),
        is_finite c = true ->
        six_decimals (std_to_string b c) /\
        fixed_notation c (std_to_string b c) /\
        (forall text : string, fixed_notation c text -> text = std_to_string b c)) /\
    (forall b s : bool,
        std_to_string b (S754_infinity s) = (sign_string s ++ "inf")%string) /\
    (forall b : bool, std_to_string b S754_nan = (sign_string b ++ "nan")%string).
Proof.
  intros nan_sign v. split; [reflexivity |]. split; [| split; reflexivity].
  intros b c Hc. split; [now apply std_to_string_finite |].
  split; [now apply std_to_string_fixed |].
  intros text Ht. apply (fixed_notation_unique c); [assumption |].
  now apply std_to_string_fixed.
Qed.

(** The vector [(0.0000001, 2.5, 1)]. *)
Lemma C5_witness :
  six_decimals (std_to_string false (Vector3.x v_small)) /\
  fixed_notation (Vector3.x v_small) (std_to_string false (Vector3.x v_small)) /\
  toString clear_signs v_small = "(0.000000, 2.500000, 1.000000)"%string.
Proof.
  destruct (C5_toString_six_decimals clear_signs v_small) as (Hs & Hf & _).
  destruct (Hf false (Vector3.x v_small) eq_refl) as (H6 & Hn & _).
  split; [exact H6 |]. split; [exact Hn |].
  rewrite Hs. reflexivity.
Defined.

(** C5 as stated fails: the conversion cuts and pads to six decimals.  The
    component [0.0000001] is written ["0.000000"], the component [2.5] is
    written ["2.500000"], and the vector [(0.0000001, 0, 0)] has the string
    of the zero vector although it is not the zero vector. *)
Lemma C5_counterexample :
  toString clear_signs v_small = "(0.000000, 2.500000, 1.000000)"%string /\
  toString clear_signs (Vector3.mk (decimal 1 10000000) (of_Z 0) (of_Z 0))
  = toString clear_signs (vec 0 0 0) /\
  feq (decimal 1 10000000) (of_Z 0) = false.
Proof. repeat split; vm_compute; reflexivity. Qed.

(** ** [Object] *)

(** C10.  Both constructors of [Object] leave [position] and [rotation] at
    [(0, 0, 0)]; the default constructor leaves the triangle sequence empty
    and the other one stores the sequence it is given. *)
Theorem C10_object_constructors :
  forall num (A : Arith num) (ts : list (Tri.t num)),
    let zero := Vector3.mk (of_Z 0) (of_Z 0) (of_Z 0) in
    Object.position (num := num) Object.default = zero /\
    Object.rotation (num := num) Object.default = zero /\
    Object.tris (num := num) Object.default = [] /\
    Object.position (Object.of_tris ts) = zero /\
    Object.rotation (Object.of_tris ts) = zero /\
    Object.tris (Object.of_tris ts) = ts.
Proof. intros num A ts zero. repeat split. Qed.

(** * Further properties

    Properties of the operations that hold for the doubles the program
    computes with, beyond those above. *)

(** ** Commutativity and signs in double arithmetic *)

Lemma SFadd_comm (a b : spec_float) : SFadd prec emax a b = SFadd prec emax b a.
Proof.
  destruct a as [sa | sa | | sa ma ea], b as [sb | sb | | sb mb eb];
    try reflexivity; try (destruct sa, sb; reflexivity).
  cbn [SFadd]. rewrite (Z.min_comm eb ea). f_equal. lia.
Qed.

(** Exchanging the operands of a subtraction negates the result; a
    difference that is a zero is [+0] both ways. *)
Lemma binary_round_opp (s : bool) (m : positive) (e : Z) :
  binary_round prec emax (negb s) m e = SFopp (binary_round prec emax s m e).
Proof.
  unfold binary_round. destruct (shl_align m e _) as [mz ez]. apply round_aux_opp.
Qed.

Lemma binary_normalize_opp (m e : Z) :
  same_number (binary_normalize prec emax (- m) e false)
              (SFopp (binary_normalize prec emax m e false)).
Proof.
  destruct m as [| p | p]; cbn [Z.opp binary_normalize].
  - right. split; reflexivity.
  - left. apply (binary_round_opp false).
  - left. rewrite <- (binary_round_opp true). reflexivity.
Qed.

Lemma sub_antisym (a b : spec_float) :
  same_number (SFsub prec emax a b) (SFopp (SFsub prec emax b a)).
Proof.
  destruct a as [sa | sa | | sa ma ea], b as [sb | sb | | sb mb eb];
    try (left; reflexivity);
    try (destruct sa, sb; ((left; reflexivity) || (right; split; reflexivity))).
  cbn [SFsub]. rewrite (Z.min_comm eb ea).
  match goal with
  | |- same_number (binary_normalize _ _ ?x _ _) (SFopp (binary_normalize _ _ ?y _ _)) =>
      replace x with (- y)%Z by lia
  end.
  apply binary_normalize_opp.
Qed.

(** ** Results that are not negative *)

Lemma shr_record_of_loc_m (m : Z) (l : location) : shr_m (shr_record_of_loc m l) = m.
Proof. destruct l as [| []]; reflexivity. Qed.

Lemma shr_fexp_nonneg (m e : Z) (l : location) :
  (0 <= m)%Z -> (0 <= shr_m (fst (shr_fexp prec emax m e l)))%Z.
Proof.
  intros Hm. unfold shr_fexp, shr.
  destruct (fexp prec emax (Zdigits2 m + e) - e)%Z as [| p | p]; cbn [fst];
    rewrite ?shr_record_of_loc_m; try assumption.
  rewrite iter_pos_nat, shr_iter_m by (now rewrite shr_record_of_loc_m).
  rewrite shr_record_of_loc_m. apply Z.div_pos; lia.
Qed.

Lemma round_nearest_even_nonneg (m : Z) (l : location) :
  (0 <= m)%Z -> (0 <= round_nearest_even m l)%Z.
Proof. intros Hm. destruct (round_nearest_even_cases m l) as [E | E]; rewrite E; lia. Qed.

Lemma round_aux_signed (s : bool) (m e : Z) (l : location) :
  (0 <= m)%Z -> signed s (binary_round_aux prec emax s m e l).
Proof.
  intros Hm. unfold binary_round_aux.
  pose proof (shr_fexp_nonneg m e l Hm) as H1.
  destruct (shr_fexp prec emax m e l) as [mrs' e']. cbn [fst] in H1.
  pose proof (shr_fexp_nonneg _ e' loc_Exact
                (round_nearest_even_nonneg _ (loc_of_shr_record mrs') H1)) as H2.
  destruct (shr_fexp prec emax _ e' loc_Exact) as [mrs'' e'']. cbn [fst] in H2.
  destruct (shr_m mrs'') as [| p | p]; [split; reflexivity | | lia].
  destruct (e'' <=? emax - prec)%Z; split; reflexivity.
Qed.

Lemma binary_round_signed (s : bool) (m : positive) (e : Z) :
  signed s (binary_round prec emax s m e).
Proof.
  unfold binary_round. destruct (shl_align m e _) as [mz ez].
  apply round_aux_signed. lia.
Qed.

Lemma nonnegative_signed (a : spec_float) : nonnegative a = true <-> signed false a.
Proof.
  unfold signed. destruct a as [[] | [] | | [] m e]; cbn; split;
    (discriminate || (intros [? ?]; discriminate) || auto).
Qed.

Lemma mul_self_nonnegative (a : spec_float) :
  is_nan a = false -> nonnegative (SFmul prec emax a a) = true.
Proof.
  destruct a as [s | s | | s m e]; try discriminate; intros _;
    try (destruct s; reflexivity).
  apply nonnegative_signed. cbn [SFmul]. rewrite xorb_nilpotent.
  apply round_aux_signed. lia.
Qed.

Lemma add_nonnegative (a b : spec_float) :
  nonnegative a = true -> nonnegative b = true ->
  nonnegative (SFadd prec emax a b) = true.
Proof.
  destruct a as [[] | [] | | [] ma ea], b as [[] | [] | | [] mb eb];
    try discriminate; try reflexivity. intros _ _.
  apply nonnegative_signed. cbn [SFadd cond_Zopp Z.add binary_normalize].
  apply binary_round_signed.
Qed.

Lemma sqrt_nonnegative (a : spec_float) :
  nonnegative a = true -> nonnegative (SFsqrt prec emax a) = true.
Proof.
  destruct a as [[] | [] | | [] m e]; try discriminate; try reflexivity. intros _.
  apply nonnegative_signed. cbn [SFsqrt]. unfold SFsqrt_core_binary.
  set (m' := match (e - 2 * _)%Z with Z.pos _ => _ | Z0 => _ | Z.neg _ => _ end).
  assert (Hm' : (0 <= m')%Z).
  { subst m'. destruct (e - 2 * _)%Z; try lia. apply Z.shiftl_nonneg. lia. }
  pose proof (Z.sqrtrem_spec m' Hm') as Hs.
  destruct (Z.sqrtrem m') as [q r]. apply round_aux_signed. nia.
Qed.

Lemma norm_nonnegative (v : Vector3.t spec_float) :
  has_nan3 v = false -> nonnegative (Vector3.norm v) = true.
Proof.
  unfold has_nan3. intros H.
  apply orb_false_iff in H. destruct H as [H Hz].
  apply orb_false_iff in H. destruct H as [Hx Hy].
  unfold Vector3.norm. ieee.
  apply sqrt_nonnegative. repeat apply add_nonnegative;
    now apply mul_self_nonnegative.
Qed.

Lemma mul_nan_l (b : spec_float) : SFmul prec emax S754_nan b = S754_nan.
Proof. reflexivity. Qed.

Lemma mul_nan_r (a : spec_float) : SFmul prec emax a S754_nan = S754_nan.
Proof. destruct a; reflexivity. Qed.

Lemma add_nan_l (b : spec_float) : SFadd prec emax S754_nan b = S754_nan.
Proof. reflexivity. Qed.

Lemma add_nan_r (a : spec_float) : SFadd prec emax a S754_nan = S754_nan.
Proof. destruct a; reflexivity. Qed.

Lemma div_nan_r (a : spec_float) : SFdiv prec emax a S754_nan = S754_nan.
Proof. destruct a; reflexivity. Qed.

Lemma norm_nan (v : Vector3.t spec_float) :
  has_nan3 v = true -> Vector3.norm v = S754_nan.
Proof.
  unfold has_nan3, Vector3.norm. ieee.
  destruct v as [a b c]; cbn [Vector3.x Vector3.y Vector3.z]. intros H.
  apply orb_true_iff in H. destruct H as [H | H].
  - apply orb_true_iff in H. destruct H as [H | H].
    + destruct a; try discriminate. reflexivity.
    + destruct b; try discriminate. rewrite mul_nan_l, add_nan_r. reflexivity.
  - destruct c; try discriminate. rewrite mul_nan_l, add_nan_r. reflexivity.
Qed.

Lemma div_finite_not_nan (a n : spec_float) :
  is_finite a = true -> nonnegative n = true -> SFeqb n (S754_zero false) = false ->
  is_nan (SFdiv prec emax a n) = false.
Proof.
  destruct a as [sa | sa | | sa ma ea]; try discriminate;
    destruct n as [[] | [] | | [] mn en]; try discriminate; try reflexivity.
  intros _ _ _. cbn [SFdiv]. unfold SFdiv_core_binary.
  set (m' := match (ea - en - _)%Z with Z.pos _ => _ | Z0 => _ | Z.neg _ => _ end).
  assert (Hm' : (0 <= m')%Z).
  { subst m'. destruct (ea - en - _)%Z; try lia. apply Z.shiftl_nonneg. lia. }
  pose proof (Z.div_pos m' (Zpos mn) Hm' ltac:(lia)) as Hq.
  unfold Z.div in Hq. destruct (Z.div_eucl m' (Zpos mn)) as [q r]. cbn [fst] in Hq.
  apply (round_aux_signed _ q _ _ Hq).
Qed.

Lemma div_finite_inf (a : spec_float) :
  is_finite a = true -> is_zero (SFdiv prec emax a (S754_infinity false)) = true.
Proof. destruct a; try discriminate; reflexivity. Qed.

(** ** The comparisons of [operator==] *)

Lemma SFopp_involutive (a : spec_float) : SFopp (SFopp a) = a.
Proof. destruct a as [s | s | | s m e]; cbn; rewrite ?negb_involutive; reflexivity. Qed.

Lemma SFopp_is_double (a : spec_float) : is_double a -> is_double (SFopp a).
Proof. destruct a; exact (fun H => H). Qed.

Lemma compare_cont_antisym (m1 m2 : positive) :
  Pos.compare_cont Eq m2 m1 = CompOpp (Pos.compare_cont Eq m1 m2).
Proof. apply (Pos.compare_antisym m1 m2). Qed.

Lemma SFcompare_opp (a b : spec_float) :
  SFcompare (SFopp a) b = SFcompare (SFopp b) a.
Proof.
  destruct a as [sa | sa | | sa ma ea], b as [sb | sb | | sb mb eb];
    try reflexivity; try (destruct sa, sb; reflexivity).
  destruct sa, sb; cbn [SFopp negb SFcompare]; try reflexivity.
  - rewrite (Z.compare_antisym ea eb), (compare_cont_antisym ma mb).
    destruct (ea ?= eb)%Z; cbn [CompOpp]; try reflexivity.
    now rewrite CompOpp_involutive.
  - rewrite (Z.compare_antisym ea eb), (compare_cont_antisym ma mb).
    destruct (ea ?= eb)%Z; reflexivity.
Qed.

Lemma SFltb_opp (a b : spec_float) : SFltb (SFopp a) b = SFltb (SFopp b) a.
Proof. unfold SFltb. now rewrite SFcompare_opp. Qed.

(** The test of one axis: [d < epsilon && d > -epsilon]. *)
Lemma axis_test_opp (d : spec_float) :
  SFltb (SFopp d) Vector3.epsilon && SFltb (SFopp Vector3.epsilon) (SFopp d)
  = SFltb d Vector3.epsilon && SFltb (SFopp Vector3.epsilon) d.
Proof.
  rewrite (SFltb_opp d Vector3.epsilon).
  rewrite (SFltb_opp Vector3.epsilon (SFopp d)), SFopp_involutive.
  apply andb_comm.
Qed.

Lemma axis_test_zero (d : spec_float) :
  is_zero d = true ->
  SFltb d Vector3.epsilon && SFltb (SFopp Vector3.epsilon) d = true.
Proof. destruct d; try discriminate. reflexivity. Qed.

Lemma axis_test_opposite (d d' : spec_float) :
  opposite d d' ->
  SFltb d Vector3.epsilon && SFltb (SFopp Vector3.epsilon) d
  = SFltb d' Vector3.epsilon && SFltb (SFopp Vector3.epsilon) d'.
Proof.
  intros [E | [Z1 Z2]].
  - rewrite E. apply axis_test_opp.
  - rewrite (axis_test_zero d Z1). symmetry. apply axis_test_zero.
    destruct d'; try discriminate; reflexivity.
Qed.

Lemma axis_test_finite (d : spec_float) :
  SFltb d Vector3.epsilon && SFltb (SFopp Vector3.epsilon) d = true ->
  is_finite d = true.
Proof. destruct d as [s | [] | | s m e]; try reflexivity; discriminate. Qed.

Lemma sub_finite_inv (a b : spec_float) :
  is_finite (SFsub prec emax a b) = true -> is_finite a = true /\ is_finite b = true.
Proof.
  destruct a as [sa | sa | | sa ma ea], b as [sb | sb | | sb mb eb];
    try (split; reflexivity); try discriminate;
    destruct sa, sb; discriminate.
Qed.

Lemma sub_self_not_finite (a : spec_float) :
  is_finite a = false -> SFsub prec emax a a = S754_nan.
Proof. destruct a as [s | [] | | s m e]; try discriminate; reflexivity. Qed.

Lemma op_eq_binary64 (a b : Vector3.t spec_float) :
  is_double3 b ->
  Vector3.op_eq a b
  = (let dx := SFsub prec emax (Vector3.x a) (Vector3.x b) in
     SFltb dx Vector3.epsilon && SFltb (SFopp Vector3.epsilon) dx)
    && (let dy := SFsub prec emax (Vector3.y a) (Vector3.y b) in
        SFltb dy Vector3.epsilon && SFltb (SFopp Vector3.epsilon) dy)
    && (let dz := SFsub prec emax (Vector3.z a) (Vector3.z b) in
        SFltb dz Vector3.epsilon && SFltb (SFopp Vector3.epsilon) dz).
Proof.
  intros Hb. unfold Vector3.op_eq. rewrite (op_sub_binary64 a b Hb).
  reflexivity.
Qed.

Lemma op_eq_sym (a b : Vector3.t spec_float) :
  is_double3 a -> is_double3 b -> Vector3.op_eq a b = Vector3.op_eq b a.
Proof.
  intros Ha Hb. rewrite (op_eq_binary64 a b Hb), (op_eq_binary64 b a Ha).
  cbv zeta.
  rewrite (axis_test_opposite _ _ (sub_antisym (Vector3.x a) (Vector3.x b))).
  rewrite (axis_test_opposite _ _ (sub_antisym (Vector3.y a) (Vector3.y b))).
  rewrite (axis_test_opposite _ _ (sub_antisym (Vector3.z a) (Vector3.z b))).
  reflexivity.
Qed.

Lemma op_eq_finite (a b : Vector3.t spec_float) :
  is_double3 b -> Vector3.op_eq a b = true -> is_finite3 a /\ is_finite3 b.
Proof.
  intros Hb. rewrite (op_eq_binary64 a b Hb). cbv zeta. intros H.
  apply andb_prop in H. destruct H as [H Hz].
  apply andb_prop in H. destruct H as [Hx Hy].
  apply axis_test_finite, sub_finite_inv in Hx, Hy, Hz.
  unfold is_finite3. tauto.
Qed.

Lemma axis_test_self (w : spec_float) :
  (let d := SFsub prec emax w w in
   SFltb d Vector3.epsilon && SFltb (SFopp Vector3.epsilon) d) = is_finite w.
Proof.
  cbv zeta. destruct (is_finite w) eqn:Hf.
  - apply axis_test_zero. now apply sub_self.
  - rewrite (sub_self_not_finite w Hf). reflexivity.
Qed.

Lemma op_eq_refl (v : Vector3.t spec_float) :
  is_double3 v -> (Vector3.op_eq v v = true <-> is_finite3 v).
Proof.
  intros Hv. rewrite (op_eq_binary64 v v Hv). rewrite !axis_test_self.
  unfold is_finite3. rewrite !andb_true_iff. tauto.
Qed.

(** ** Opposite vectors *)

Lemma opposite_zeros (a b : spec_float) :
  is_zero a = true -> is_zero b = true -> opposite a b.
Proof. intros Ha Hb. right. split; [assumption |]. destruct b; try discriminate; reflexivity. Qed.

Lemma opposite_cases (a b : spec_float) :
  opposite a b -> a = SFopp b \/ (is_zero a = true /\ is_zero b = true).
Proof.
  intros [E | [Ha Hb]]; [now left | right]. split; [assumption |].
  destruct b; try discriminate; reflexivity.
Qed.

Lemma opposite_opp (a : spec_float) : opposite (SFopp a) a.
Proof. left. reflexivity. Qed.

Lemma mul_opp_r (a b : spec_float) :
  SFmul prec emax a (SFopp b) = SFopp (SFmul prec emax a b).
Proof. rewrite (SFmul_comm a (SFopp b)), mul_opp_l, (SFmul_comm b a). reflexivity. Qed.

Lemma opposite_mul_self (a b : spec_float) :
  opposite a b -> SFmul prec emax a a = SFmul prec emax b b.
Proof.
  intros H. apply opposite_cases in H. destruct H as [E | [Ha Hb]].
  - rewrite E, mul_opp_l, mul_opp_r. apply SFopp_involutive.
  - destruct a as [[] | | |], b as [[] | | |]; try discriminate; reflexivity.
Qed.

Lemma opposite_norm (u v : Vector3.t spec_float) :
  opposite3 u v -> Vector3.norm u = Vector3.norm v.
Proof.
  intros (Hx & Hy & Hz). unfold Vector3.norm. ieee.
  now rewrite (opposite_mul_self _ _ Hx), (opposite_mul_self _ _ Hy),
    (opposite_mul_self _ _ Hz).
Qed.

Lemma div_opp_l (a n : spec_float) :
  SFdiv prec emax (SFopp a) n = SFopp (SFdiv prec emax a n).
Proof.
  destruct a as [sa | sa | | sa ma ea], n as [sn | sn | | sn mn en];
    cbn [SFdiv SFopp]; try reflexivity; try (destruct sa, sn; reflexivity).
  destruct (SFdiv_core_binary prec emax (Zpos ma) ea (Zpos mn) en) as [[mz ez] lz].
  rewrite <- round_aux_opp. destruct sa, sn; reflexivity.
Qed.

Lemma div_opp_r (a n : spec_float) :
  SFdiv prec emax a (SFopp n) = SFopp (SFdiv prec emax a n).
Proof.
  destruct a as [sa | sa | | sa ma ea], n as [sn | sn | | sn mn en];
    cbn [SFdiv SFopp]; try reflexivity; try (destruct sa, sn; reflexivity).
  destruct (SFdiv_core_binary prec emax (Zpos ma) ea (Zpos mn) en) as [[mz ez] lz].
  rewrite <- round_aux_opp. destruct sa, sn; reflexivity.
Qed.

Lemma opposite_div (a b n : spec_float) :
  opposite a b -> opposite (SFdiv prec emax a n) (SFdiv prec emax b n).
Proof.
  intros H. apply opposite_cases in H. destruct H as [E | [Ha Hb]].
  - rewrite E, div_opp_l. apply opposite_opp.
  - destruct a as [sa | | |], b as [sb | | |]; try discriminate.
    destruct n as [sn | sn | | sn mn en];
      ((left; reflexivity) || (right; split; reflexivity)).
Qed.

Lemma opposite_normalize (u v : Vector3.t spec_float) :
  opposite3 u v -> opposite3 (Vector3.normalize u) (Vector3.normalize v).
Proof.
  intros Huv. unfold Vector3.normalize. rewrite (opposite_norm u v Huv).
  destruct (feq (Vector3.norm v) (of_Z 0)); [assumption |].
  destruct Huv as (Hx & Hy & Hz). ieee.
  unfold opposite3; cbn [Vector3.x Vector3.y Vector3.z].
  repeat split; now apply opposite_div.
Qed.

Lemma cross_antisym (a b : Vector3.t spec_float) :
  opposite3 (Vector3.cross a b) (Vector3.cross b a).
Proof.
  unfold Vector3.cross, opposite3; cbn [Vector3.x Vector3.y Vector3.z]. ieee.
  rewrite (SFmul_comm (Vector3.y b) (Vector3.z a)), (SFmul_comm (Vector3.z b) (Vector3.y a)).
  rewrite (SFmul_comm (Vector3.z b) (Vector3.x a)), (SFmul_comm (Vector3.x b) (Vector3.z a)).
  rewrite (SFmul_comm (Vector3.x b) (Vector3.y a)), (SFmul_comm (Vector3.y b) (Vector3.x a)).
  repeat split; apply sub_antisym.
Qed.

Lemma tri_norm_winding (p0 p1 p2 : Vector3.t spec_float) :
  opposite3 (Tri.norm (Tri.mk p0 p2 p1)) (Tri.norm (Tri.mk p0 p1 p2)).
Proof.
  unfold Tri.norm; cbn [Tri.p0 Tri.p1 Tri.p2].
  apply opposite_normalize, cross_antisym.
Qed.

(** Sums, differences, products and quotients of opposite numbers. *)
Lemma opposite_mul (a b c : spec_float) :
  opposite a b -> opposite (SFmul prec emax a c) (SFmul prec emax b c).
Proof.
  intros H. apply opposite_cases in H. destruct H as [E | [Ha Hb]].
  - rewrite E, mul_opp_l. apply opposite_opp.
  - destruct a as [sa | | |], b as [sb | | |]; try discriminate.
    destruct c as [sc | sc | | sc mc ec];
      ((left; reflexivity) || (right; split; reflexivity)).
Qed.

Lemma cond_Zopp_negb (s : bool) (n : Z) : cond_Zopp (negb s) n = (- cond_Zopp s n)%Z.
Proof. destruct s; cbn; lia. Qed.

Lemma add_opp_opp (b d : spec_float) :
  opposite (SFadd prec emax (SFopp b) (SFopp d)) (SFadd prec emax b d).
Proof.
  destruct b as [sb | sb | | sb mb eb], d as [sd | sd | | sd md ed];
    try (left; reflexivity);
    try (destruct sb, sd; ((left; reflexivity) || (right; split; reflexivity))).
  cbn [SFadd SFopp]. rewrite !cond_Zopp_negb, <- Z.opp_add_distr.
  apply binary_normalize_opp.
Qed.

Lemma add_zero_l_same (a : spec_float) (s : bool) :
  same_number (SFadd prec emax (S754_zero s) a) a.
Proof. rewrite SFadd_comm. apply add_zero_same. Qed.

Lemma same_number_trans (a b c : spec_float) :
  same_number a b -> same_number b c -> same_number a c.
Proof.
  intros [E1 | [Ha Hb]] [E2 | [Hb' Hc]]; subst; try (now left); right; now split.
Qed.

Lemma same_number_sym (a b : spec_float) : same_number a b -> same_number b a.
Proof. intros [E | [Ha Hb]]; [now left | right; now split]. Qed.

Lemma same_number_opp (a b : spec_float) :
  same_number a b -> same_number (SFopp a) (SFopp b).
Proof.
  intros [E | [Ha Hb]]; [left; now rewrite E | right].
  destruct a, b; try discriminate. split; reflexivity.
Qed.

Lemma opposite_add (a b c d : spec_float) :
  opposite a b -> opposite c d ->
  opposite (SFadd prec emax a c) (SFadd prec emax b d).
Proof.
  intros H1 H2. apply opposite_cases in H1, H2.
  destruct H1 as [E1 | [Ha Hb]], H2 as [E2 | [Hc Hd]].
  - rewrite E1, E2. apply add_opp_opp.
  - rewrite E1. destruct c as [sc | | |], d as [sd | | |]; try discriminate.
    unfold opposite.
    apply same_number_trans with (SFopp b); [apply add_zero_same |].
    apply same_number_opp, same_number_sym, add_zero_same.
  - rewrite E2. destruct a as [sa | | |], b as [sb | | |]; try discriminate.
    unfold opposite.
    apply same_number_trans with (SFopp d); [apply add_zero_l_same |].
    apply same_number_opp, same_number_sym, add_zero_l_same.
  - destruct a as [sa | | |], b as [sb | | |]; try discriminate.
    destruct c as [sc | | |], d as [sd | | |]; try discriminate.
    destruct sa, sb, sc, sd; right; split; reflexivity.
Qed.

Lemma opposite_opp_opp (c d : spec_float) : opposite c d -> opposite (SFopp c) (SFopp d).
Proof. apply same_number_opp. Qed.

Lemma opposite_sub (a b c d : spec_float) :
  opposite a b -> opposite c d ->
  opposite (SFsub prec emax a c) (SFsub prec emax b d).
Proof.
  intros H1 H2. rewrite <- !add_opp_sub.
  apply opposite_add; [assumption | now apply opposite_opp_opp].
Qed.

Lemma opposite_dot (n n' v : Vector3.t spec_float) :
  opposite3 n' n -> opposite (Vector3.op_dot n' v) (Vector3.op_dot n v).
Proof.
  intros (Hx & Hy & Hz). unfold Vector3.op_dot. ieee.
  repeat apply opposite_add; now apply opposite_mul.
Qed.

Lemma opposite_feq_zero (a b : spec_float) :
  opposite a b -> SFeqb a (S754_zero false) = SFeqb b (S754_zero false).
Proof.
  intros H. apply opposite_cases in H. destruct H as [E | [Ha Hb]].
  - rewrite E. destruct b as [s | [] | | [] m e]; reflexivity.
  - destruct a, b; try discriminate; reflexivity.
Qed.

Lemma opposite_quotient (a b c d : spec_float) :
  opposite a b -> opposite c d -> SFeqb d (S754_zero false) = false ->
  same_number (SFdiv prec emax a c) (SFdiv prec emax b d).
Proof.
  intros H1 H2 Hd. apply opposite_cases in H1, H2.
  destruct H2 as [E2 | [Hc Hd']].
  2:{ destruct d; try discriminate. }
  rewrite E2. destruct H1 as [E1 | [Ha Hb]].
  - rewrite E1, div_opp_l, div_opp_r, SFopp_involutive. now left.
  - destruct a as [sa | | |], b as [sb | | |]; try discriminate.
    destruct d as [sd | sd | | sd md ed]; try discriminate;
      ((left; reflexivity) || (right; split; reflexivity)).
Qed.

Lemma same_number_mul (a b c : spec_float) :
  same_number a b -> same_number (SFmul prec emax a c) (SFmul prec emax b c).
Proof.
  intros [E | [Ha Hb]]; [left; now rewrite E |].
  destruct a as [sa | | |], b as [sb | | |]; try discriminate.
  destruct c as [sc | sc | | sc mc ec];
    ((left; reflexivity) || (right; split; reflexivity)).
Qed.

Lemma same_number_add_r (p u v : spec_float) :
  same_number u v -> same_number (SFadd prec emax p u) (SFadd prec emax p v).
Proof.
  intros [E | [Hu Hv]]; [left; now rewrite E |].
  destruct u as [su | | |], v as [sv | | |]; try discriminate.
  apply same_number_trans with p; [apply add_zero_same |].
  apply same_number_sym, add_zero_same.
Qed.

Lemma lineIntersection_flip (d1 d2 p : Vector3.t spec_float) (line : Line.t spec_float) :
  same_number3 (Plane.lineIntersection (Plane.mk d2 d1 p) line)
               (Plane.lineIntersection (Plane.mk d1 d2 p) line).
Proof.
  pose proof (cross_antisym d2 d1) as Hn.
  assert (HD : opposite (Plane.denominator (Plane.mk d2 d1 p) line)
                        (Plane.denominator (Plane.mk d1 d2 p) line)).
  { rewrite !denominator_is_dot. unfold Plane.norm; cbn [Plane.d1 Plane.d2].
    now apply opposite_dot. }
  assert (HN : opposite (Plane.numerator (Plane.mk d2 d1 p) line)
                        (Plane.numerator (Plane.mk d1 d2 p) line)).
  { unfold Plane.numerator, Plane.norm; cbn [Plane.d1 Plane.d2]. cbv zeta.
    destruct Hn as (Hx & Hy & Hz). ieee.
    repeat apply opposite_sub; try (now apply opposite_mul).
    now apply opposite_dot. }
  unfold Plane.lineIntersection.
  change (@feq spec_float binary64 ?a (of_Z 0)) with (SFeqb a (S754_zero false)).
  rewrite (opposite_feq_zero _ _ HD).
  destruct (SFeqb (Plane.denominator (Plane.mk d1 d2 p) line) (S754_zero false)) eqn:Hz.
  - repeat split; apply same_number_refl.
  - pose proof (opposite_quotient _ _ _ _ HN HD Hz) as Ht.
    unfold same_number3, Vector3.op_add, Vector3.op_scale;
      cbn [Vector3.x Vector3.y Vector3.z]. ieee.
    repeat split; apply same_number_add_r, same_number_mul; exact Ht.
Qed.

(** ** Units, zeros and NaN *)

Lemma one_literal : of_Z (Arith := binary64) 1 = S754_finite false 4503599627370496 (-52).
Proof. reflexivity. Qed.

Lemma mul_one (b : spec_float) : is_double b -> SFmul prec emax (of_Z 1) b = b.
Proof. exact (mul_unit false b). Qed.

Lemma op_scale_one (v : Vector3.t spec_float) :
  is_double3 v -> Vector3.op_scale (of_Z 1) v = v.
Proof.
  intros (Hx & Hy & Hz). destruct v as [a b c].
  unfold Vector3.op_scale; cbn [Vector3.x Vector3.y Vector3.z] in *. ieee.
  now rewrite !mul_one.
Qed.

Lemma op_scale_minus_one (v : Vector3.t spec_float) :
  is_double3 v ->
  Vector3.op_scale (of_Z (-1)) v
  = Vector3.mk (SFopp (Vector3.x v)) (SFopp (Vector3.y v)) (SFopp (Vector3.z v)).
Proof.
  intros (Hx & Hy & Hz).
  unfold Vector3.op_scale; cbn [Vector3.x Vector3.y Vector3.z] in *. ieee.
  now rewrite !mul_minus_one.
Qed.

Lemma op_scale_minus_one_twice (v : Vector3.t spec_float) :
  is_double3 v -> Vector3.op_scale (of_Z (-1)) (Vector3.op_scale (of_Z (-1)) v) = v.
Proof.
  intros Hv. rewrite (op_scale_minus_one v Hv).
  destruct Hv as (Hx & Hy & Hz).
  rewrite op_scale_minus_one
    by (repeat split; cbn [Vector3.x Vector3.y Vector3.z]; now apply SFopp_is_double).
  cbn [Vector3.x Vector3.y Vector3.z]. rewrite !SFopp_involutive.
  now destruct v.
Qed.

Lemma op_scale_zero (v : Vector3.t spec_float) :
  is_finite3 v -> is_zero3 (Vector3.op_scale (of_Z 0) v).
Proof.
  intros (Hx & Hy & Hz).
  unfold Vector3.op_scale, is_zero3; cbn [Vector3.x Vector3.y Vector3.z]. ieee.
  repeat split; now apply mul_zero_finite_l.
Qed.

(** Sums with zeros. *)
Lemma add_zeros (a b : spec_float) :
  is_zero a = true -> is_zero b = true -> is_zero (SFadd prec emax a b) = true.
Proof.
  destruct a as [[] | | |], b as [[] | | |]; try discriminate; reflexivity.
Qed.

Lemma add_zero_l_nonzero (a b : spec_float) :
  is_zero a = true -> is_zero b = false -> SFadd prec emax a b = b.
Proof. destruct a as [sa | | |], b as [sb | sb | | sb mb eb]; try discriminate; reflexivity. Qed.

Lemma sub_zero_r_nonzero (a b : spec_float) :
  is_zero a = false -> is_zero b = true -> SFsub prec emax a b = a.
Proof. destruct a as [sa | sa | | sa ma ea], b as [sb | | |]; try discriminate; reflexivity. Qed.

(** The default plane: normal [(0, 0, 1)]. *)
Lemma default_normal : Plane.norm (Plane.default (num := spec_float)) = vec 0 0 1.
Proof. reflexivity. Qed.

Lemma default_denominator (line : Line.t spec_float) :
  is_double3 (Line.d line) -> is_finite3 (Line.d line) ->
  same_number (Plane.denominator Plane.default line) (Vector3.z (Line.d line)).
Proof.
  intros (_ & _ & Vz) (Fx & Fy & Fz).
  unfold Plane.denominator. rewrite default_normal.
  unfold vec; cbn [Vector3.x Vector3.y Vector3.z]. ieee. rewrite (mul_one _ Vz).
  pose proof (mul_zero_finite_l (of_Z 0) _ eq_refl Fx) as Zx.
  pose proof (mul_zero_finite_l (of_Z 0) _ eq_refl Fy) as Zy.
  pose proof (add_zeros _ _ Zx Zy) as Zs.
  destruct (SFadd prec emax _ _) as [s | | |] in Zs |- *; try discriminate.
  apply add_zero_l_same.
Qed.

Lemma default_numerator (line : Line.t spec_float) :
  is_double3 (Line.p line) -> is_finite3 (Line.p line) ->
  is_zero (Plane.numerator Plane.default line) = true.
Proof.
  intros (_ & _ & Vz) (Fx & Fy & Fz).
  unfold Plane.numerator. rewrite default_normal.
  unfold Vector3.op_dot, vec; cbn [Vector3.x Vector3.y Vector3.z]. ieee.
  rewrite (mul_one _ Vz).
  pose proof (mul_zero_finite_l (of_Z 0) _ eq_refl Fx) as Zx.
  pose proof (mul_zero_finite_l (of_Z 0) _ eq_refl Fy) as Zy.
  pose proof (add_zeros _ _ Zx Zy) as Zs.
  destruct (is_zero (Vector3.z (Line.p line))) eqn:Zz.
  - apply sub_zeros; [| assumption]. apply sub_zeros; [| assumption].
    apply sub_zeros; [| assumption]. now apply add_zeros.
  - rewrite (add_zero_l_nonzero _ _ Zs Zz).
    rewrite (sub_zero_r_nonzero _ _ Zz Zx), (sub_zero_r_nonzero _ _ Zz Zy).
    now apply sub_self.
Qed.

Lemma same_number_feq_zero (a b : spec_float) :
  same_number a b -> SFeqb a (S754_zero false) = SFeqb b (S754_zero false).
Proof. intros [E | [Ha Hb]]; [now rewrite E |]. destruct a, b; try discriminate; reflexivity. Qed.

Lemma same_number_nan (a b : spec_float) : same_number a b -> is_nan a = is_nan b.
Proof. intros [E | [Ha Hb]]; [now rewrite E |]. destruct a, b; try discriminate; reflexivity. Qed.

Lemma feq_zero_is_zero (a : spec_float) :
  is_finite a = true -> SFeqb a (S754_zero false) = is_zero a.
Proof. destruct a as [s | s | | [] m e]; try discriminate; reflexivity. Qed.

Lemma default_plane_intersection (line : Line.t spec_float) :
  is_double3 (Line.p line) -> is_finite3 (Line.p line) ->
  is_double3 (Line.d line) -> is_finite3 (Line.d line) ->
  (is_zero (Vector3.z (Line.d line)) = true ->
   Plane.lineIntersection Plane.default line = Vector3.default) /\
  (is_zero (Vector3.z (Line.d line)) = false ->
   same_number3 (Plane.lineIntersection Plane.default line) (Line.p line)).
Proof.
  intros Vp Fp Vd Fd.
  pose proof (default_denominator line Vd Fd) as HD.
  pose proof (default_numerator line Vp Fp) as HN.
  assert (Hfeq : feq (Plane.denominator Plane.default line) (of_Z 0)
                 = is_zero (Vector3.z (Line.d line))).
  { change (@feq spec_float binary64 ?a (of_Z 0)) with (SFeqb a (S754_zero false)).
    rewrite (same_number_feq_zero _ _ HD). apply feq_zero_is_zero, Fd. }
  split; intros Hz.
  - unfold Plane.lineIntersection. rewrite Hfeq, Hz. reflexivity.
  - destruct Fd as (Fx & Fy & Fz).
    apply lineIntersection_binary64_zero_numerator; try assumption.
    + now rewrite Hfeq.
    + rewrite (same_number_nan _ _ HD). now destruct (Vector3.z (Line.d line)).
Qed.

(** A line through one point twice, and planes and lines that are
    degenerate. *)
Lemma getLine_twice (p : Vector3.t spec_float) :
  is_double3 p -> is_finite3 p -> is_zero3 (Line.d (Line.getLine p p)).
Proof. intros Vp Fp. cbn [Line.getLine Line.d]. now apply op_sub_self. Qed.

Lemma is_zero3_finite3 (v : Vector3.t spec_float) : is_zero3 v -> is_finite3 v.
Proof.
  intros (Hx & Hy & Hz). destruct v as [[] [] []]; try discriminate.
  repeat split.
Qed.

Lemma tangent_zero_direction_normal (line : Line.t spec_float) :
  is_zero3 (Line.d line) -> is_zero3 (Plane.norm (Plane.getTangentPlane line)).
Proof.
  intros Hd. pose proof Hd as (_ & _ & Hz).
  unfold Plane.norm, Plane.getTangentPlane; cbn [Plane.d1 Plane.d2].
  unfold Plane.tangentSeed. rewrite (is_zero_feq _ Hz).
  apply cross_zero_r; [repeat split |].
  apply cross_zero_r; [repeat split | exact Hd].
Qed.

Lemma zero_normal_sentinel (pl : Plane.t spec_float) (line : Line.t spec_float) :
  is_zero3 (Plane.norm pl) -> is_finite3 (Line.d line) ->
  Plane.lineIntersection pl line = Vector3.default.
Proof.
  intros (Nx & Ny & Nz) (Fx & Fy & Fz).
  unfold Plane.lineIntersection.
  assert (HD : is_zero (Plane.denominator pl line) = true).
  { unfold Plane.denominator. ieee.
    repeat apply add_zeros; now apply mul_zero_finite_l. }
  now rewrite (is_zero_feq _ HD).
Qed.

(** A NaN in the normal or in the direction. *)
Lemma dot_nan (n d : Vector3.t spec_float) :
  has_nan3 n || has_nan3 d = true -> Vector3.op_dot n d = S754_nan.
Proof.
  unfold has_nan3, Vector3.op_dot. ieee.
  destruct n as [nx ny nz], d as [dx dy dz]; cbn [Vector3.x Vector3.y Vector3.z].
  rewrite !orb_true_iff. intros [[[H | H] | H] | [[H | H] | H]];
    match type of H with
    | is_nan ?a = true => destruct a; try discriminate
    end;
    rewrite ?mul_nan_l, ?mul_nan_r, ?add_nan_l, ?add_nan_r; reflexivity.
Qed.

Lemma nan_denominator (pl : Plane.t spec_float) (line : Line.t spec_float) :
  Plane.denominator pl line = S754_nan -> all_nan3 (Plane.lineIntersection pl line).
Proof.
  intros HD. unfold Plane.lineIntersection. rewrite HD.
  change (feq S754_nan (of_Z 0)) with false. cbv iota.
  unfold all_nan3, Vector3.op_add, Vector3.op_scale; cbn [Vector3.x Vector3.y Vector3.z].
  ieee. rewrite div_nan_r, !mul_nan_l, !add_nan_r. repeat split.
Qed.

(** [normalize] of a vector with finite components. *)
Lemma finite_not_nan (a : spec_float) : is_finite a = true -> is_nan a = false.
Proof. destruct a; try discriminate; reflexivity. Qed.

Lemma finite3_no_nan (v : Vector3.t spec_float) : is_finite3 v -> has_nan3 v = false.
Proof.
  intros (Hx & Hy & Hz). unfold has_nan3.
  now rewrite !finite_not_nan.
Qed.

Lemma normalize_finite_no_nan (v : Vector3.t spec_float) :
  is_finite3 v -> has_nan3 (Vector3.normalize v) = false.
Proof.
  intros Hv. pose proof (norm_nonnegative v (finite3_no_nan v Hv)) as Hn.
  unfold Vector3.normalize.
  destruct (feq (Vector3.norm v) (of_Z 0)) eqn:Hz; [now apply finite3_no_nan |].
  destruct Hv as (Hx & Hy & Hz'). unfold has_nan3; cbn [Vector3.x Vector3.y Vector3.z].
  ieee. now rewrite !div_finite_not_nan.
Qed.

Lemma normalize_infinite_norm (v : Vector3.t spec_float) :
  is_finite3 v -> Vector3.norm v = S754_infinity false ->
  is_zero3 (Vector3.normalize v).
Proof.
  intros (Hx & Hy & Hz) Hn. unfold Vector3.normalize. rewrite Hn.
  change (feq (S754_infinity false) (of_Z 0)) with false. cbv iota.
  unfold is_zero3; cbn [Vector3.x Vector3.y Vector3.z]. ieee.
  repeat split; now apply div_finite_inf.
Qed.

Lemma zero_direction_sentinel (pl : Plane.t spec_float) (line : Line.t spec_float) :
  is_finite3 (Plane.norm pl) -> is_zero3 (Line.d line) ->
  Plane.lineIntersection pl line = Vector3.default.
Proof.
  intros (Nx & Ny & Nz) (Fx & Fy & Fz).
  unfold Plane.lineIntersection.
  assert (HD : is_zero (Plane.denominator pl line) = true).
  { unfold Plane.denominator. ieee.
    repeat apply add_zeros; now apply mul_finite_zero_r. }
  now rewrite (is_zero_feq _ HD).
Qed.

Lemma dot_self_nonnegative (v : Vector3.t spec_float) :
  has_nan3 v = false -> nonnegative (Vector3.op_dot v v) = true.
Proof.
  unfold has_nan3. intros H.
  apply orb_false_iff in H. destruct H as [H Hz].
  apply orb_false_iff in H. destruct H as [Hx Hy].
  unfold Vector3.op_dot. ieee.
  repeat apply add_nonnegative; now apply mul_self_nonnegative.
Qed.

(** ** The text of a vector *)

Lemma free_of_app (c : ascii) (s r : string) :
  free_of c (s ++ r)%string = free_of c s && free_of c r.
Proof.
  induction s as [| c' s IH]; cbn [append free_of]; [reflexivity |].
  now rewrite IH, andb_assoc.
Qed.

Lemma free_of_digits (c : ascii) (s : string) :
  is_digit c = false -> all_digits s = true -> free_of c s = true.
Proof.
  intros Hc. induction s as [| c' s IH]; cbn [all_digits free_of]; [reflexivity |].
  intros H. apply andb_prop in H. destruct H as [Hd Hs].
  rewrite (IH Hs), andb_true_r. apply negb_true_iff, Ascii.eqb_neq.
  intros ->. congruence.
Qed.

Lemma std_to_string_free (c : ascii) (b : bool) (v : spec_float) :
  separator c -> free_of c (std_to_string b v) = true.
Proof.
  intros [Hd Hc]. cbn [free_of] in Hc. rewrite !andb_true_iff in Hc.
  destruct Hc as (H1 & H2 & H3 & H4 & H5 & H6 & _).
  assert (Hs : forall s, free_of c (sign_string s) = true).
  { intros []; cbn [sign_string free_of]; now rewrite ?H1. }
  assert (Hf : forall n, free_of c (fixed6 n) = true).
  { intros n. unfold fixed6. rewrite !free_of_app.
    rewrite (free_of_digits c _ Hd (proj2 (integer_part_shape n))).
    rewrite (free_of_digits c _ Hd (proj2 (fraction6_shape n))).
    cbn [free_of]. now rewrite H2. }
  destruct v as [s | s | | s m e]; cbn [std_to_string];
    rewrite ?free_of_app, ?Hs, ?Hf; cbn [free_of];
    now rewrite ?H3, ?H4, ?H5, ?H6.
Qed.

Lemma split_unique (c : ascii) (s s' r r' : string) :
  free_of c s = true -> free_of c s' = true ->
  (s ++ String c r)%string = (s' ++ String c r')%string -> s = s' /\ r = r'.
Proof.
  revert s'. induction s as [| a s IH]; intros [| a' s']; cbn [append free_of].
  - intros _ _ E. injection E as E. now split.
  - intros _ H E. injection E as E1 E2. subst a'.
    rewrite Ascii.eqb_refl in H. discriminate.
  - intros H _ E. injection E as E1 E2. subst a.
    rewrite Ascii.eqb_refl in H. discriminate.
  - intros H H' E. injection E as E1 E2. subst a'.
    apply andb_prop in H, H'. destruct H as [_ H], H' as [_ H'].
    destruct (IH s' H H' E2) as [-> ->]. now split.
Qed.

Lemma comma_separator : separator ","%char.
Proof. split; reflexivity. Qed.

Lemma paren_separator : separator ")"%char.
Proof. split; reflexivity. Qed.

Lemma toString_components (s s' : Vector3.t bool) (v w : Vector3.t spec_float) :
  toString s v = toString s' w ->
  std_to_string (Vector3.x s) (Vector3.x v) = std_to_string (Vector3.x s') (Vector3.x w) /\
  std_to_string (Vector3.y s) (Vector3.y v) = std_to_string (Vector3.y s') (Vector3.y w) /\
  std_to_string (Vector3.z s) (Vector3.z v) = std_to_string (Vector3.z s') (Vector3.z w).
Proof.
  unfold toString, Vector3.to_std_string. cbn [Vector3.x Vector3.y Vector3.z fst snd].
  intros E. cbn [append] in E. injection E as E.
  apply split_unique in E; try (apply std_to_string_free, comma_separator).
  destruct E as [Ex E]. injection E as E.
  apply split_unique in E; try (apply std_to_string_free, comma_separator).
  destruct E as [Ey E]. injection E as E.
  apply split_unique in E; try (apply std_to_string_free, paren_separator).
  destruct E as [Ez _]. now repeat split.
Qed.

(** The insertion into a stream. *)
Lemma op_shl_insert (out : Ostream.t) (s : Vector3.t bool) (v : Vector3.t spec_float) :
  op_shl out s v = Ostream.insert out (toString s v).
Proof. reflexivity. Qed.

Lemma insert_not_good (out : Ostream.t) (s : string) :
  Ostream.good out = false -> Ostream.insert out s = out.
Proof. intros H. unfold Ostream.insert. now rewrite H. Qed.

Lemma insert_unpadded (out : Ostream.t) (s : string) :
  Ostream.good out = true ->
  (Ostream.width out <= Z.of_nat (String.length s))%Z ->
  Ostream.insert out s
  = Ostream.mk true 0 (Ostream.fill out) (Ostream.left out)
      (Ostream.written out ++ s)%string.
Proof.
  intros Hg Hw. unfold Ostream.insert. rewrite Hg.
  replace (Z.to_nat (Ostream.width out - Z.of_nat (String.length s))) with 0%nat by lia.
  cbn [Ostream.padding append].
  assert (E : forall r : string, (r ++ EmptyString)%string = r)
    by (induction r as [| c r IH]; cbn [append]; congruence).
  rewrite E. now destruct (Ostream.left out).
Qed.

Lemma padding_length (n : nat) (c : ascii) : String.length (Ostream.padding n c) = n.
Proof. induction n as [| n IH]; cbn [Ostream.padding String.length]; congruence. Qed.

(** Magnitudes below half a millionth. *)
Lemma round_half_even_small (n d : N) : (2 * n < d)%N -> round_half_even n d = 0%N.
Proof.
  intros H. unfold round_half_even.
  assert (Hq : (n / d = 0)%N) by (apply N.div_small; lia).
  assert (Hr : (n mod d = n)%N) by (apply N.mod_small; lia).
  rewrite Hq, Hr. destruct (N.compare_spec (2 * n) d); lia.
Qed.

Lemma std_to_string_small (b s : bool) (m k : positive) :
  (2 * (Npos m * 10 ^ 6) < 2 ^ Npos k)%N ->
  std_to_string b (S754_finite s m (Zneg k)) = std_to_string b (S754_zero s).
Proof.
  intros H. cbn [std_to_string micro]. now rewrite round_half_even_small.
Qed.

(** ** Sums, products and differences of vectors *)



(** X3.  [operator-], written [v1 + (-1 * v2)] in the source, is the
    component-wise IEEE subtraction when the operands are doubles: the
    product by [-1] is exact.  Exchanging the operands negates every
    component, up to the sign of a zero, and a vector with finite
    components minus itself is a vector of zeros. *)
Theorem X3_sub_componentwise :
  forall a b : Vector3.t spec_float,
    is_double3 a -> is_double3 b ->
    Vector3.op_sub a b
    = Vector3.mk (fsub (Vector3.x a) (Vector3.x b)) (fsub (Vector3.y a) (Vector3.y b))
                 (fsub (Vector3.z a) (Vector3.z b)) /\
    opposite3 (Vector3.op_sub a b) (Vector3.op_sub b a) /\
    (is_finite3 a -> is_zero3 (Vector3.op_sub a a)).
Proof.
  intros a b Ha Hb. split; [now apply op_sub_binary64 |]. split.
  - rewrite (op_sub_binary64 a b Hb), (op_sub_binary64 b a Ha).
    repeat split; apply sub_antisym.
  - now apply op_sub_self.
Qed.

Lemma X3_witness :
  Vector3.op_sub (vec 5 7 9) (vec 1 2 3)
  = Vector3.mk (fsub (of_Z 5) (of_Z 1)) (fsub (of_Z 7) (of_Z 2)) (fsub (of_Z 9) (of_Z 3)) /\
  is_zero3 (Vector3.op_sub (vec 5 7 9) (vec 5 7 9)).
Proof.
  split.
  - apply (X3_sub_componentwise (vec 5 7 9) (vec 1 2 3)); repeat split.
  - apply (X3_sub_componentwise (vec 5 7 9) (vec 5 7 9)); repeat split.
Defined.

(** X4.  Scaling a vector of doubles by [1] returns it unchanged, scaling
    it by [-1] flips the sign of every component (so that doing it twice
    returns the vector), and scaling a vector with finite components by
    [0] gives a vector of zeros. *)
Theorem X4_scale_by_units :
  forall v : Vector3.t spec_float,
    is_double3 v ->
    Vector3.op_scale (of_Z 1) v = v /\
    Vector3.op_scale (of_Z (-1)) v
    = Vector3.mk (fneg (Vector3.x v)) (fneg (Vector3.y v)) (fneg (Vector3.z v)) /\
    Vector3.op_scale (of_Z (-1)) (Vector3.op_scale (of_Z (-1)) v) = v /\
    (is_finite3 v -> is_zero3 (Vector3.op_scale (of_Z 0) v)).
Proof.
  intros v Hv. repeat apply conj.
  - now apply op_scale_one.
  - now apply op_scale_minus_one.
  - now apply op_scale_minus_one_twice.
  - apply op_scale_zero.
Qed.

Lemma X4_witness :
  Vector3.op_scale (of_Z 1) (vec 1 (-2) 0) = vec 1 (-2) 0 /\
  is_zero3 (Vector3.op_scale (of_Z 0) (vec 1 (-2) 0)).
Proof.
  split.
  - apply (X4_scale_by_units (vec 1 (-2) 0)); repeat split.
  - apply (X4_scale_by_units (vec 1 (-2) 0)); repeat split.
Defined.

(** X5.  The cross product is anticommutative.  On doubles every component
    of [cross(a, b)] is the negation of the component of [cross(b, a)], bit
    for bit, except that where the two products cancel both results are
    [+0]; in exact arithmetic [cross(a, b) = -1 * cross(b, a)].  The cross
    product of a vector of doubles with itself is a vector of zeros as
    long as the products of its components do not overflow. *)
Theorem X5_cross_anticommutes :
  (forall a b : Vector3.t spec_float,
      opposite3 (Vector3.cross a b) (Vector3.cross b a)) /\
  Vector3.cross (vec 1 2 3) (vec 2 4 6) = Vector3.cross (vec 2 4 6) (vec 1 2 3) /\
  (forall a b : Vector3.t R,
      Vector3.cross a b = Vector3.op_scale (of_Z (-1)) (Vector3.cross b a)) /\
  (forall a : Vector3.t spec_float,
      is_finite (fmul (Vector3.y a) (Vector3.z a)) = true ->
      is_finite (fmul (Vector3.z a) (Vector3.x a)) = true ->
      is_finite (fmul (Vector3.x a) (Vector3.y a)) = true ->
      is_zero3 (Vector3.cross a a)).
Proof.
  repeat apply conj.
  - apply cross_antisym.
  - reflexivity.
  - intros a b. unfold Vector3.cross, Vector3.op_scale;
      cbn [Vector3.x Vector3.y Vector3.z]. reals. f_equal; ring.
  - exact cross_self.
Qed.

Lemma X5_witness : is_zero3 (Vector3.cross (vec 1 (-2) 3) (vec 1 (-2) 3)).
Proof.
  apply (proj2 (proj2 (proj2 X5_cross_anticommutes)) (vec 1 (-2) 3)); reflexivity.
Defined.

(** ** Equality within the tolerance *)

(** X6.  A vector of doubles equals itself exactly when all its components
    are finite: with an infinite or NaN component the difference is NaN
    and the comparison is false. *)
Theorem X6_equals_reflexive_iff_finite :
  forall v : Vector3.t spec_float,
    is_double3 v -> (Vector3.op_eq v v = true <-> is_finite3 v).
Proof. exact op_eq_refl. Qed.

Lemma X6_witness :
  Vector3.op_eq (vec 1 2 3) (vec 1 2 3) = true /\
  ~ is_finite3 (Vector3.mk (S754_infinity false) (of_Z 0) (of_Z 0)).
Proof.
  split.
  - apply (X6_equals_reflexive_iff_finite (vec 1 2 3)); repeat split.
  - intros Hf.
    apply (X6_equals_reflexive_iff_finite
             (Vector3.mk (S754_infinity false) (of_Z 0) (of_Z 0))) in Hf;
      [discriminate Hf | repeat split].
Defined.

(** X7.  Two vectors of doubles that compare equal have finite components
    only: [operator==] is never true for a vector holding an infinity or
    a NaN. *)
Theorem X7_equals_only_finite :
  forall a b : Vector3.t spec_float,
    is_double3 b -> Vector3.op_eq a b = true -> is_finite3 a /\ is_finite3 b.
Proof. exact op_eq_finite. Qed.

Lemma X7_witness :
  is_finite3 (Vector3.mk half_epsilon half_epsilon half_epsilon) /\
  is_finite3 (vec 0 0 0).
Proof.
  apply (X7_equals_only_finite (Vector3.mk half_epsilon half_epsilon half_epsilon)
           (vec 0 0 0)); [repeat split | reflexivity].
Defined.

(** X8.  [operator==] is symmetric on doubles. *)
Theorem X8_equals_symmetric :
  forall a b : Vector3.t spec_float,
    is_double3 a -> is_double3 b -> Vector3.op_eq a b = Vector3.op_eq b a.
Proof. exact op_eq_sym. Qed.

Lemma X8_witness :
  Vector3.op_eq (vec 1 2 3) (vec 1 2 4) = Vector3.op_eq (vec 1 2 4) (vec 1 2 3).
Proof. apply (X8_equals_symmetric (vec 1 2 3) (vec 1 2 4)); repeat split. Defined.

(** X9.  [operator==] is not transitive: [(0, 0, 0)] equals
    [(0.004, 0, 0)], which equals [(0.008, 0, 0)], and [(0, 0, 0)] does
    not equal [(0.008, 0, 0)]. *)
Theorem X9_equals_not_transitive :
  exists a b c : Vector3.t spec_float,
    is_double3 a /\ is_double3 b /\ is_double3 c /\
    Vector3.op_eq a b = true /\ Vector3.op_eq b c = true /\
    Vector3.op_eq a c = false.
Proof.
  exists (vec 0 0 0), (Vector3.mk (decimal 4 1000) (of_Z 0) (of_Z 0)),
    (Vector3.mk (decimal 8 1000) (of_Z 0) (of_Z 0)).
  repeat split.
Qed.

(** ** Norms of vectors of doubles *)

(** X10.  The norm is the square root of the dot product of the vector
    with itself.  On doubles that dot product and the norm are NaN exactly
    when a component is NaN; otherwise each is [+0], a positive double or
    [+infinity], never a negative number and never [-0]. *)
Theorem X10_norm_nonnegative :
  forall v : Vector3.t spec_float,
    Vector3.norm v = fsqrt (Vector3.op_dot v v) /\
    (has_nan3 v = false ->
     nonnegative (Vector3.op_dot v v) = true /\ nonnegative (Vector3.norm v) = true) /\
    (has_nan3 v = true ->
     Vector3.op_dot v v = S754_nan /\ Vector3.norm v = S754_nan).
Proof.
  intros v. split; [reflexivity |]. split; intros H.
  - split; [now apply dot_self_nonnegative | now apply norm_nonnegative].
  - split; [| now apply norm_nan]. apply dot_nan. now rewrite H.
Qed.

Lemma X10_witness :
  nonnegative (Vector3.norm (vec (-3) 0 (-4))) = true /\
  Vector3.norm (Vector3.mk (of_Z 1) S754_nan (of_Z 0)) = S754_nan.
Proof.
  split.
  - apply (X10_norm_nonnegative (vec (-3) 0 (-4))). reflexivity.
  - apply (X10_norm_nonnegative (Vector3.mk (of_Z 1) S754_nan (of_Z 0))). reflexivity.
Defined.

(** X11.  The norm does not see the signs of the components, and
    normalizing the negated vector gives the negated result: if every
    component of [u] is the negation of the component of [v] (zeros of
    any sign being opposite), then [norm(u)] and [norm(v)] are the same
    double and the components of [normalize(u)] are the negations of
    those of [normalize(v)]. *)
Theorem X11_norm_ignores_signs :
  forall u v : Vector3.t spec_float,
    opposite3 u v ->
    Vector3.norm u = Vector3.norm v /\
    opposite3 (Vector3.normalize u) (Vector3.normalize v).
Proof.
  intros u v H. split; [now apply opposite_norm | now apply opposite_normalize].
Qed.

Lemma X11_witness :
  Vector3.norm (vec (-1) 2 (-3)) = Vector3.norm (vec 1 (-2) 3) /\
  opposite3 (Vector3.normalize (vec (-1) 2 (-3))) (Vector3.normalize (vec 1 (-2) 3)).
Proof.
  apply (X11_norm_ignores_signs (vec (-1) 2 (-3)) (vec 1 (-2) 3)).
  repeat split; left; reflexivity.
Defined.

(** X12.  Normalizing a vector whose components are finite doubles never
    produces a NaN.  When the sum of squares overflows, so that the norm
    is [+infinity], the result is a vector of zeros. *)
Theorem X12_normalize_finite :
  forall v : Vector3.t spec_float,
    is_finite3 v ->
    has_nan3 (Vector3.normalize v) = false /\
    (Vector3.norm v = S754_infinity false -> is_zero3 (Vector3.normalize v)).
Proof.
  intros v Hv. split; [now apply normalize_finite_no_nan |].
  now apply normalize_infinite_norm.
Qed.

Lemma X12_witness :
  has_nan3 (Vector3.normalize v_huge) = false /\
  is_zero3 (Vector3.normalize v_huge).
Proof.
  split.
  - apply (X12_normalize_finite v_huge). repeat split.
  - apply (X12_normalize_finite v_huge); [repeat split | reflexivity].
Defined.

(** ** Lines through two points *)

(** X13.  [getLine(p1, p2)] is anchored at [p1].  On doubles, exchanging
    the two points negates the direction component by component, up to
    the sign of a zero.  In exact arithmetic the line reaches [p2] at
    parameter 1, [p + 1 * d = p2]; on doubles the direction is rounded
    and it need not: from [(2^60, 0, 0)] to [(1, 0, 0)] the direction is
    [(-2^60, 0, 0)] and [p + 1 * d] is [(0, 0, 0)]. *)
Theorem X13_getLine_endpoints :
  (forall p1 p2 : Vector3.t spec_float,
      is_double3 p1 -> is_double3 p2 ->
      Line.p (Line.getLine p1 p2) = p1 /\
      opposite3 (Line.d (Line.getLine p1 p2)) (Line.d (Line.getLine p2 p1))) /\
  (forall p1 p2 : Vector3.t R,
      Vector3.op_add (Line.p (Line.getLine p1 p2))
                     (Vector3.op_scale (of_Z 1) (Line.d (Line.getLine p1 p2))) = p2) /\
  (let l := Line.getLine (vec (2 ^ 60) 0 0) (vec 1 0 0) in
   Line.d l = vec (- 2 ^ 60) 0 0 /\
   Vector3.op_add (Line.p l) (Vector3.op_scale (of_Z 1) (Line.d l)) = vec 0 0 0).
Proof.
  repeat apply conj.
  - intros p1 p2 H1 H2. split; [reflexivity |]. cbn [Line.getLine Line.d].
    rewrite (op_sub_binary64 p2 p1 H1), (op_sub_binary64 p1 p2 H2).
    repeat split; apply sub_antisym.
  - intros p1 [a b c]. cbn [Line.getLine Line.d Line.p].
    unfold Vector3.op_sub, Vector3.op_add, Vector3.op_scale;
      cbn [Vector3.x Vector3.y Vector3.z]. reals. f_equal; ring.
  - vm_compute. reflexivity.
  - vm_compute. reflexivity.
Qed.

Lemma X13_witness :
  Line.p (Line.getLine (vec 1 2 3) (vec 4 6 8)) = vec 1 2 3 /\
  opposite3 (Line.d (Line.getLine (vec 1 2 3) (vec 4 6 8)))
            (Line.d (Line.getLine (vec 4 6 8) (vec 1 2 3))).
Proof.
  apply (proj1 X13_getLine_endpoints (vec 1 2 3) (vec 4 6 8)); repeat split.
Defined.

(** ** Planes and their intersections *)

(** X14.  The default plane [Plane()] has normal [(0, 0, 1)].  For every
    line whose anchor and direction are finite doubles, intersecting it
    with the default plane returns [(0, 0, 0)] when [line.d.z] is a zero,
    and the anchor [line.p] (up to the sign of a zero component)
    otherwise. *)
Theorem X14_default_plane_intersection :
  Plane.norm (Plane.default (num := spec_float)) = vec 0 0 1 /\
  forall line : Line.t spec_float,
    is_double3 (Line.p line) -> is_finite3 (Line.p line) ->
    is_double3 (Line.d line) -> is_finite3 (Line.d line) ->
    (is_zero (Vector3.z (Line.d line)) = true ->
     Plane.lineIntersection Plane.default line = Vector3.default) /\
    (is_zero (Vector3.z (Line.d line)) = false ->
     same_number3 (Plane.lineIntersection Plane.default line) (Line.p line)).
Proof. split; [reflexivity | exact default_plane_intersection]. Qed.

Lemma X14_witness :
  Plane.lineIntersection Plane.default (Line.mk (vec 1 1 0) (vec 1 2 3)) = Vector3.default /\
  same_number3 (Plane.lineIntersection Plane.default (Line.mk (vec 1 1 (-1)) (vec 1 2 3)))
               (vec 1 2 3).
Proof.
  split.
  - apply (proj2 X14_default_plane_intersection (Line.mk (vec 1 1 0) (vec 1 2 3)));
      repeat split.
  - apply (proj2 X14_default_plane_intersection (Line.mk (vec 1 1 (-1)) (vec 1 2 3)));
      repeat split.
Defined.

(** X15.  Degenerate inputs end in the vector [(0, 0, 0)].  A line built
    from the same finite point twice has a direction of zeros.  The
    tangent plane of a line whose direction is a vector of zeros has a
    normal of zeros, and its intersection with any line of finite
    direction is [(0, 0, 0)].  So is the intersection of a plane of finite
    normal with a line whose direction is a vector of zeros. *)
Theorem X15_degenerate_line :
  (forall p : Vector3.t spec_float,
      is_double3 p -> is_finite3 p -> is_zero3 (Line.d (Line.getLine p p))) /\
  (forall l line : Line.t spec_float,
      is_zero3 (Line.d l) -> is_finite3 (Line.d line) ->
      is_zero3 (Plane.norm (Plane.getTangentPlane l)) /\
      Plane.lineIntersection (Plane.getTangentPlane l) line = Vector3.default) /\
  (forall (pl : Plane.t spec_float) (line : Line.t spec_float),
      is_finite3 (Plane.norm pl) -> is_zero3 (Line.d line) ->
      Plane.lineIntersection pl line = Vector3.default).
Proof.
  repeat apply conj.
  - exact getLine_twice.
  - intros l line Hl Hd. pose proof (tangent_zero_direction_normal l Hl) as Hn.
    split; [exact Hn | now apply zero_normal_sentinel].
  - exact zero_direction_sentinel.
Qed.

Lemma X15_witness :
  is_zero3 (Line.d (Line.getLine (vec 1 2 3) (vec 1 2 3))) /\
  Plane.lineIntersection (Plane.getTangentPlane (Line.getLine (vec 1 2 3) (vec 1 2 3)))
                         (Line.mk (vec 0 0 1) (vec 4 5 6))
  = Vector3.default /\
  Plane.lineIntersection Plane.default (Line.mk (vec 0 0 0) (vec 4 5 6))
  = Vector3.default.
Proof.
  destruct X15_degenerate_line as (Hp & Ht & Hz). split; [| split].
  - apply Hp; repeat split.
  - apply (Ht (Line.getLine (vec 1 2 3) (vec 1 2 3))); repeat split.
  - apply Hz; repeat split.
Defined.

(** X16.  [lineIntersection] does not stop on a NaN: when a component of
    the plane's normal or of the line's direction is NaN, the denominator
    is NaN, the test [denominator == 0] is false, and all three components
    of the result are NaN. *)
Theorem X16_nan_propagates :
  forall (pl : Plane.t spec_float) (line : Line.t spec_float),
    has_nan3 (Plane.norm pl) || has_nan3 (Line.d line) = true ->
    all_nan3 (Plane.lineIntersection pl line).
Proof.
  intros pl line H. apply nan_denominator.
  rewrite denominator_is_dot. now apply dot_nan.
Qed.

(** A plane with an infinite spanning vector has a NaN in its normal. *)
Lemma X16_witness :
  all_nan3 (Plane.lineIntersection
              (Plane.mk (Vector3.mk (S754_infinity false) (of_Z 0) (of_Z 0))
                        (vec 0 1 0) (vec 0 0 0))
              (Line.mk (vec 0 0 1) (vec 1 2 3))).
Proof. apply X16_nan_propagates. reflexivity. Defined.

(** X17.  Exchanging the two spanning vectors of a plane negates its
    normal and leaves every line intersection as it is, both up to the
    sign of zero components: the negated numerator is divided by the
    negated denominator. *)
Theorem X17_plane_orientation :
  forall (d1 d2 p : Vector3.t spec_float) (line : Line.t spec_float),
    opposite3 (Plane.norm (Plane.mk d2 d1 p)) (Plane.norm (Plane.mk d1 d2 p)) /\
    same_number3 (Plane.lineIntersection (Plane.mk d2 d1 p) line)
                 (Plane.lineIntersection (Plane.mk d1 d2 p) line).
Proof.
  intros d1 d2 p line. split; [apply cross_antisym | apply lineIntersection_flip].
Qed.

(** ** The orientation of a triangle *)

(** X18.  Exchanging the second and the third vertex of a triangle
    negates its normal, component by component and up to the sign of
    zeros, for all doubles. *)
Theorem X18_tri_winding :
  forall p0 p1 p2 : Vector3.t spec_float,
    opposite3 (Tri.norm (Tri.mk p0 p2 p1)) (Tri.norm (Tri.mk p0 p1 p2)).
Proof. exact tri_norm_winding. Qed.

(** ** The text written for a vector *)

(** X19.  [operator<<] is the formatted insertion of the text that
    [operator std::string] returns.  A stream that is not good is left as
    it is.  A good stream whose field width does not exceed the length of
    the text, as in [std::cout << v] with nothing set, receives exactly
    that text; with a larger width the text is padded with the fill
    character up to the width, after the text if the adjustment is to the
    left and before it otherwise; in both cases the width is 0
    afterwards.  The text determines the text of each component: the
    separators [", "] and the closing [")"] cannot occur inside a
    converted number. *)
Theorem X19_text_components :
  (forall (out : Ostream.t) (s : Vector3.t bool) (v : Vector3.t spec_float),
      Ostream.good out = false -> op_shl out s v = out) /\
  (forall (out : Ostream.t) (s : Vector3.t bool) (v : Vector3.t spec_float),
      Ostream.good out = true ->
      (Ostream.width out <= Z.of_nat (String.length (toString s v)))%Z ->
      Ostream.written (op_shl out s v) = (Ostream.written out ++ toString s v)%string /\
      Ostream.width (op_shl out s v) = 0%Z /\
      Ostream.good (op_shl out s v) = true) /\
  (forall (out : Ostream.t) (s : Vector3.t bool) (v : Vector3.t spec_float),
      Ostream.good out = true ->
      (Z.of_nat (String.length (toString s v)) < Ostream.width out)%Z ->
      let pad :=
        Ostream.padding
          (Z.to_nat (Ostream.width out - Z.of_nat (String.length (toString s v))))
          (Ostream.fill out) in
      Ostream.written (op_shl out s v)
      = (Ostream.written out
          ++ (if Ostream.left out then toString s v ++ pad else pad ++ toString s v))%string /\
      Z.of_nat (String.length pad + String.length (toString s v)) = Ostream.width out /\
      Ostream.width (op_shl out s v) = 0%Z /\
      Ostream.good (op_shl out s v) = true) /\
  (forall (s s' : Vector3.t bool) (v w : Vector3.t spec_float),
      toString s v = toString s' w ->
      std_to_string (Vector3.x s) (Vector3.x v) = std_to_string (Vector3.x s') (Vector3.x w) /\
      std_to_string (Vector3.y s) (Vector3.y v) = std_to_string (Vector3.y s') (Vector3.y w) /\
      std_to_string (Vector3.z s) (Vector3.z v) = std_to_string (Vector3.z s') (Vector3.z w)).
Proof.
  split; [| split; [| split]].
  - intros out s v Hg. rewrite op_shl_insert. now apply insert_not_good.
  - intros out s v Hg Hw. rewrite op_shl_insert, (insert_unpadded out _ Hg Hw).
    repeat split.
  - intros out s v Hg Hw pad. rewrite op_shl_insert. unfold Ostream.insert.
    rewrite Hg. fold pad. cbn [Ostream.written Ostream.width Ostream.good].
    repeat split. unfold pad. rewrite padding_length. lia.
  - exact toString_components.
Qed.

(** A stream in its initial state, and one with the width set to 40 and
    the fill character [*]. *)
Lemma X19_witness :
  Ostream.written (op_shl fresh_stream clear_signs v_small)
  = "(0.000000, 2.500000, 1.000000)"%string /\
  Ostream.written
    (op_shl (Ostream.mk true 40 "*" false EmptyString) clear_signs v_small)
  = "**********(0.000000, 2.500000, 1.000000)"%string /\
  op_shl (Ostream.mk false 40 "*" false EmptyString) clear_signs v_small
  = Ostream.mk false 40 "*" false EmptyString /\
  std_to_string false (decimal 1 10000000) = std_to_string false (of_Z 0).
Proof.
  destruct X19_text_components as (Hbad & Hplain & Hpad & Hcomp).
  split; [| split; [| split]].
  - rewrite (proj1 (Hplain fresh_stream clear_signs v_small eq_refl
                      ltac:(vm_compute; discriminate))).
    reflexivity.
  - rewrite (proj1 (Hpad (Ostream.mk true 40 "*" false EmptyString) clear_signs v_small
                      eq_refl eq_refl)).
    reflexivity.
  - apply Hbad. reflexivity.
  - apply (Hcomp clear_signs clear_signs
             (Vector3.mk (decimal 1 10000000) (of_Z 0) (of_Z 0)) (vec 0 0 0)).
    reflexivity.
Defined.

(** X20.  A finite double of magnitude [m * 2^-k] below half a millionth
    is written like the zero of its sign: ["0.000000"] or
    ["-0.000000"]. *)
Theorem X20_small_written_as_zero :
  forall (b s : bool) (m k : positive),
    (2 * (Npos m * 10 ^ 6) < 2 ^ Npos k)%N ->
    std_to_string b (S754_finite s m (Zneg k)) = std_to_string b (S754_zero s) /\
    std_to_string b (S754_zero s) = (sign_string s ++ "0.000000")%string.
Proof.
  intros b s m k H. split; [now apply std_to_string_small |].
  destruct s; reflexivity.
Qed.

(** The double nearest to [0.0000001] is [7555786372591432 * 2^-76]. *)
Lemma X20_witness :
  decimal 1 10000000 = S754_finite false 7555786372591432 (-76) /\
  std_to_string false (S754_finite false 7555786372591432 (-76)) = "0.000000"%string.
Proof.
  split; [reflexivity |].
  rewrite (proj1 (X20_small_written_as_zero false false 7555786372591432 76 eq_refl)).
  reflexivity.
Defined.

(** ** Squares that underflow or overflow *)

(** Shifting a mantissa right by more than its number of digits leaves
    zero, below one half: the square of a tiny double rounds to [+0]. *)
Lemma shr_1_zero (mrs : shr_record) :
  shr_m mrs = 0%Z -> shr_m (shr_1 mrs) = 0%Z /\ shr_r (shr_1 mrs) = false.
Proof. destruct mrs as [m r s]. cbn [shr_m]. intros ->. split; reflexivity. Qed.

Lemma shr_iter_zero (j : nat) (mrs : shr_record) :
  shr_m mrs = 0%Z ->
  shr_m (Nat.iter (S j) shr_1 mrs) = 0%Z /\ shr_r (Nat.iter (S j) shr_1 mrs) = false.
Proof.
  intros Hm. induction j as [| j IH].
  - now apply shr_1_zero.
  - rewrite Nat.iter_succ. apply shr_1_zero, IH.
Qed.

Lemma shr_iter_beyond (m : positive) (k : nat) :
  (Zpos (digits2_pos m) < Z.of_nat k)%Z ->
  let mrs := Nat.iter k shr_1 (shr_record_of_loc (Zpos m) loc_Exact) in
  shr_m mrs = 0%Z /\ shr_r mrs = false.
Proof.
  intros Hk.
  set (d := Pos.to_nat (digits2_pos m)).
  assert (Hd : Z.of_nat d = Zpos (digits2_pos m)) by (unfold d; apply positive_nat_Z).
  assert (Ek : k = (S (k - d - 1) + d)%nat) by lia.
  rewrite Ek, Nat.iter_add. apply shr_iter_zero.
  rewrite shr_iter_m by (cbn; lia). cbn [shr_record_of_loc shr_m].
  rewrite Hd. apply Z.div_small. pose proof (digits2_pos_bounds m). lia.
Qed.

Lemma round_zero_below_half (mrs : shr_record) :
  shr_m mrs = 0%Z -> shr_r mrs = false ->
  round_nearest_even (shr_m mrs) (loc_of_shr_record mrs) = 0%Z.
Proof. destruct mrs as [m [] []]; cbn; intros; subst; try discriminate; reflexivity. Qed.

Lemma round_aux_underflow (sx : bool) (mx : positive) (ex : Z) :
  (Zpos (digits2_pos mx) + ex <= -1076)%Z ->
  binary_round_aux prec emax sx (Zpos mx) ex loc_Exact = S754_zero sx.
Proof.
  intros H. unfold binary_round_aux, shr_fexp at 1. cbn [Zdigits2].
  assert (Hf : fexp prec emax (Zpos (digits2_pos mx) + ex) = (-1074)%Z)
    by (unfold fexp, emin, prec, emax; lia).
  rewrite Hf. unfold shr at 1.
  destruct (-1074 - ex)%Z as [| p | p] eqn:En; try lia.
  rewrite iter_pos_nat.
  destruct (shr_iter_beyond mx (Pos.to_nat p)) as [Hm Hr].
  { rewrite positive_nat_Z. lia. }
  rewrite (round_zero_below_half _ Hm Hr).
  replace (ex + Zpos p)%Z with (-1074)%Z by lia. reflexivity.
Qed.

Lemma digits_mul_le (m n : positive) :
  (Zpos (digits2_pos (m * n)) <= Zpos (digits2_pos m) + Zpos (digits2_pos n))%Z.
Proof.
  pose proof (digits2_pos_bounds m) as [_ Hm].
  pose proof (digits2_pos_bounds n) as [_ Hn].
  pose proof (digits2_pos_bounds (m * n)) as [Hl _].
  set (a := Zpos (digits2_pos m)) in *. set (b := Zpos (digits2_pos n)) in *.
  set (c := Zpos (digits2_pos (m * n))) in *.
  assert (Hlt : (2 ^ (c - 1) < 2 ^ (a + b))%Z).
  { rewrite Z.pow_add_r by (unfold a, b; lia). rewrite Pos2Z.inj_mul in Hl. nia. }
  apply Z.pow_lt_mono_r_iff in Hlt; unfold a, b in *; lia.
Qed.

Lemma digits_mul_ge (m n : positive) :
  (Zpos (digits2_pos m) + Zpos (digits2_pos n) - 1 <= Zpos (digits2_pos (m * n)))%Z.
Proof.
  pose proof (digits2_pos_bounds m) as [Hm _].
  pose proof (digits2_pos_bounds n) as [Hn _].
  pose proof (digits2_pos_bounds (m * n)) as [_ Hu].
  set (a := Zpos (digits2_pos m)) in *. set (b := Zpos (digits2_pos n)) in *.
  set (c := Zpos (digits2_pos (m * n))) in *.
  assert (Hlt : (2 ^ (a - 1 + (b - 1)) < 2 ^ c)%Z).
  { rewrite Z.pow_add_r by (unfold a, b; lia). rewrite Pos2Z.inj_mul in Hu.
    assert (0 < 2 ^ (a - 1))%Z by (apply Z.pow_pos_nonneg; unfold a; lia).
    assert (0 < 2 ^ (b - 1))%Z by (apply Z.pow_pos_nonneg; unfold b; lia).
    nia. }
  apply Z.pow_lt_mono_r_iff in Hlt; unfold a, b, c in *; lia.
Qed.

Lemma mul_self_tiny (c : spec_float) :
  tiny c = true -> SFmul prec emax c c = S754_zero false.
Proof.
  destruct c as [[] | | | s m e]; try discriminate; try reflexivity.
  cbn [tiny magnitude]. intros H. apply Z.leb_le in H.
  cbn [SFmul]. rewrite xorb_nilpotent. apply round_aux_underflow.
  pose proof (digits_mul_le m m). lia.
Qed.

Lemma norm_tiny (v : Vector3.t spec_float) :
  tiny3 v -> Vector3.norm v = S754_zero false.
Proof.
  intros (Hx & Hy & Hz). unfold Vector3.norm. ieee.
  now rewrite !mul_self_tiny.
Qed.

Lemma normalize_tiny (v : Vector3.t spec_float) :
  tiny3 v -> Vector3.normalize v = v.
Proof.
  intros Hv. apply normalize_unchanged. now rewrite (norm_tiny v Hv).
Qed.

(** Rounding a mantissa of at least 53 digits beyond the largest exponent
    gives an infinity. *)
Lemma round_aux_overflow (sx : bool) (mx : positive) (ex : Z) (lx : location) :
  let d := Zpos (digits2_pos mx) in
  (53 <= d)%Z -> (971 < ex + (d - 53))%Z ->
  binary_round_aux prec emax sx (Zpos mx) ex lx = S754_infinity sx.
Proof.
  intros d Hd Hhi. set (n := (d - 53)%Z) in *.
  set (m1 := (Zpos mx / 2 ^ n)%Z).
  assert (Hm1 : (2 ^ 52 <= m1 < 2 ^ 53)%Z).
  { pose proof (digits2_pos_bounds mx) as [Dlo Dhi]. fold d in Dlo, Dhi.
    assert (Hp : (0 < 2 ^ n)%Z) by (apply Z.pow_pos_nonneg; lia).
    replace (d - 1)%Z with (n + 52)%Z in Dlo by lia.
    replace d with (n + 53)%Z in Dhi by lia.
    rewrite Z.pow_add_r in Dlo, Dhi by lia.
    unfold m1. split.
    - apply Z.div_le_lower_bound; lia.
    - apply Z.div_lt_upper_bound; lia. }
  unfold binary_round_aux.
  pose proof (shr_fexp_spec mx ex lx) as [Hm He]. fold d in Hm, He.
  rewrite fexp_normal in Hm, He by lia.
  replace (Z.max 0 (d + ex - 53 - ex))%Z with n in Hm, He by lia.
  destruct (shr_fexp prec emax (Zpos mx) ex lx) as [mrs' e'].
  cbn [fst snd] in Hm, He. fold m1 in Hm. subst e'.
  assert (Hq : exists q : positive,
             round_nearest_even (shr_m mrs') (loc_of_shr_record mrs') = Zpos q /\
             (2 ^ 52 <= Zpos q <= 2 ^ 53)%Z).
  { destruct (round_nearest_even_cases (shr_m mrs') (loc_of_shr_record mrs')) as [Hr | Hr];
      rewrite Hr, Hm.
    - destruct m1 as [| q | q]; try lia. exists q. split; [reflexivity | lia].
    - destruct (m1 + 1)%Z as [| q | q] eqn:Eq; try lia. exists q. split; [reflexivity | lia]. }
  destruct Hq as (q & -> & Hq).
  assert (Dq : (53 <= Zpos (digits2_pos q) <= 54)%Z).
  { pose proof (digits2_pos_bounds q) as [Dlo Dhi].
    split.
    - assert (Hlt : (2 ^ 52 < 2 ^ Zpos (digits2_pos q))%Z) by lia.
      apply Z.pow_lt_mono_r_iff in Hlt; lia.
    - assert (Hlt : (2 ^ (Zpos (digits2_pos q) - 1) < 2 ^ 54)%Z).
      { apply Z.le_lt_trans with (2 ^ 53)%Z; [lia |]. apply Z.pow_lt_mono_r; lia. }
      apply Z.pow_lt_mono_r_iff in Hlt; lia. }
  pose proof (shr_fexp_spec q (ex + n) loc_Exact) as [Hm' He'].
  rewrite fexp_normal in Hm', He' by lia.
  destruct (shr_fexp prec emax (Zpos q) (ex + n) loc_Exact) as [mrs'' e''].
  cbn [fst snd] in Hm', He'.
  set (n' := Z.max 0 (Zpos (digits2_pos q) + (ex + n) - 53 - (ex + n))%Z) in *.
  assert (Hn' : (0 <= n' <= 1)%Z) by (unfold n'; lia).
  assert (Hpos : (0 < shr_m mrs'')%Z).
  { rewrite Hm'. apply Z.div_str_pos. split.
    - apply Z.pow_pos_nonneg; lia.
    - apply Z.le_trans with (2 ^ 1)%Z; [apply Z.pow_le_mono_r; lia | lia]. }
  destruct (shr_m mrs'') as [| r | r]; try lia.
  replace (e'' <=? emax - prec)%Z with false; [reflexivity |].
  symmetry. apply Z.leb_gt. unfold emax, prec. lia.
Qed.

Lemma huge_mantissa (s : bool) (m : positive) (e : Z) :
  is_double (S754_finite s m e) -> huge (S754_finite s m e) = true ->
  Zpos (digits2_pos m) = 53%Z /\ (460 <= e)%Z.
Proof.
  unfold is_double, valid_binary, bounded, canonical_mantissa. intros Hb Hh.
  apply andb_prop in Hb. destruct Hb as [Hc _]. apply Z.eqb_eq in Hc.
  cbn [huge magnitude] in Hh. apply Z.leb_le in Hh.
  unfold fexp, emin, prec, emax in Hc. lia.
Qed.

Lemma mul_self_huge (c : spec_float) :
  is_double c -> huge c = true -> SFmul prec emax c c = S754_infinity false.
Proof.
  destruct c as [| | | s m e]; try discriminate. intros Hd Hh.
  destruct (huge_mantissa s m e Hd Hh) as [Dm He].
  cbn [SFmul]. rewrite xorb_nilpotent.
  pose proof (digits_mul_ge m m) as Hge.
  apply round_aux_overflow; cbv zeta; lia.
Qed.

Lemma add_inf_l (b : spec_float) :
  nonnegative b = true ->
  SFadd prec emax (S754_infinity false) b = S754_infinity false.
Proof. destruct b as [[] | [] | | [] m e]; try discriminate; reflexivity. Qed.

Lemma add_inf_r (a : spec_float) :
  nonnegative a = true ->
  SFadd prec emax a (S754_infinity false) = S754_infinity false.
Proof. destruct a as [[] | [] | | [] m e]; try discriminate; reflexivity. Qed.

Lemma norm_huge (v : Vector3.t spec_float) :
  is_double3 v -> is_finite3 v ->
  huge (Vector3.x v) || huge (Vector3.y v) || huge (Vector3.z v) = true ->
  Vector3.norm v = S754_infinity false.
Proof.
  intros (Vx & Vy & Vz) (Fx & Fy & Fz) H.
  pose proof (mul_self_nonnegative _ (finite_not_nan _ Fx)) as Nx.
  pose proof (mul_self_nonnegative _ (finite_not_nan _ Fy)) as Ny.
  pose proof (mul_self_nonnegative _ (finite_not_nan _ Fz)) as Nz.
  unfold Vector3.norm. ieee.
  apply orb_true_iff in H. destruct H as [H | H];
    [apply orb_true_iff in H; destruct H as [H | H] |].
  - rewrite (mul_self_huge _ Vx H), (add_inf_l _ Ny), (add_inf_l _ Nz). reflexivity.
  - rewrite (mul_self_huge _ Vy H), (add_inf_r _ Nx), (add_inf_l _ Nz). reflexivity.
  - rewrite (mul_self_huge _ Vz H), add_inf_r; [reflexivity |].
    now apply add_nonnegative.
Qed.

(** X21.  A vector all of whose components are zeros or doubles below
    [2^-538] in magnitude has norm [+0], because the squares underflow,
    and [normalize] leaves it unchanged although it need not be the zero
    vector. *)
Theorem X21_normalize_underflow :
  forall v : Vector3.t spec_float,
    tiny3 v -> Vector3.norm v = S754_zero false /\ Vector3.normalize v = v.
Proof. intros v Hv. split; [now apply norm_tiny | now apply normalize_tiny]. Qed.

(** The vector [(2^-600, 0, -2^-700)]. *)
Lemma X21_witness :
  let v := Vector3.mk (decimal 1 (2 ^ 600)) (of_Z 0) (fneg (decimal 1 (2 ^ 700))) in
  feq (Vector3.x v) (of_Z 0) = false /\
  Vector3.norm v = S754_zero false /\ Vector3.normalize v = v.
Proof.
  intros v. split; [reflexivity |].
  apply (X21_normalize_underflow v). repeat split.
Defined.

(** X22.  A vector of finite doubles with a component of magnitude [2^512]
    or more has norm [+infinity], because the square overflows, and
    [normalize] turns it into a vector of zeros. *)
Theorem X22_normalize_overflow :
  forall v : Vector3.t spec_float,
    is_double3 v -> is_finite3 v ->
    huge (Vector3.x v) || huge (Vector3.y v) || huge (Vector3.z v) = true ->
    Vector3.norm v = S754_infinity false /\ is_zero3 (Vector3.normalize v).
Proof.
  intros v Vv Fv H. pose proof (norm_huge v Vv Fv H) as Hn.
  split; [exact Hn | now apply normalize_infinite_norm].
Qed.

Lemma X22_witness :
  Vector3.norm v_huge = S754_infinity false /\ is_zero3 (Vector3.normalize v_huge).
Proof. apply (X22_normalize_overflow v_huge); repeat split. Defined.

(** ** The tolerance of [operator==] in real numbers *)

Section Tolerance.
Local Open Scope R_scope.


Lemma tolerance_value : tolerance = IZR 5764607523034235 * pow2 (-60).
Proof. unfold tolerance. rewrite (proj1 epsilon_binary64). apply SF2R_finite_pos. Qed.

Lemma tolerance_bounds : pow2 (-8) <= tolerance < pow2 (-7).
Proof.
  rewrite tolerance_value.
  pose proof (mantissa_range 5764607523034235 (-60)) as H. cbv zeta in H.
  change (Zpos (digits2_pos 5764607523034235)) with 53%Z in H.
  exact H.
Qed.

Lemma tolerance_decimal :
  5 / 1000 - / 2305843009213693952 < tolerance < 5 / 1000 + / 2305843009213693952.
Proof.
  pose proof (proj2 (proj2 epsilon_binary64)) as H. fold tolerance in H.
  change (2 ^ 61)%Z with 2305843009213693952%Z in H.
  apply Rabs_def2 in H. lra.
Qed.

Lemma within_zero (r : spec_float) : is_zero r = true -> within_tolerance r = true.
Proof. destruct r; try discriminate. reflexivity. Qed.

Lemma within_infinity (s : bool) : within_tolerance (S754_infinity s) = false.
Proof. destruct s; reflexivity. Qed.

(** Comparing a finite double with a positive bound [M * 2^E] and its
    opposite: the exponents decide, then the mantissas. *)
Lemma low_exponent_test (s : bool) (m M : positive) (e E : Z) :
  (e < E)%Z ->
  SFltb (S754_finite s m e) (S754_finite false M E)
  && SFltb (S754_finite true M E) (S754_finite s m e) = true.
Proof.
  intros He. unfold SFltb. cbn [SFcompare].
  rewrite (Z.compare_antisym e E).
  apply Z.compare_lt_iff in He. rewrite He. destruct s; reflexivity.
Qed.

Lemma high_exponent_test (s : bool) (m M : positive) (e E : Z) :
  (E < e)%Z ->
  SFltb (S754_finite s m e) (S754_finite false M E)
  && SFltb (S754_finite true M E) (S754_finite s m e) = false.
Proof.
  intros He. unfold SFltb. cbn [SFcompare].
  rewrite (Z.compare_antisym e E).
  apply Z.compare_gt_iff in He. rewrite He. destruct s; reflexivity.
Qed.

Lemma same_exponent_test (s : bool) (m M : positive) (e : Z) :
  SFltb (S754_finite s m e) (S754_finite false M e)
  && SFltb (S754_finite true M e) (S754_finite s m e)
  = (m <? M)%positive.
Proof.
  unfold SFltb, Pos.ltb. cbn [SFcompare].
  rewrite Z.compare_refl, !Pos.compare_cont_spec, (Pos.compare_antisym m M).
  destruct s; destruct (m ?= M)%positive; reflexivity.
Qed.

Lemma normal_test (M : positive) (E : Z) (r : spec_float) :
  Zpos (digits2_pos M) = 53%Z -> normal64 r ->
  (SFltb r (S754_finite false M E) && SFltb (S754_finite true M E) r = true
   <-> Rabs (SF2R r) < IZR (Zpos M) * pow2 E).
Proof.
  intros HM. destruct r as [| | | s m e]; try contradiction. intros [Hd He].
  rewrite Rabs_SF2R_finite.
  pose proof (mantissa_range m e) as Hm. cbv zeta in Hm. rewrite Hd in Hm.
  pose proof (mantissa_range M E) as HT. cbv zeta in HT. rewrite HM in HT.
  destruct (Z.lt_trichotomy e E) as [Hlt | [Heq | Hgt]].
  - rewrite low_exponent_test by assumption.
    split; [intros _ | reflexivity].
    pose proof (pow2_le (53 + e) (53 - 1 + E) ltac:(lia)). lra.
  - subst e. rewrite same_exponent_test.
    pose proof (pow2_pos E) as Hp.
    split.
    + intros H. apply Pos.ltb_lt in H.
      apply Rmult_lt_compat_r; [assumption |]. apply IZR_lt. lia.
    + intros H. apply Pos.ltb_lt.
      apply Rmult_lt_reg_r in H; [| assumption]. apply lt_IZR in H. lia.
  - rewrite high_exponent_test by assumption.
    split; [discriminate | intros H; exfalso].
    pose proof (pow2_le (53 + E) (53 - 1 + e) ltac:(lia)). lra.
Qed.

Lemma within_unfold (r : spec_float) :
  within_tolerance r
  = SFltb r (S754_finite false 5764607523034235 (-60))
    && SFltb (S754_finite true 5764607523034235 (-60)) r.
Proof. unfold within_tolerance, fgt. now rewrite (proj1 epsilon_binary64). Qed.

Lemma within_low_exponent (s : bool) (m : positive) (e : Z) :
  (e < -60)%Z -> within_tolerance (S754_finite s m e) = true.
Proof. intros He. rewrite within_unfold. now apply low_exponent_test. Qed.

Lemma within_high_exponent (s : bool) (m : positive) (e : Z) :
  (-60 < e)%Z -> within_tolerance (S754_finite s m e) = false.
Proof. intros He. rewrite within_unfold. now apply high_exponent_test. Qed.

(** For a double in the normal range the test compares the magnitude with
    the value of [epsilon]. *)
Lemma within_normal (r : spec_float) :
  normal64 r -> (within_tolerance r = true <-> Rabs (SF2R r) < tolerance).
Proof.
  intros Hr. rewrite within_unfold, tolerance_value.
  apply normal_test; [reflexivity | assumption].
Qed.

(** So it does for every finite double, the subnormal ones included. *)
Lemma within_double (r : spec_float) :
  is_double r -> is_finite r = true ->
  (within_tolerance r = true <-> Rabs (SF2R r) < tolerance).
Proof.
  destruct r as [s | | | s m e]; try discriminate.
  - intros _ _. cbn [SF2R]. rewrite Rabs_R0. pose proof tolerance_bounds.
    pose proof (pow2_pos (-8)). split; [lra | reflexivity].
  - unfold is_double, valid_binary, bounded, canonical_mantissa. intros Hb _.
    apply andb_prop in Hb. destruct Hb as [Hc He].
    apply Z.eqb_eq in Hc. apply Z.leb_le in He.
    unfold fexp, emin, prec, emax in Hc, He.
    destruct (Z_lt_le_dec (-1074) e) as [Hn | Hs].
    + apply within_normal. split; lia.
    + assert (Ee : e = (-1074)%Z) by lia. subst e.
      rewrite within_low_exponent by lia. split; [intros _ | reflexivity].
      rewrite Rabs_SF2R_finite.
      pose proof (mantissa_range m (-1074)) as Hm. cbv zeta in Hm.
      pose proof (pow2_le (Zpos (digits2_pos m) + -1074) (-8) ltac:(lia)).
      pose proof tolerance_bounds. lra.
Qed.
End Tolerance.

(** The difference of two doubles, rounded: below the normal range,
    inside it, and beyond it. *)
Section SubtractionError.
Local Open Scope R_scope.

Lemma shl_align_digits (m : positive) (e e' : Z) :
  (e' <= e)%Z ->
  Zpos (digits2_pos (fst (shl_align m e e'))) = (Zpos (digits2_pos m) + (e - e'))%Z.
Proof.
  intros Hle. apply digits_unique. rewrite shl_align_value by assumption.
  pose proof (digits2_pos_bounds m) as [Hlo Hhi].
  set (d := Zpos (digits2_pos m)) in *.
  assert (Hd : (1 <= d)%Z) by (unfold d; lia).
  replace (d + (e - e') - 1)%Z with (d - 1 + (e - e'))%Z by lia.
  rewrite !Z.pow_add_r by lia.
  assert (Hp : (0 < 2 ^ (e - e'))%Z) by (apply Z.pow_pos_nonneg; lia).
  split; nia.
Qed.

Lemma shl_align_snd (m : positive) (e e' : Z) :
  (e' <= e)%Z -> snd (shl_align m e e') = e'.
Proof.
  intros Hle. unfold shl_align.
  destruct (e' - e)%Z as [| p | p] eqn:Ed; cbn [snd]; lia.
Qed.

(** The mantissa and exponent [binary_round] hands over to the rounding
    step. *)
Lemma round_alignment (p : positive) (e : Z) :
  (-1074 <= e)%Z ->
  let d := Zpos (digits2_pos p) in
  let a := shl_align p e (fexp prec emax (d + e)) in
  let d' := Zpos (digits2_pos (fst a)) in
  IZR (Zpos (fst a)) * pow2 (snd a) = IZR (Zpos p) * pow2 e /\
  (d' + snd a = d + e)%Z /\ (-1074 <= snd a)%Z /\
  ((-1021 <= d + e)%Z -> (53 <= d')%Z) /\
  ((d + e < -1021)%Z -> snd a = (-1074)%Z /\ (d' < 53)%Z).
Proof.
  intros He d a d'. subst a d'.
  set (f := fexp prec emax (d + e)).
  assert (Hf : f = Z.max (d + e - 53) (-1074))
    by (unfold f, fexp, emin, prec, emax; lia).
  destruct (Z_le_gt_dec f e) as [Hle | Hgt].
  - rewrite (shl_align_snd p e f Hle), (aligned_value p e f Hle),
      (shl_align_digits p e f Hle). fold d.
    repeat split; lia.
  - rewrite (shl_align_keep p e f) by lia. cbn [fst snd]. fold d.
    repeat split; lia.
Qed.

Lemma binary_round_normal (s : bool) (p : positive) (e : Z) :
  let d := Zpos (digits2_pos p) in
  (-1074 <= e)%Z -> (-1021 <= d + e)%Z -> (d + e <= 1023)%Z ->
  let r := binary_round prec emax s p e in
  let v := IZR (Zpos p) * pow2 e in
  normal64 r /\ Rabs (Rabs (SF2R r) - v) <= unit_roundoff * v.
Proof.
  intros d He Hlo Hhi r v. subst r. unfold binary_round.
  pose proof (round_alignment p e He) as (Hv & Hd & He' & Hn & _).
  fold d in Hv, Hd, Hn |- *. specialize (Hn Hlo).
  destruct (shl_align p e (fexp prec emax (d + e))) as [p' e'].
  cbn [fst snd] in *.
  pose proof (round_aux_error s p' e' loc_Exact v) as Herr. cbv zeta in Herr.
  destruct Herr as (Hnorm & _ & Herr); try lia.
  - unfold v. rewrite <- Hv, plus_IZR. pose proof (pow2_pos e'). split; nra.
  - split; assumption.
Qed.

(** The exponent of a rounded mantissa of at least 53 digits does not go
    below that of its 53 leading digits. *)
Lemma round_aux_exponent (sx : bool) (mx : positive) (ex : Z) (lx : location) :
  let d := Zpos (digits2_pos mx) in
  (53 <= d)%Z -> (-1074 <= ex + (d - 53))%Z ->
  binary_round_aux prec emax sx (Zpos mx) ex lx = S754_infinity sx \/
  exists (m : positive) (e : Z),
    binary_round_aux prec emax sx (Zpos mx) ex lx = S754_finite sx m e /\
    (ex + (d - 53) <= e)%Z.
Proof.
  intros d Hd Hlo. set (n := (d - 53)%Z) in *.
  set (m1 := (Zpos mx / 2 ^ n)%Z).
  assert (Hm1 : (2 ^ 52 <= m1 < 2 ^ 53)%Z).
  { pose proof (digits2_pos_bounds mx) as [Dlo Dhi]. fold d in Dlo, Dhi.
    assert (Hp : (0 < 2 ^ n)%Z) by (apply Z.pow_pos_nonneg; lia).
    replace (d - 1)%Z with (n + 52)%Z in Dlo by lia.
    replace d with (n + 53)%Z in Dhi by lia.
    rewrite Z.pow_add_r in Dlo, Dhi by lia.
    unfold m1. split.
    - apply Z.div_le_lower_bound; lia.
    - apply Z.div_lt_upper_bound; lia. }
  unfold binary_round_aux.
  pose proof (shr_fexp_spec mx ex lx) as [Hm He]. fold d in Hm, He.
  rewrite fexp_normal in Hm, He by lia.
  replace (Z.max 0 (d + ex - 53 - ex))%Z with n in Hm, He by lia.
  destruct (shr_fexp prec emax (Zpos mx) ex lx) as [mrs' e'].
  cbn [fst snd] in Hm, He. fold m1 in Hm. subst e'.
  assert (Hq : exists q : positive,
             round_nearest_even (shr_m mrs') (loc_of_shr_record mrs') = Zpos q /\
             (2 ^ 52 <= Zpos q <= 2 ^ 53)%Z).
  { destruct (round_nearest_even_cases (shr_m mrs') (loc_of_shr_record mrs')) as [Hr | Hr];
      rewrite Hr, Hm.
    - destruct m1 as [| q | q]; try lia. exists q. split; [reflexivity | lia].
    - destruct (m1 + 1)%Z as [| q | q] eqn:Eq; try lia. exists q. split; [reflexivity | lia]. }
  destruct Hq as (q & -> & Hq).
  assert (Dq : (53 <= Zpos (digits2_pos q) <= 54)%Z).
  { pose proof (digits2_pos_bounds q) as [Dlo Dhi].
    split.
    - assert (Hlt : (2 ^ 52 < 2 ^ Zpos (digits2_pos q))%Z) by lia.
      apply Z.pow_lt_mono_r_iff in Hlt; lia.
    - assert (Hlt : (2 ^ (Zpos (digits2_pos q) - 1) < 2 ^ 54)%Z).
      { apply Z.le_lt_trans with (2 ^ 53)%Z; [lia |]. apply Z.pow_lt_mono_r; lia. }
      apply Z.pow_lt_mono_r_iff in Hlt; lia. }
  pose proof (shr_fexp_spec q (ex + n) loc_Exact) as [Hm' He'].
  rewrite fexp_normal in Hm', He' by lia.
  destruct (shr_fexp prec emax (Zpos q) (ex + n) loc_Exact) as [mrs'' e''].
  cbn [fst snd] in Hm', He'.
  set (n' := Z.max 0 (Zpos (digits2_pos q) + (ex + n) - 53 - (ex + n))%Z) in *.
  assert (Hn' : (0 <= n' <= 1)%Z) by (unfold n'; lia).
  assert (Hpos : (0 < shr_m mrs'')%Z).
  { rewrite Hm'. apply Z.div_str_pos. split.
    - apply Z.pow_pos_nonneg; lia.
    - apply Z.le_trans with (2 ^ 1)%Z; [apply Z.pow_le_mono_r; lia | lia]. }
  destruct (shr_m mrs'') as [| r | r]; try lia.
  destruct (e'' <=? emax - prec)%Z; [right | now left].
  exists r, e''. split; [reflexivity | lia].
Qed.

Lemma binary_round_large (s : bool) (p : positive) (e : Z) :
  let d := Zpos (digits2_pos p) in
  (-1074 <= e)%Z -> (1024 <= d + e)%Z ->
  within_tolerance (binary_round prec emax s p e) = false.
Proof.
  intros d He Hlo. unfold binary_round.
  pose proof (round_alignment p e He) as (_ & Hd & He' & Hn & _).
  fold d in Hd, Hn |- *. specialize (Hn ltac:(lia)).
  destruct (shl_align p e (fexp prec emax (d + e))) as [p' e'].
  cbn [fst snd] in *.
  destruct (round_aux_exponent s p' e' loc_Exact Hn ltac:(lia))
    as [-> | (m & e'' & -> & Hle)].
  - apply within_infinity.
  - apply within_high_exponent. lia.
Qed.

Lemma binary_round_subnormal (s : bool) (p : positive) (e : Z) :
  let d := Zpos (digits2_pos p) in
  (-1074 <= e)%Z -> (d + e < -1021)%Z ->
  exists m : positive, binary_round prec emax s p e = S754_finite s m (-1074).
Proof.
  intros d He Hlo. unfold binary_round.
  pose proof (round_alignment p e He) as (_ & Hd & _ & _ & Hs).
  fold d in Hd, Hs |- *. destruct (Hs Hlo) as [Ee Hd']. clear Hs.
  destruct (shl_align p e (fexp prec emax (d + e))) as [p' e'].
  cbn [fst snd] in *. subst e'.
  unfold binary_round_aux.
  pose proof (shr_fexp_spec p' (-1074) loc_Exact) as [Hm He'].
  assert (Hf : forall k : Z, (k <= 53)%Z ->
             Z.max 0 (fexp prec emax (k + -1074) - -1074) = 0%Z)
    by (intros k Hk; unfold fexp, emin, prec, emax; lia).
  rewrite Hf in Hm, He' by lia. rewrite Z.div_1_r in Hm.
  destruct (shr_fexp prec emax (Zpos p') (-1074) loc_Exact) as [mrs' e1].
  cbn [fst snd] in Hm, He'. rewrite Z.add_0_r in He'. subst e1.
  assert (Hq : exists q : positive,
             round_nearest_even (shr_m mrs') (loc_of_shr_record mrs') = Zpos q /\
             (Zpos (digits2_pos q) <= 53)%Z).
  { pose proof (digits2_pos_bounds p') as [_ Hhi].
    assert (Hp52 : (Zpos p' < 2 ^ 52)%Z).
    { apply Z.lt_le_trans with (2 ^ Zpos (digits2_pos p'))%Z; [assumption |].
      apply Z.pow_le_mono_r; lia. }
    assert (Hdig : forall q : positive, (Zpos q <= 2 ^ 52)%Z ->
                   (Zpos (digits2_pos q) <= 53)%Z).
    { intros q Hq. pose proof (digits2_pos_bounds q) as [Qlo _].
      assert (Hlt : (2 ^ (Zpos (digits2_pos q) - 1) < 2 ^ 53)%Z).
      { apply Z.le_lt_trans with (2 ^ 52)%Z; [lia |]. apply Z.pow_lt_mono_r; lia. }
      apply Z.pow_lt_mono_r_iff in Hlt; lia. }
    destruct (round_nearest_even_cases (shr_m mrs') (loc_of_shr_record mrs')) as [Hr | Hr];
      rewrite Hr, Hm.
    - exists p'. split; [reflexivity | lia].
    - exists (p' + 1)%positive. split; [reflexivity |]. apply Hdig. lia. }
  destruct Hq as (q & -> & Dq).
  pose proof (shr_fexp_spec q (-1074) loc_Exact) as [Hm' He''].
  rewrite Hf in Hm', He'' by lia. rewrite Z.div_1_r in Hm'.
  destruct (shr_fexp prec emax (Zpos q) (-1074) loc_Exact) as [mrs'' e2].
  cbn [fst snd] in Hm', He''. rewrite Z.add_0_r in He''. subst e2. rewrite Hm'.
  exists q. reflexivity.
Qed.

(** The real value of the integer difference of two aligned mantissas. *)
Lemma aligned_signed_value (s : bool) (m : positive) (e e' : Z) :
  (e' <= e)%Z ->
  IZR (cond_Zopp s (Zpos (fst (shl_align m e e')))) * pow2 e'
  = SF2R (S754_finite s m e).
Proof.
  intros Hle. rewrite SF2R_finite.
  pose proof (aligned_value m e e' Hle) as H.
  destruct s; cbn [cond_Zopp].
  - change (Z.opp (Zpos ?q)) with (- Zpos q)%Z. rewrite !opp_IZR. lra.
  - exact H.
Qed.

Lemma double_exponent (s : bool) (m : positive) (e : Z) :
  is_double (S754_finite s m e) -> (-1074 <= e)%Z.
Proof.
  unfold is_double, valid_binary, bounded, canonical_mantissa. intros Hb.
  apply andb_prop in Hb. destruct Hb as [Hc _]. apply Z.eqb_eq in Hc.
  unfold fexp, emin, prec, emax in Hc. lia.
Qed.

Lemma SF2R_opp (a : spec_float) : SF2R (SFopp a) = - SF2R a.
Proof.
  destruct a as [s | s | | s m e]; cbn [SFopp]; try (cbn [SF2R]; lra).
  rewrite !SF2R_finite. destruct s; cbn [negb cond_Zopp];
    change (Z.opp (Zpos m)) with (- Zpos m)%Z; rewrite ?opp_IZR; lra.
Qed.

Lemma tolerance_pos : 0 < tolerance.
Proof. pose proof tolerance_bounds. pose proof (pow2_pos (-8)). lra. Qed.

(** A nonzero difference of aligned mantissas, rounded. *)
Lemma rounded_within (s : bool) (p : positive) (e : Z) :
  (-1074 <= e)%Z ->
  let v := IZR (Zpos p) * pow2 e in
  let r := binary_round prec emax s p e in
  (within_tolerance r = true -> (1 - round_err) * v < tolerance) /\
  ((1 + round_err) * v < tolerance -> within_tolerance r = true).
Proof.
  intros He v r.
  pose proof (mantissa_range p e) as Hv. cbv zeta in Hv. fold v in Hv.
  set (d := Zpos (digits2_pos p)) in *.
  pose proof tolerance_bounds as HT. pose proof unit_roundoff_le as Hu.
  pose proof unit_roundoff_pos as Hu0.
  assert (Hrho : round_err = 1 / 1000000000000000) by reflexivity.
  assert (Hv0 : 0 < v) by (pose proof (pow2_pos (d - 1 + e)); lra).
  destruct (Z_lt_le_dec (d + e) (-1021)) as [Hsub | Hnorm].
  - (* below the normal range *)
    destruct (binary_round_subnormal s p e He Hsub) as [m Hr]. fold r in Hr.
    rewrite Hr, within_low_exponent by lia.
    split; [intros _ | reflexivity].
    pose proof (pow2_le (d + e) (-8) ltac:(lia)). nra.
  - destruct (Z_le_gt_dec (d + e) 1023) as [Hin | Hbig].
    + (* the normal range *)
      destruct (binary_round_normal s p e He Hnorm Hin) as [Hn Herr].
      fold r v in Hn, Herr. rewrite (within_normal r Hn).
      apply Rabs_le_bounds in Herr.
      split; intros H; nra.
    + (* beyond the range *)
      unfold r. rewrite (binary_round_large s p e He ltac:(lia)).
      split; [discriminate | intros H; exfalso].
      pose proof (pow2_le (-7) (d - 1 + e) ltac:(lia)). nra.
Qed.

(** The test of [operator==] on one axis, in terms of the real distance of
    the two components. *)
Lemma sub_within (a b : spec_float) :
  is_double a -> is_double b -> is_finite a = true -> is_finite b = true ->
  let v := Rabs (SF2R a - SF2R b) in
  (within_tolerance (SFsub prec emax a b) = true -> (1 - round_err) * v < tolerance) /\
  ((1 + round_err) * v < tolerance -> within_tolerance (SFsub prec emax a b) = true).
Proof.
  intros Va Vb Fa Fb v.
  assert (Hrho : round_err = 1 / 1000000000000000) by reflexivity.
  pose proof tolerance_pos as HT.
  assert (Hexact : forall r : spec_float,
             is_double r -> is_finite r = true -> Rabs (SF2R r) = v ->
             (within_tolerance r = true -> (1 - round_err) * v < tolerance) /\
             ((1 + round_err) * v < tolerance -> within_tolerance r = true)).
  { intros r Vr Fr Er. pose proof (within_double r Vr Fr) as Hw.
    rewrite Er in Hw. assert (Hv0 : 0 <= v) by (unfold v; apply Rabs_pos).
    split; intros Hlt.
    - apply Hw in Hlt. nra.
    - apply Hw. nra. }
  destruct a as [sa | | | sa ma ea], b as [sb | | | sb mb eb]; try discriminate.
  - apply Hexact.
    + destruct sa, sb; reflexivity.
    + destruct sa, sb; reflexivity.
    + unfold v. cbn [SF2R]. rewrite Rminus_diag.
      destruct sa, sb; cbn [SFsub SF2R]; reflexivity.
  - apply (Hexact (SFopp (S754_finite sb mb eb))).
    + exact Vb.
    + reflexivity.
    + unfold v. rewrite SF2R_opp. cbn [SF2R]. f_equal. lra.
  - apply (Hexact (S754_finite sa ma ea)).
    + exact Va.
    + reflexivity.
    + unfold v. cbn [SF2R]. f_equal. lra.
  - pose proof (double_exponent _ _ _ Va) as Ea.
    pose proof (double_exponent _ _ _ Vb) as Eb.
    cbn [SFsub]. set (ez := Z.min ea eb).
    assert (Hez : (-1074 <= ez)%Z) by (unfold ez; lia).
    pose proof (aligned_signed_value sa ma ea ez ltac:(unfold ez; lia)) as Ha.
    pose proof (aligned_signed_value sb mb eb ez ltac:(unfold ez; lia)) as Hb.
    set (D := (cond_Zopp sa (Zpos (fst (shl_align ma ea ez)))
               - cond_Zopp sb (Zpos (fst (shl_align mb eb ez))))%Z).
    assert (HD : IZR D * pow2 ez
                 = SF2R (S754_finite sa ma ea) - SF2R (S754_finite sb mb eb)).
    { unfold D. rewrite minus_IZR. lra. }
    pose proof (pow2_pos ez) as Hp.
    assert (Hv : v = Rabs (IZR D) * pow2 ez).
    { unfold v. rewrite <- HD, Rabs_mult, (Rabs_pos_eq (pow2 ez)) by lra.
      reflexivity. }
    destruct D as [| p | p]; cbn [binary_normalize].
    + rewrite Hv, Rabs_R0. split; [intros _; lra | reflexivity].
    + rewrite Hv, (Rabs_pos_eq (IZR (Zpos p))) by (apply IZR_le; lia).
      apply (rounded_within false p ez Hez).
    + rewrite Hv. change (Zneg p) with (- Zpos p)%Z.
      rewrite opp_IZR, Rabs_Ropp, (Rabs_pos_eq (IZR (Zpos p))) by (apply IZR_le; lia).
      apply (rounded_within true p ez Hez).
Qed.

End SubtractionError.

Lemma op_eq_within (a b : Vector3.t spec_float) :
  is_double3 b ->
  Vector3.op_eq a b
  = within_tolerance (SFsub prec emax (Vector3.x a) (Vector3.x b))
    && within_tolerance (SFsub prec emax (Vector3.y a) (Vector3.y b))
    && within_tolerance (SFsub prec emax (Vector3.z a) (Vector3.z b)).
Proof. intros Hb. rewrite (op_eq_binary64 a b Hb). reflexivity. Qed.

Lemma tolerance_upper (v : R) :
  ((1 - round_err) * v < tolerance ->
   v < 500000000000001 / 100000000000000000)%R.
Proof.
  pose proof tolerance_decimal as HT. unfold round_err. intros H. lra.
Qed.

Lemma tolerance_lower (v : R) :
  (0 <= v -> v <= 499999999999999 / 100000000000000000 ->
   (1 + round_err) * v < tolerance)%R.
Proof.
  pose proof tolerance_decimal as HT. unfold round_err. intros H0 H. lra.
Qed.

Lemma op_eq_distances (a b : Vector3.t spec_float) :
  is_double3 a -> is_double3 b -> is_finite3 a -> is_finite3 b ->
  (Vector3.op_eq a b = true ->
   Forall (fun c => c < 500000000000001 / 100000000000000000)%R (axis_distances a b)) /\
  (Forall (fun c => c <= 499999999999999 / 100000000000000000)%R (axis_distances a b) ->
   Vector3.op_eq a b = true).
Proof.
  intros (Vax & Vay & Vaz) Vb (Fax & Fay & Faz) (Fbx & Fby & Fbz).
  rewrite (op_eq_within a b Vb). destruct Vb as (Vbx & Vby & Vbz).
  pose proof (sub_within _ _ Vax Vbx Fax Fbx) as [Hx1 Hx2].
  pose proof (sub_within _ _ Vay Vby Fay Fby) as [Hy1 Hy2].
  pose proof (sub_within _ _ Vaz Vbz Faz Fbz) as [Hz1 Hz2].
  cbv zeta in *. unfold axis_distances. split.
  - intros H. apply andb_prop in H. destruct H as [H Hz].
    apply andb_prop in H. destruct H as [Hx Hy].
    repeat (apply Forall_cons; [apply tolerance_upper; auto |]). apply Forall_nil.
  - intros H. inversion_clear H as [| ? ? Hx H']. inversion_clear H' as [| ? ? Hy H''].
    inversion_clear H'' as [| ? ? Hz _].
    rewrite Hx2, Hy2, Hz2; try reflexivity; apply tolerance_lower;
      try assumption; apply Rabs_pos.
Qed.

(** X23.  What [operator==] means for the real values of the doubles: if
    two vectors of doubles compare equal, their components are finite and
    differ by less than [0.00500000000000001] on every axis; and if the
    components are finite and differ by at most [0.00499999999999999] on
    every axis, the vectors compare equal.  In between, the rounding of the
    difference and of the literal [0.005] decides. *)
Theorem X23_equals_by_distance :
  forall a b : Vector3.t spec_float,
    is_double3 a -> is_double3 b ->
    (Vector3.op_eq a b = true ->
     Forall (fun c => c < 500000000000001 / 100000000000000000)%R
            (axis_distances a b)) /\
    (is_finite3 a -> is_finite3 b ->
     Forall (fun c => c <= 499999999999999 / 100000000000000000)%R
            (axis_distances a b) ->
     Vector3.op_eq a b = true).
Proof.
  intros a b Va Vb. split.
  - intros H. destruct (op_eq_finite a b Vb H) as [Fa Fb].
    now apply (op_eq_distances a b Va Vb Fa Fb).
  - intros Fa Fb. now apply (op_eq_distances a b Va Vb Fa Fb).
Qed.

(** The vectors [(0.004, 0, 0)] and [(0, 0, 0)]. *)
Lemma X23_witness :
  let a := Vector3.mk (decimal 4 1000) (of_Z 0) (of_Z 0) in
  Vector3.op_eq a (vec 0 0 0) = true /\
  Forall (fun c => c < 500000000000001 / 100000000000000000)%R
         (axis_distances a (vec 0 0 0)).
Proof.
  intros a.
  assert (Va : is_double3 a) by (repeat split).
  assert (Vb : is_double3 (vec 0 0 0)) by (repeat split).
  destruct (X23_equals_by_distance a (vec 0 0 0) Va Vb) as [H1 H2]. split.
  - apply H2; [repeat split | repeat split |].
    unfold axis_distances, a, vec; cbn [Vector3.x Vector3.y Vector3.z].
    repeat (apply Forall_cons; [real_values; apply Rabs_le; lra |]). apply Forall_nil.
  - apply H1. reflexivity.
Defined.
